(** * CX complaints dashboard: the SQL data layer and the KPI cards

    A shallow embedding of [app.py]: the query builder of
    [get_filtered_data], the connection discipline of the two data-layer
    functions, the four KPI cards, and the analytical query of
    [get_complex_sql_metrics] (a CTE with two window functions).

    Conventions of the embedding.
    - A DataFrame is the list of its rows, in storage order.
    - TEXT values are [string]s, compared byte-wise as SQLite's BINARY
      collation does; dates are stored by [data_gen.py] as ISO text
      ([strftime('%Y-%m-%d')]) and a [datetime.date] parameter is bound as
      its ISO text, so a date is the string of its ISO form.
    - INTEGER values are [Z].  A REAL value is a binary64 number, given by
      the rational it denotes; a rational that is no binary64 number stands
      for the nearest one.  The additions of SQLite's [SUM] and the division
      of pandas' [mean] round to binary64 ([binary64], [sql_add]); the
      exponent range is not bounded above, so sums are taken to stay below
      the overflow threshold [2 ^ 1024].  The escalation rate and the
      grand total of the amount card are kept as exact rationals.
    - The store connection is an explicit world threaded through a small
      state-and-exception monad. *)

From Stdlib Require Import List String Ascii ZArith QArith Qround Qabs Qpower.
From Stdlib Require Import Lia Bool.
From Stdlib Require Import Permutation Sorted DecimalString DecimalN.
Import ListNotations.

Local Open Scope list_scope.
Local Open Scope string_scope.

(** ** Data model *)

(** One row of table [complaints], with the columns [data_gen.py] writes. *)
Record complaint : Type := mkComplaint {
  complaint_id : Z;
  date : string;
  country : string;
  channel : string;
  category : string;
  status : string;
  sla_hours : Z;
  amount : Q;
  customer_id : string;
  is_escalated : Z
}.

Definition DataFrame : Type := list complaint.

(** The SQLite file at [DB_PATH].  [sqlite3.connect] creates the file when it
    is missing, so a database may have no [complaints] table at all. *)
Record database : Type := mkDatabase {
  complaints : option (list complaint)
}.

(** ** The query builder of [get_filtered_data] *)

Definition nl : string := String (ascii_of_nat 10) EmptyString.

(** The triple-quoted literal of lines 21-24, line breaks and indentation
    included. *)
Definition base_query : string :=
  nl ++ "    SELECT * FROM complaints " ++
  nl ++ "    WHERE date BETWEEN ? AND ?" ++
  nl ++ "    ".

(** [','.join(['?']*n)] *)
Definition placeholders (n : nat) : string :=
  String.concat "," (repeat "?" n).

(** [f" AND col IN ({','.join(['?']*len(values))})"] *)
Definition in_clause (col : string) (values : list string) : string :=
  " AND " ++ col ++ " IN (" ++ placeholders (List.length values) ++ ")".

(** Python truth value of a sequence: false exactly when it is empty. *)
Definition truthy {A : Type} (l : list A) : bool :=
  match l with
  | [] => false
  | _ :: _ => true
  end.

(** One [if values: query += ...; params.extend(values)] step. *)
Definition add_filter (col : string) (values : list string)
    (qp : string * list string) : string * list string :=
  if truthy values
  then (fst qp ++ in_clause col values, (snd qp ++ values)%list)
  else qp.

(** Lines 21-38: the query text and the bound parameters handed to
    [pd.read_sql]. *)
Definition build_query (date_range : string * string)
    (countries channels categories statuses : list string)
    : string * list string :=
  let qp := (base_query, [fst date_range; snd date_range]) in
  let qp := add_filter "country" countries qp in
  let qp := add_filter "channel" channels qp in
  let qp := add_filter "category" categories qp in
  let qp := add_filter "status" statuses qp in
  qp.

(** ** The fragment of SQLite the builder targets *)

(** A WHERE clause is a conjunction of conditions on TEXT columns, each
    consuming its '?' placeholders from the parameter list in order. *)
Inductive cond : Type :=
  | Between (col : string)
  | InList (col : string) (arity : nat).

(** TEXT columns of [complaints]. *)
Definition text_column (name : string) : option (complaint -> string) :=
  if name =? "date" then Some date
  else if name =? "country" then Some country
  else if name =? "channel" then Some channel
  else if name =? "category" then Some category
  else if name =? "status" then Some status
  else if name =? "customer_id" then Some customer_id
  else None.

Fixpoint strip_prefix (p s : string) : option string :=
  match p with
  | EmptyString => Some s
  | String a p' =>
      match s with
      | EmptyString => None
      | String b s' => if Ascii.eqb a b then strip_prefix p' s' else None
      end
  end.

(** Reads an identifier: the characters up to the next blank. *)
Fixpoint read_word (s : string) : string * string :=
  match s with
  | EmptyString => (EmptyString, EmptyString)
  | String c s' =>
      if Ascii.eqb c " " then (EmptyString, s)
      else let (w, r) := read_word s' in (String c w, r)
  end.

(** Reads [?,?,...,?)] and returns the number of placeholders and the text
    after the closing parenthesis. *)
Fixpoint parse_placeholders (s : string) : option (nat * string) :=
  match s with
  | String q (String d s') =>
      if Ascii.eqb q "?" then
        if Ascii.eqb d "," then
          match parse_placeholders s' with
          | Some (n, r) => Some (S n, r)
          | None => None
          end
        else if Ascii.eqb d ")" then Some (1%nat, s')
        else None
      else None
  | _ => None
  end.

(** Reads the [ AND col IN (?,...)] clauses up to the end of the text. *)
Fixpoint parse_in_clauses (fuel : nat) (s : string) : option (list cond) :=
  match s with
  | EmptyString => Some []
  | _ =>
      match fuel with
      | O => None
      | S fuel' =>
          match strip_prefix " AND " s with
          | None => None
          | Some s1 =>
              let (col, s2) := read_word s1 in
              match strip_prefix " IN (" s2 with
              | None => None
              | Some s3 =>
                  match parse_placeholders s3 with
                  | None => None
                  | Some (n, s4) =>
                      match parse_in_clauses fuel' s4 with
                      | None => None
                      | Some cs => Some (InList col n :: cs)
                      end
                  end
              end
          end
      end
  end.

(** A statement of the fragment: the SELECT over [complaints] with the date
    range, then any number of IN clauses. *)
Definition parse_query (q : string) : option (list cond) :=
  match strip_prefix base_query q with
  | None => None
  | Some rest =>
      match parse_in_clauses (String.length rest) rest with
      | None => None
      | Some cs => Some (Between "date" :: cs)
      end
  end.

(** A condition with its parameters bound. *)
Inductive bound_cond : Type :=
  | BBetween (get : complaint -> string) (lo hi : string)
  | BIn (get : complaint -> string) (values : list string).

(** Binds the parameters to the placeholders left to right.  An unknown
    column, too few parameters or parameters left over are errors. *)
Fixpoint bind_params (cs : list cond) (params : list string)
    : option (list bound_cond) :=
  match cs with
  | [] => match params with [] => Some [] | _ :: _ => None end
  | Between col :: cs' =>
      match text_column col, params with
      | Some get, lo :: hi :: params' =>
          match bind_params cs' params' with
          | Some bs => Some (BBetween get lo hi :: bs)
          | None => None
          end
      | _, _ => None
      end
  | InList col n :: cs' =>
      match text_column col with
      | Some get =>
          if (n <=? List.length params)%nat then
            match bind_params cs' (skipn n params) with
            | Some bs => Some (BIn get (firstn n params) :: bs)
            | None => None
            end
          else None
      | None => None
      end
  end.

(** [x BETWEEN lo AND hi] is [lo <= x AND x <= hi]; [x IN (v1,...)] is
    [x = v1 OR ...]. *)
Definition holds (r : complaint) (b : bound_cond) : bool :=
  match b with
  | BBetween get lo hi => String.leb lo (get r) && String.leb (get r) hi
  | BIn get values => existsb (String.eqb (get r)) values
  end.

(** [pd.read_sql(query, conn, params=params)] on the fragment: [None] is a
    raised database error. *)
Definition read_sql (query : string) (params : list string) (db : database)
    : option DataFrame :=
  match complaints db with
  | None => None
  | Some table =>
      match parse_query query with
      | None => None
      | Some cs =>
          match bind_params cs params with
          | None => None
          | Some bs => Some (filter (fun r => forallb (holds r) bs) table)
          end
      end
  end.

(** ** Binary64 arithmetic *)

(** Rounding to the nearest integer, ties to the even one. *)
Definition round_half_even (q : Q) : Z :=
  let f := Qfloor q in
  match (q - inject_Z f ?= 1 # 2)%Q with
  | Lt => f
  | Gt => (f + 1)%Z
  | Eq => if Z.even f then f else (f + 1)%Z
  end.

Definition pow2 (z : Z) : Q := (2 ^ z)%Q.

(** The exponent of a positive number: the [e] with
    [2 ^ e <= x < 2 ^ (e + 1)]. *)
Definition ilog2 (x : Q) : Z :=
  let e := (Z.log2 (Qnum x) - Z.log2 (Zpos (Qden x)))%Z in
  if Qle_bool (pow2 e) x then e else (e - 1)%Z.

(** The binary64 numbers around [x] are the multiples of [2 ^ - shift x]:
    53 significant bits, and no finer than [2 ^ -1074] (the subnormals). *)
Definition shift (x : Q) : Z := Z.min (52 - ilog2 (Qabs x)) 1074.

(** The binary64 number nearest to [x], ties to the even significand: what
    an IEEE 754 operation returns for the exact result [x]. *)
Definition binary64 (x : Q) : Q :=
  if Qeq_bool x 0 then 0%Q
  else
    Qred (inject_Z (round_half_even (x * pow2 (shift x))) * pow2 (- shift x)).

(** One step of SQLite's [SUM] over REAL values: the accumulator is a C
    double and each value is added to it in turn. *)
Definition sql_add (acc v : Q) : Q := binary64 (acc + binary64 v).

(** ** The analytical query of [get_complex_sql_metrics] *)

(** A row of the CTE [DailyStats]. *)
Record daily_stat : Type := mkDailyStat {
  g_date : string;
  g_category : string;
  g_country : string;
  daily_count : Z;
  daily_amount : Q
}.

(** A row of [RankedCategories]: the columns of [DailyStats], then the two
    window columns. *)
Record ranking_row : Type := mkRankingRow {
  stat : daily_stat;
  category_rank : Z;
  cumulative_amount : Q
}.

Definition same_group (r : complaint) (g : daily_stat) : bool :=
  (date r =? g_date g) && (category r =? g_category g)
  && (country r =? g_country g).

(** Accumulates one table row into its group: [COUNT( * )] and
    [SUM(amount)], the sum starting from 0.0. *)
Fixpoint add_to_groups (r : complaint) (gs : list daily_stat)
    : list daily_stat :=
  match gs with
  | [] =>
      [mkDailyStat (date r) (category r) (country r) 1
         (sql_add 0 (amount r))]
  | g :: gs' =>
      if same_group r g
      then mkDailyStat (g_date g) (g_category g) (g_country g)
             (daily_count g + 1) (sql_add (daily_amount g) (amount r))
             :: gs'
      else g :: add_to_groups r gs'
  end.

(** The groups of the table, every row added to its group in storage
    order. *)
Definition group_rows (table : list complaint) : list daily_stat :=
  fold_left (fun gs r => add_to_groups r gs) table [].

(** A stable insertion sort, for the sorter behind GROUP BY and the ORDER
    BY of a window: rows that compare equal keep the order in which they
    arrive. *)
Fixpoint insert_by {A : Type} (le : A -> A -> bool) (x : A) (l : list A)
    : list A :=
  match l with
  | [] => [x]
  | y :: l' => if le x y then x :: l else y :: insert_by le x l'
  end.

Fixpoint sort_by {A : Type} (le : A -> A -> bool) (l : list A) : list A :=
  match l with
  | [] => []
  | x :: l' => insert_by le x (sort_by le l')
  end.

(** The order of the grouping key: by date, then category, then country. *)
Definition group_le (g1 g2 : daily_stat) : bool :=
  match String.compare (g_date g1) (g_date g2) with
  | Lt => true
  | Gt => false
  | Eq =>
      match String.compare (g_category g1) (g_category g2) with
      | Lt => true
      | Gt => false
      | Eq => String.leb (g_country g1) (g_country g2)
      end
  end.

(** [GROUP BY date, category, country].  SQLite groups by sorting on the
    key, so the groups come out in ascending key order. *)
Definition DailyStats (table : list complaint) : list daily_stat :=
  sort_by group_le (group_rows table).

(** [SUM(daily_amount) OVER (ORDER BY date ROWS BETWEEN UNBOUNDED PRECEDING
    AND CURRENT ROW)]: one pass over the rows in date order, each row
    receiving the sum so far, itself included. *)
Fixpoint running_sum (acc : Q) (gs : list daily_stat)
    : list (daily_stat * Q) :=
  match gs with
  | [] => []
  | g :: gs' =>
      let acc' := sql_add acc (daily_amount g) in
      (g, acc') :: running_sum acc' gs'
  end.

Definition date_le (g1 g2 : daily_stat) : bool :=
  String.leb (g_date g1) (g_date g2).

Definition with_cumulative (gs : list daily_stat) : list (daily_stat * Q) :=
  running_sum 0 (sort_by date_le gs).

(** [RANK() OVER (PARTITION BY country ORDER BY daily_count DESC)]. *)

Definition count_ge (x y : daily_stat * Q) : bool :=
  (daily_count (fst y) <=? daily_count (fst x))%Z.

(** The walk over one partition in its window order: [pos] rows were seen
    so far and [prev] is the count and rank of the last one.  A row gets
    the rank of its peer when the count repeats, else its own position. *)
Fixpoint rank_rows (pos : Z) (prev : option (Z * Z))
    (rows : list (daily_stat * Q)) : list ranking_row :=
  match rows with
  | [] => []
  | x :: rows' =>
      let rk :=
        match prev with
        | Some (c, k) => if (c =? daily_count (fst x))%Z then k else (pos + 1)%Z
        | None => (pos + 1)%Z
        end in
      mkRankingRow (fst x) rk (snd x)
        :: rank_rows (pos + 1)%Z (Some (daily_count (fst x), rk)) rows'
  end.

Definition in_country (c : string) (x : daily_stat * Q) : bool :=
  g_country (fst x) =? c.

(** The partition keys, each once, in ascending order. *)
Definition partition_keys (rows : list (daily_stat * Q)) : list string :=
  sort_by String.leb
    (nodup string_dec (map (fun x => g_country (fst x)) rows)).

Definition rank_partition (rows : list (daily_stat * Q)) (c : string)
    : list ranking_row :=
  rank_rows 0 None (sort_by count_ge (filter (in_country c) rows)).

Definition with_rank (rows : list (daily_stat * Q)) : list ranking_row :=
  flat_map (rank_partition rows) (partition_keys rows).

(** The CTE [RankedCategories] over [DailyStats]: the running sum is
    evaluated first and the ranking window over its result, so the rows
    come out partition by partition, the countries in ascending order and
    each country's rows by descending count.  Rows that tie in a window's
    ORDER BY keep the order in which they reach it, as they do in
    SQLite. *)
Definition RankedCategories (table : list complaint) : list ranking_row :=
  with_rank (with_cumulative (DailyStats table)).

(** [SELECT * FROM RankedCategories LIMIT 100] *)
Definition complex_sql_metrics (db : database) : option (list ranking_row) :=
  match complaints db with
  | None => None
  | Some table => Some (firstn 100 (RankedCategories table))
  end.

(** ** Connections to the store *)

Inductive event : Type :=
  | Connected (conn : nat)
  | Queried (conn : nat)
  | Closed (conn : nat).

(** The process as the data layer sees it: the connections now open and
    everything that happened, oldest first. *)
Record world : Type := mkWorld {
  next_conn : nat;
  open_conns : list nat;
  history : list event
}.

Inductive outcome (A : Type) : Type :=
  | Returned (a : A)
  | Raised (error : string).

Arguments Returned {A} a.
Arguments Raised {A} error.

Definition io (A : Type) : Type := world -> outcome A * world.

Definition ret {A : Type} (a : A) : io A := fun w => (Returned a, w).

Definition bind {A B : Type} (m : io A) (k : A -> io B) : io B :=
  fun w =>
    match m w with
    | (Returned a, w') => k a w'
    | (Raised e, w') => (Raised e, w')
    end.

Notation "x <- m ;; k" := (bind m (fun x => k))
  (at level 61, m at next level, right associativity).

(** [sqlite3.connect(DB_PATH)]: a new connection, open. *)
Definition sqlite3_connect : io nat :=
  fun w =>
    let conn := next_conn w in
    (Returned conn,
     mkWorld (S conn) (conn :: open_conns w)
       (history w ++ [Connected conn])%list).

(** Runs a statement on a connection; a closed connection or a failing
    statement raises. *)
Definition run_on {A : Type} (conn : nat) (result : option A) : io A :=
  fun w =>
    if existsb (Nat.eqb conn) (open_conns w) then
      let w' := mkWorld (next_conn w) (open_conns w)
                  (history w ++ [Queried conn])%list in
      match result with
      | Some df => (Returned df, w')
      | None => (Raised "DatabaseError", w')
      end
    else (Raised "ProgrammingError", w).

(** [conn.close()] *)
Definition conn_close (conn : nat) : io unit :=
  fun w =>
    (Returned tt,
     mkWorld (next_conn w) (remove Nat.eq_dec conn (open_conns w))
       (history w ++ [Closed conn])%list).

(** [get_filtered_data], lines 17-42. *)
Definition get_filtered_data (db : database) (date_range : string * string)
    (countries channels categories statuses : list string) : io DataFrame :=
  conn <- sqlite3_connect ;;
  let (query, params) :=
    build_query date_range countries channels categories statuses in
  df <- run_on conn (read_sql query params db) ;;
  _ <- conn_close conn ;;
  ret df.

(** [get_complex_sql_metrics], lines 44-78. *)
Definition get_complex_sql_metrics (db : database) : io (list ranking_row) :=
  conn <- sqlite3_connect ;;
  df <- run_on conn (complex_sql_metrics db) ;;
  _ <- conn_close conn ;;
  ret df.

(** A world in which nothing has happened yet. *)
Definition fresh_world : world := mkWorld 0 [] [].

(** ** Number formatting *)

(** Decimal digits of a natural number. *)
Definition digits (n : Z) : string :=
  NilEmpty.string_of_uint (N.to_uint (Z.to_N n)).

(** Inserts the thousands separators into reversed digits. *)
Fixpoint commas (rev_digits : list ascii) : list ascii :=
  match rev_digits with
  | a :: b :: c :: ((_ :: _) as rest) =>
      a :: b :: c :: ","%char :: commas rest
  | l => l
  end.

Definition grouped (s : string) : string :=
  string_of_list_ascii
    (rev (commas (rev (list_ascii_of_string s)))).

(** [format(n, ',')] for an integer. *)
Definition format_int (n : Z) : string :=
  if (n <? 0)%Z then "-" ++ grouped (digits (- n)) else grouped (digits n).

Fixpoint zero_pad (width : nat) (s : string) : string :=
  match (width - String.length s)%nat with
  | O => s
  | S _ =>
      match width with
      | O => s
      | S w => "0" ++ zero_pad w s
      end
  end.

(** [format(x, '.df')] and [format(x, ',.df')]: [d] decimals of the
    correctly rounded value, a sign for a negative one. *)
Definition format_fixed (decimals : nat) (separators : bool) (x : Q)
    : string :=
  let scale := (10 ^ Z.of_nat decimals)%Z in
  let n := round_half_even (Qabs x * inject_Z scale) in
  let int_part := digits (n / scale) in
  let frac_part := zero_pad decimals (digits (n mod scale)) in
  (if Qlt_le_dec x 0 then "-" else "")
  ++ (if separators then grouped int_part else int_part)
  ++ (match decimals with O => "" | S _ => "." ++ frac_part end).

(** ** The KPI cards *)

(** [len(df)] *)
Definition len (df : DataFrame) : Z := Z.of_nat (List.length df).

(** [df[col].sum()] for an integer and for a real column. *)
Definition sum_int (col : complaint -> Z) (df : DataFrame) : Z :=
  fold_left (fun acc r => (acc + col r)%Z) df 0%Z.

Definition sum_real (col : complaint -> Q) (df : DataFrame) : Q :=
  fold_left (fun acc r => (acc + col r)%Q) df 0%Q.

(** Division of numbers: [None] where Python has no number to show (a
    raised [ZeroDivisionError], or numpy's nan). *)
Definition divide (a b : Q) : option Q :=
  if Qeq_bool b 0 then None else Some (a / b)%Q.

(** [df[col].mean()]: the sum of the integers divided by their number, a
    binary64 division.  (The sum itself is exact as long as it stays within
    [2 ^ 53].) *)
Definition mean_int (col : complaint -> Z) (df : DataFrame) : option Q :=
  match divide (inject_Z (sum_int col df)) (inject_Z (len df)) with
  | Some x => Some (binary64 x)
  | None => None
  end.

(** The [rate] of line 202, as the exact quotient. *)
Definition rate (df : DataFrame) : option Q :=
  match divide (inject_Z (sum_int is_escalated df)) (inject_Z (len df)) with
  | Some x => Some (x * 100)%Q
  | None => None
  end.

(** The cards give the text of their [ui.span]; [None] when there is no
    number to render. *)

Definition total_complaints (df : DataFrame) : option string :=
  Some (format_int (len df)).

Definition escalation_rate (df : DataFrame) : option string :=
  if (len df =? 0)%Z then Some "0.0%"
  else match rate df with
       | Some x => Some (format_fixed 1 false x ++ "%")
       | None => None
       end.

Definition avg_sla (df : DataFrame) : option string :=
  if (len df =? 0)%Z then Some "0.0"
  else match mean_int sla_hours df with
       | Some x => Some (format_fixed 1 false x)
       | None => None
       end.

Definition total_amount (df : DataFrame) : option string :=
  if (len df =? 0)%Z then Some "$0"
  else Some ("$" ++ format_fixed 0 true (sum_real amount df)).

(** ** The meaning of a Filter Selection *)

(** An empty set of values leaves the dimension unrestricted; any other
    set allows exactly its members. *)
Definition allows (values : list string) (v : string) : bool :=
  match values with
  | [] => true
  | _ :: _ => existsb (String.eqb v) values
  end.

(** The date range is inclusive on both ends. *)
Definition in_range (date_range : string * string) (d : string) : bool :=
  String.leb (fst date_range) d && String.leb d (snd date_range).

(** A row qualifies when every check passes. *)
Definition selected (date_range : string * string)
    (countries channels categories statuses : list string)
    (r : complaint) : bool :=
  in_range date_range (date r)
  && allows countries (country r)
  && allows channels (channel r)
  && allows categories (category r)
  && allows statuses (status r).

(** The text of a sequence of IN clauses, each given by its column and the
    number of its placeholders. *)
Definition clause_text (c : string * nat) : string :=
  " AND " ++ fst c ++ " IN (" ++ placeholders (snd c) ++ ")".

Fixpoint clauses_text (cl : list (string * nat)) : string :=
  match cl with
  | [] => EmptyString
  | c :: cl' => clause_text c ++ clauses_text cl'
  end.

(** The clause a dimension contributes: none for the empty set. *)
Definition active (col : string) (values : list string)
    : list (string * nat) :=
  if truthy values then [(col, List.length values)] else [].

(** The text of a selection with the given set sizes: nothing in it comes
    from a value. *)
Definition query_shape (n_countries n_channels n_categories n_statuses : nat)
    : string :=
  let clause col n :=
    match n with
    | O => EmptyString
    | S _ => clause_text (col, n)
    end in
  base_query ++ clause "country" n_countries ++ clause "channel" n_channels
  ++ clause "category" n_categories ++ clause "status" n_statuses.

Definition bound (get : complaint -> string) (values : list string)
    : list bound_cond :=
  if truthy values then [BIn get values] else [].

(** The conditions of a selection, each placeholder with the value it
    stands for. *)
Definition bound_conds (date_range : string * string)
    (countries channels categories statuses : list string)
    : list bound_cond :=
  BBetween date (fst date_range) (snd date_range)
  :: (bound country countries ++ bound channel channels
      ++ bound category categories ++ bound status statuses)%list.

(** A column name: no blank in it. *)
Definition is_word (s : string) : bool :=
  forallb (fun a => negb (Ascii.eqb a " ")) (list_ascii_of_string s).

(** Occurrences of a character in a text. *)
Fixpoint occurrences (a : ascii) (s : string) : nat :=
  match s with
  | EmptyString => O
  | String b s' => ((if Ascii.eqb a b then 1 else 0) + occurrences a s')%nat
  end.

(** A clause the builder can emit: a column name and at least one
    placeholder. *)
Definition well_formed_clause (c : string * nat) : Prop :=
  is_word (fst c) = true /\ (1 <= snd c)%nat.

(** ** Scoped use of a connection *)







(** ** Counting for RANK *)

(** The Stage-1 rows of a country whose count is larger than [n], and those
    whose count is [n]. *)
Definition count_above (c : string) (n : Z) (gs : list daily_stat) : Z :=
  Z.of_nat
    (List.length
       (filter (fun g => (g_country g =? c) && (n <? daily_count g)%Z) gs)).

Definition count_tied (c : string) (n : Z) (gs : list daily_stat) : Z :=
  Z.of_nat
    (List.length
       (filter (fun g => (g_country g =? c) && (daily_count g =? n)%Z) gs)).

(** The rows of one partition whose count is larger than [n]. *)
Definition above (n : Z) (rows : list (daily_stat * Q)) : Z :=
  Z.of_nat
    (List.length (filter (fun x => (n <? daily_count (fst x))%Z) rows)).

(** The state of the ranking walk agrees with the rows [seen] so far and
    with the rows still to come. *)
Definition walk_ok (seen rows : list (daily_stat * Q))
    (prev : option (Z * Z)) : Prop :=
  match prev with
  | None => seen = []
  | Some (c, k) =>
      Forall (fun d => (c <= daily_count (fst d))%Z) seen
      /\ Forall (fun x => (daily_count (fst x) <= c)%Z) rows
      /\ k = (1 + above c seen)%Z
  end.

(** [SUM] over a list of REAL values, taken in order. *)
Definition sql_sum (amounts : list Q) : Q := fold_left sql_add amounts 0%Q.

(** The order in which Stage 2 comes out: by country, and within a country
    by descending count. *)
Definition result_order (r1 r2 : ranking_row) : Prop :=
  String.ltb (g_country (stat r1)) (g_country (stat r2)) = true
  \/ (g_country (stat r1) = g_country (stat r2)
      /\ (daily_count (stat r2) <= daily_count (stat r1))%Z).

(** A Stage-2 row without its rank: what the running-sum window made. *)
Definition unranked (r : ranking_row) : daily_stat * Q :=
  (stat r, cumulative_amount r).

(** ** The server: filter choices and the reactive frame *)

(** [Series.unique()] and [SELECT DISTINCT]: each value once, where it first
    appears. *)
Fixpoint unique {A : Type} (eqb : A -> A -> bool) (l : list A) : list A :=
  match l with
  | [] => []
  | x :: l' => x :: filter (fun y => negb (eqb y x)) (unique eqb l')
  end.

(** A row of [SELECT DISTINCT country, channel, category, status]. *)
Record dimension_row : Type := mkDimensionRow {
  d_country : string;
  d_channel : string;
  d_category : string;
  d_status : string
}.

Definition dimension_row_eqb (a b : dimension_row) : bool :=
  (d_country a =? d_country b) && (d_channel a =? d_channel b)
  && (d_category a =? d_category b) && (d_status a =? d_status b).

Definition dimensions_of (r : complaint) : dimension_row :=
  mkDimensionRow (country r) (channel r) (category r) (status r).

(** [SELECT DISTINCT country, channel, category, status FROM complaints] *)
Definition select_distinct_dimensions (db : database)
    : option (list dimension_row) :=
  match complaints db with
  | None => None
  | Some table => Some (unique dimension_row_eqb (map dimensions_of table))
  end.

(** Python's [sorted] on strings. *)
Definition sorted (l : list string) : list string := sort_by String.leb l.

(** The choices handed to the four [ui.update_selectize] calls. *)
Record filter_choices : Type := mkFilterChoices {
  country_choices : list string;
  channel_choices : list string;
  category_choices : list string;
  status_choices : list string
}.

(** The effect that initialises the filter choices, lines 171-180. *)
Definition init_filter_choices (db : database) : io filter_choices :=
  conn <- sqlite3_connect ;;
  df <- run_on conn (select_distinct_dimensions db) ;;
  _ <- conn_close conn ;;
  ret (mkFilterChoices
         (sorted (unique String.eqb (map d_country df)))
         (sorted (unique String.eqb (map d_channel df)))
         (sorted (unique String.eqb (map d_category df)))
         (sorted (unique String.eqb (map d_status df)))).

(** The values of the five filter inputs. *)
Record inputs : Type := mkInputs {
  input_date_range : string * string;
  input_country : list string;
  input_channel : list string;
  input_category : list string;
  input_status : list string
}.

(** The reactive calc [filtered_df], lines 183-191. *)
Definition filtered_df (db : database) (input : inputs) : io DataFrame :=
  get_filtered_data db (input_date_range input) (input_country input)
    (input_channel input) (input_category input) (input_status input).

(** The inputs as the page first shows them: the date range of
    [ui.input_date_range] (line 92) and nothing selected. *)
Definition initial_inputs : inputs :=
  mkInputs ("2025-01-01", "2025-12-31") [] [] [] [].

(** Every open connection was handed out by an earlier connect. *)
Definition wf_world (w : world) : Prop :=
  Forall (fun c => (c < next_conn w)%nat) (open_conns w).

(** One set of values restricts no more than another. *)
Definition loosens (values values' : list string) : Prop :=
  values' = [] \/ (values <> [] /\ incl values values').

(** What a connect-run-close call does to the open connections: a call that
    returns leaves them as it found them, a call that raises leaves the one
    it opened. *)
Definition leaves {A : Type} (w : world) (run : outcome A * world) : Prop :=
  wf_world (snd run)
  /\ next_conn (snd run) = S (next_conn w)
  /\ match fst run with
     | Returned _ => open_conns (snd run) = open_conns w
     | Raised _ => open_conns (snd run) = next_conn w :: open_conns w
     end.

(** Strictly ascending in byte order: sorted, and no value twice. *)
Definition strictly_ascending (l : list string) : Prop :=
  StronglySorted (fun a b => String.ltb a b = true) l.

(** ** Reading a card back *)



(** ** The charts *)

(** What a chart function hands to the page: a note that there is nothing
    to show, or a figure, given here by the table it is drawn from. *)
Inductive widget (Row : Type) : Type :=
  | NoData (message : string)
  | Figure (data : list Row).

Arguments NoData {Row} message.
Arguments Figure {Row} data.

(** [df.empty] *)
Definition empty (df : DataFrame) : bool :=
  match df with
  | [] => true
  | _ :: _ => false
  end.

(** Counts one more row under key [k] in a table kept in ascending key
    order. *)
Fixpoint tally {K : Type} (cmp : K -> K -> comparison) (k : K)
    (l : list (K * Z)) : list (K * Z) :=
  match l with
  | [] => [(k, 1%Z)]
  | (k', n) :: l' =>
      match cmp k k' with
      | Eq => (k', (n + 1)%Z) :: l'
      | Lt => (k, 1%Z) :: l
      | Gt => (k', n) :: tally cmp k l'
      end
  end.

(** [groupby(key).size().reset_index(name='count')]: one row per key that
    occurs, in ascending key order, with the number of its rows. *)
Definition group_size {K : Type} (cmp : K -> K -> comparison)
    (keys : list K) : list (K * Z) :=
  fold_right (tally cmp) [] keys.

(** The order of a two-column key: by the first column, then the second. *)
Definition compare_pair (a b : string * string) : comparison :=
  match String.compare (fst a) (fst b) with
  | Eq => String.compare (snd a) (snd b)
  | c => c
  end.

Definition count_le {K : Type} (a b : K * Z) : bool := (snd a <=? snd b)%Z.

Definition count_ge_of {K : Type} (a b : K * Z) : bool :=
  (snd b <=? snd a)%Z.

(** [category_bar_plot], lines 273-282: the categories by ascending
    count.  ([sort_values] leaves the order of equal counts open; here they
    keep their key order.) *)
Definition category_bar_plot (df : DataFrame) : widget (string * Z) :=
  if empty df then NoData "No data available."
  else Figure (sort_by count_le (group_size String.compare (map category df))).

(** [country_rank_plot], lines 289-297: the countries by descending
    count. *)
Definition country_rank_plot (df : DataFrame) : widget (string * Z) :=
  if empty df then NoData "No data."
  else Figure
         (sort_by count_ge_of (group_size String.compare (map country df))).

(** [channel_bar_plot], lines 299-307: the (channel, status) pairs. *)
Definition channel_bar_plot (df : DataFrame)
    : widget ((string * string) * Z) :=
  if empty df then NoData "No data."
  else Figure
         (group_size compare_pair (map (fun r => (channel r, status r)) df)).

(** The number of elements of [keys] equal to [k]. *)
Definition count_key {K : Type} (cmp : K -> K -> comparison) (k : K)
    (keys : list K) : Z :=
  Z.of_nat
    (List.length
       (filter (fun k' => match cmp k' k with Eq => true | _ => false end)
          keys)).

(** The count a table holds for key [k], 0 when it has none. *)
Fixpoint size_of {K : Type} (cmp : K -> K -> comparison) (k : K)
    (l : list (K * Z)) : Z :=
  match l with
  | [] => 0%Z
  | (k', n) :: l' =>
      match cmp k k' with
      | Eq => n
      | _ => size_of cmp k l'
      end
  end.

Definition sum_counts {K : Type} (l : list (K * Z)) : Z :=
  fold_right (fun p acc => (snd p + acc)%Z) 0%Z l.

(** The number of rows of a frame whose column [col] holds [v]. *)
Definition rows_with (col : complaint -> string) (v : string)
    (df : DataFrame) : Z :=
  Z.of_nat (List.length (filter (fun r => col r =? v) df)).

(** The number of rows of a frame with the given channel and status. *)
Definition rows_with_pair (ch st : string) (df : DataFrame) : Z :=
  Z.of_nat
    (List.length
       (filter (fun r => (channel r =? ch) && (status r =? st)) df)).

(** ** Stage 1, read as a table of groups *)

(** The grouping key of a table row and of a Stage-1 row. *)
Definition key_of_row (r : complaint) : string * string * string :=
  (date r, category r, country r).

Definition key_of_stat (g : daily_stat) : string * string * string :=
  (g_date g, g_category g, g_country g).

(** The table rows a Stage-1 row stands for. *)
Definition rows_of_group (g : daily_stat) (table : list complaint)
    : list complaint :=
  filter (fun r => same_group r g) table.

Definition total_count (gs : list daily_stat) : Z :=
  fold_right (fun g acc => (daily_count g + acc)%Z) 0%Z gs.

(** The Stage-1 rows of a country. *)
Definition stats_of_country (c : string) (gs : list daily_stat)
    : list daily_stat :=
  filter (fun g => g_country g =? c) gs.

(** A group agrees with the table rows [done] gathered so far. *)
Definition group_ok (done : list complaint) (g : daily_stat) : Prop :=
  daily_count g = len (rows_of_group g done)
  /\ (1 <= daily_count g)%Z
  /\ daily_amount g = sql_sum (map amount (rows_of_group g done)).

(** The groups of a table: one for each key that occurs and no key twice,
    each with the count and the amount of its rows. *)
Definition groups_ok (done : list complaint) (gs : list daily_stat) : Prop :=
  NoDup (map key_of_stat gs)
  /\ Forall (group_ok done) gs
  /\ forall r, In r done -> In (key_of_row r) (map key_of_stat gs).

(** ** The data generator, [data_gen.py] *)

(** The configuration lists of lines 11-14. *)
Definition gen_countries : list string :=
  ["USA"; "UK"; "Canada"; "Germany"; "France"; "Brazil"; "Japan"].

Definition gen_channels : list string :=
  ["Email"; "Phone"; "Chat"; "Social Media"; "Web Form"].

Definition gen_categories : list string :=
  ["Billing"; "Technical Support"; "Product Quality"; "Shipping";
   "Account Access"].

Definition gen_statuses : list string :=
  ["Open"; "Closed"; "In Progress"; "Escalated"; "Resolved"].

(** What numpy's generator hands out for one row: the day offset, an index
    into each configuration list, the hours, the rounded amount, the
    customer number and an index into [[0, 1]].  The seeded generator is
    not modelled; a run is any sequence of draws numpy can make. *)
Record draw : Type := mkDraw {
  draw_day : Z;
  draw_country : nat;
  draw_channel : nat;
  draw_category : nat;
  draw_status : nat;
  draw_sla : Z;
  draw_amount : Q;
  draw_customer : Z;
  draw_escalated : nat
}.

(** The ranges of the calls on lines 20-28: [randint(lo, hi)] excludes
    [hi], [choice] picks an element of its list, [uniform(10, 500)] rounded
    to two places stays within its bounds. *)
Definition valid_draw (d : draw) : Prop :=
  (0 <= draw_day d < 365)%Z
  /\ (draw_country d < List.length gen_countries)%nat
  /\ (draw_channel d < List.length gen_channels)%nat
  /\ (draw_category d < List.length gen_categories)%nat
  /\ (draw_status d < List.length gen_statuses)%nat
  /\ (12 <= draw_sla d < 120)%Z
  /\ (10 <= draw_amount d <= 500)%Q
  /\ (1000 <= draw_customer d < 9999)%Z
  /\ (draw_escalated d < 2)%nat.

(** The lengths of the months of 2025. *)
Definition months_2025 : list nat :=
  [31; 28; 31; 30; 31; 30; 31; 31; 30; 31; 30; 31]%nat.

(** The month and the day of the month [k] days after the first of the
    month numbered [month]. *)
Fixpoint month_and_day (k : nat) (lengths : list nat) (month : nat)
    : option (nat * nat) :=
  match lengths with
  | [] => None
  | days :: rest =>
      if (k <? days)%nat then Some (month, S k)
      else month_and_day (k - days) rest (S month)
  end.

(** [strftime('%Y-%m-%d')] *)
Definition strftime_ymd (y m d : Z) : string :=
  zero_pad 4 (digits y) ++ "-" ++ zero_pad 2 (digits m) ++ "-"
  ++ zero_pad 2 (digits d).

(** [(datetime(2025, 1, 1) + timedelta(days=k)).strftime('%Y-%m-%d')],
    for the offsets that stay within 2025. *)
Definition date_after (k : Z) : option string :=
  if (k <? 0)%Z then None
  else
    match month_and_day (Z.to_nat k) months_2025 1 with
    | Some (m, d) => Some (strftime_ymd 2025 (Z.of_nat m) (Z.of_nat d))
    | None => None
    end.

(** The row with id [id] made from one set of draws; [None] for draws
    outside what the generator's calls can return. *)
Definition generate_row (id : Z) (d : draw) : option complaint :=
  match date_after (draw_day d),
        nth_error gen_countries (draw_country d),
        nth_error gen_channels (draw_channel d),
        nth_error gen_categories (draw_category d),
        nth_error gen_statuses (draw_status d),
        nth_error [0%Z; 1%Z] (draw_escalated d) with
  | Some day, Some co, Some ch, Some ca, Some st, Some esc =>
      Some (mkComplaint id day co ch ca st (draw_sla d) (draw_amount d)
              ("CUST-" ++ digits (draw_customer d)) esc)
  | _, _, _, _, _, _ => None
  end.

Fixpoint all_some {A : Type} (l : list (option A)) : option (list A) :=
  match l with
  | [] => Some []
  | None :: _ => None
  | Some a :: l' =>
      match all_some l' with
      | Some rest => Some (a :: rest)
      | None => None
      end
  end.

(** [generate_data(n)], lines 7-42, given the draws of row 0, 1, ...: the
    old file is removed and table [complaints] written with the [n] rows,
    ids 1 to [n].  With no row at all the date column of the frame is not
    a datetime column, so line 32 raises before anything is written:
    there is no database then. *)
Definition generate_data (n : nat) (source : nat -> draw)
    : option database :=
  match n with
  | O => None
  | S _ =>
      match all_some
              (map (fun i => generate_row (Z.of_nat (S i)) (source i))
                 (seq 0 n)) with
      | Some rows => Some (mkDatabase (Some rows))
      | None => None
      end
  end.

(** What every generated row satisfies. *)
Definition generated_row_ok (r : complaint) : Prop :=
  String.leb "2025-01-01" (date r) = true
  /\ String.leb (date r) "2025-12-31" = true
  /\ In (country r) gen_countries
  /\ In (channel r) gen_channels
  /\ In (category r) gen_categories
  /\ In (status r) gen_statuses
  /\ (12 <= sla_hours r <= 119)%Z
  /\ (10 <= amount r <= 500)%Q
  /\ (is_escalated r = 0%Z \/ is_escalated r = 1%Z).

(** The offsets of a year's days whose dates fall outside the page's
    default date range; there are none. *)
Definition date_in_default_range (i : nat) : bool :=
  match date_after (Z.of_nat i) with
  | Some s => String.leb "2025-01-01" s && String.leb s "2025-12-31"
  | None => false
  end.

(** * Properties *)

(** * Binary64 rounding *)

(** ** Powers of two *)

Lemma two_nonzero : ~ (2 == 0)%Q.
Proof. discriminate. Qed.

Lemma pow2_pos (z : Z) : (0 < pow2 z)%Q.
Proof. apply Qpower_0_lt. reflexivity. Qed.

Lemma pow2_plus (a b : Z) : (pow2 (a + b) == pow2 a * pow2 b)%Q.
Proof. apply Qpower_plus, two_nonzero. Qed.

Lemma pow2_le (a b : Z) : (a <= b)%Z -> (pow2 a <= pow2 b)%Q.
Proof. intros H. apply Qpower_le_compat_l; [exact H | discriminate]. Qed.

Lemma pow2_lt (a b : Z) : (a < b)%Z -> (pow2 a < pow2 b)%Q.
Proof. intros H. apply Qpower_lt_compat_l; [exact H | reflexivity]. Qed.

Lemma pow2_lt_inv (a b : Z) : (pow2 a < pow2 b)%Q -> (a < b)%Z.
Proof. intros H. apply (Qpower_lt_compat_l_inv 2); [exact H | reflexivity]. Qed.

Lemma pow2_Z (k : Z) : (0 <= k)%Z -> (pow2 k == inject_Z (2 ^ k))%Q.
Proof. intros H. unfold pow2. now rewrite (Zpower_Qpower 2 k H). Qed.

Lemma pow2_cancel (a : Z) : (pow2 a * pow2 (- a) == 1)%Q.
Proof. rewrite <- pow2_plus, Z.add_opp_diag_r. reflexivity. Qed.

(** ** The exponent of a number *)

Lemma ilog2_spec (x : Q) :
  (0 < x)%Q -> (pow2 (ilog2 x) <= x)%Q /\ (x < pow2 (ilog2 x + 1))%Q.
Proof.
  intros Hx. destruct x as [n d].
  assert (Hn : (0 < n)%Z).
  { unfold Qlt in Hx. cbn in Hx. lia. }
  unfold ilog2. cbn [Qnum Qden].
  set (a := Z.log2 n). set (b := Z.log2 (Z.pos d)).
  assert (Ha : (0 <= a)%Z) by apply Z.log2_nonneg.
  assert (Hb : (0 <= b)%Z) by apply Z.log2_nonneg.
  destruct (Z.log2_spec n Hn) as [Hn1 Hn2]. fold a in Hn1, Hn2.
  destruct (Z.log2_spec (Z.pos d) eq_refl) as [Hd1 Hd2]. fold b in Hd1, Hd2.
  assert (HD : (0 < inject_Z (Z.pos d))%Q) by reflexivity.
  assert (Hnd : (n # d) * inject_Z (Z.pos d) == inject_Z n).
  { unfold Qeq, Qmult, inject_Z. cbn. lia. }
  assert (Hlo : (pow2 (a - b - 1) <= n # d)%Q).
  { apply (Qmult_le_r _ _ _ HD). rewrite Hnd.
    apply Qle_trans with (pow2 (a - b - 1) * pow2 (b + 1))%Q.
    - apply Qmult_le_l; [apply pow2_pos|].
      rewrite pow2_Z by lia. rewrite <- Zle_Qle.
      unfold Z.succ in Hd2. lia.
    - rewrite <- pow2_plus.
      replace (a - b - 1 + (b + 1))%Z with a by lia.
      rewrite pow2_Z by lia. now rewrite <- Zle_Qle. }
  assert (Hhi : (n # d < pow2 (a - b + 1))%Q).
  { apply (Qmult_lt_r _ _ _ HD). rewrite Hnd.
    apply Qlt_le_trans with (pow2 (a - b + 1) * pow2 b)%Q.
    - rewrite <- pow2_plus.
      replace (a - b + 1 + b)%Z with (a + 1)%Z by lia.
      rewrite pow2_Z by lia. rewrite <- Zlt_Qlt.
      unfold Z.succ in Hn2. lia.
    - apply Qmult_le_l; [apply pow2_pos|].
      rewrite pow2_Z by lia. now rewrite <- Zle_Qle. }
  destruct (Qle_bool (pow2 (a - b)) (n # d)) eqn:Hle.
  - apply Qle_bool_iff in Hle. split; [exact Hle | exact Hhi].
  - split; [exact Hlo|].
    replace (a - b - 1 + 1)%Z with (a - b)%Z by lia.
    apply Qnot_le_lt. intros H. apply Qle_bool_iff in H. congruence.
Qed.

Lemma ilog2_unique (x : Q) (e : Z) :
  (pow2 e <= x)%Q -> (x < pow2 (e + 1))%Q -> ilog2 x = e.
Proof.
  intros Hlo Hhi.
  assert (Hx : (0 < x)%Q).
  { eapply Qlt_le_trans; [apply (pow2_pos e) | exact Hlo]. }
  destruct (ilog2_spec x Hx) as [Hlo' Hhi'].
  assert (H1 : (ilog2 x < e + 1)%Z).
  { apply pow2_lt_inv. eapply Qle_lt_trans; [exact Hlo' | exact Hhi]. }
  assert (H2 : (e < ilog2 x + 1)%Z).
  { apply pow2_lt_inv. eapply Qle_lt_trans; [exact Hlo | exact Hhi']. }
  lia.
Qed.

Lemma ilog2_comp (x y : Q) : (0 < x)%Q -> (x == y)%Q -> ilog2 x = ilog2 y.
Proof.
  intros Hx Hxy. destruct (ilog2_spec x Hx) as [Hlo Hhi].
  symmetry. apply ilog2_unique; now rewrite <- Hxy.
Qed.

Lemma ilog2_mono (x y : Q) :
  (0 < x)%Q -> (x <= y)%Q -> (ilog2 x <= ilog2 y)%Z.
Proof.
  intros Hx Hxy.
  assert (Hy : (0 < y)%Q) by (eapply Qlt_le_trans; eassumption).
  destruct (ilog2_spec x Hx) as [Hlo _].
  destruct (ilog2_spec y Hy) as [_ Hhi].
  assert (H : (ilog2 x < ilog2 y + 1)%Z).
  { apply pow2_lt_inv. eapply Qle_lt_trans; [exact Hlo|].
    eapply Qle_lt_trans; [exact Hxy | exact Hhi]. }
  lia.
Qed.

Lemma ilog2_pow2 (k : Z) : ilog2 (pow2 k) = k.
Proof. apply ilog2_unique; [apply Qle_refl | apply pow2_lt; lia]. Qed.

(** ** Rounding to an integer *)

Lemma round_half_even_comp (x y : Q) :
  (x == y)%Q -> round_half_even x = round_half_even y.
Proof.
  intros Hxy. unfold round_half_even.
  rewrite (Qfloor_comp _ _ Hxy).
  assert (Hd : (x - inject_Z (Qfloor y) == y - inject_Z (Qfloor y))%Q)
    by now rewrite Hxy.
  now rewrite (Qcompare_comp _ _ Hd (1 # 2) (1 # 2) (Qeq_refl _)).
Qed.

Lemma round_half_even_Z (m : Z) : round_half_even (inject_Z m) = m.
Proof.
  unfold round_half_even. rewrite Qfloor_Z.
  assert (H : (inject_Z m - inject_Z m ?= 1 # 2)%Q = Lt).
  { apply Qlt_alt.
    setoid_replace (inject_Z m - inject_Z m)%Q with 0%Q by ring. reflexivity. }
  now rewrite H.
Qed.

Lemma round_half_even_floor (x : Q) :
  (Qfloor x <= round_half_even x <= Qfloor x + 1)%Z.
Proof.
  unfold round_half_even.
  destruct (x - inject_Z (Qfloor x) ?= 1 # 2)%Q; [|lia|lia].
  destruct (Z.even (Qfloor x)); lia.
Qed.

Lemma round_half_even_mono (x y : Q) :
  (x <= y)%Q -> (round_half_even x <= round_half_even y)%Z.
Proof.
  intros Hxy. pose proof (Qfloor_resp_le x y Hxy) as Hf.
  pose proof (round_half_even_floor x) as Hx.
  pose proof (round_half_even_floor y) as Hy.
  destruct (Z.eq_dec (Qfloor x) (Qfloor y)) as [Heq|Hne]; [|lia].
  unfold round_half_even. rewrite Heq.
  assert (Hd : (x - inject_Z (Qfloor y) <= y - inject_Z (Qfloor y))%Q).
  { apply Qplus_le_l. exact Hxy. }
  destruct (x - inject_Z (Qfloor y) ?= 1 # 2)%Q eqn:Hcx;
    destruct (y - inject_Z (Qfloor y) ?= 1 # 2)%Q eqn:Hcy;
    try lia; try (destruct (Z.even (Qfloor y)); lia); exfalso.
  - apply Qeq_alt in Hcx. apply Qlt_alt in Hcy. rewrite Hcx in Hd.
    exact (Qlt_not_le _ _ Hcy Hd).
  - apply Qgt_alt in Hcx. apply Qeq_alt in Hcy. rewrite Hcy in Hd.
    exact (Qlt_not_le _ _ Hcx Hd).
  - apply Qgt_alt in Hcx. apply Qlt_alt in Hcy.
    apply (Qlt_irrefl (1 # 2)).
    eapply Qlt_le_trans; [exact Hcx|].
    eapply Qle_trans; [exact Hd | now apply Qlt_le_weak].
Qed.

Lemma round_half_even_ge (x : Q) (m : Z) :
  (inject_Z m <= x)%Q -> (m <= round_half_even x)%Z.
Proof.
  intros H. rewrite <- (round_half_even_Z m). now apply round_half_even_mono.
Qed.

Lemma round_half_even_le (x : Q) (m : Z) :
  (x <= inject_Z m)%Q -> (round_half_even x <= m)%Z.
Proof.
  intros H. rewrite <- (round_half_even_Z m). now apply round_half_even_mono.
Qed.

(** ** Rounding to binary64 *)

Lemma Qabs_pos_eq (x : Q) : (0 < x)%Q -> Qabs x = x.
Proof.
  destruct x as [n d]. unfold Qlt. cbn [Qnum Qden]. intros H.
  unfold Qabs. f_equal. lia.
Qed.

Lemma shift_pos (x : Q) :
  (0 < x)%Q -> shift x = Z.min (52 - ilog2 x) 1074.
Proof. intros H. unfold shift. now rewrite (Qabs_pos_eq x H). Qed.

Lemma binary64_eq0 (x : Q) : (x == 0)%Q -> binary64 x = 0%Q.
Proof.
  intros H. unfold binary64. apply Qeq_bool_iff in H. now rewrite H.
Qed.

Lemma binary64_pos (x : Q) :
  (0 < x)%Q ->
  (binary64 x
   == inject_Z (round_half_even (x * pow2 (shift x))) * pow2 (- shift x))%Q.
Proof.
  intros H. unfold binary64. destruct (Qeq_bool x 0) eqn:Hz.
  - apply Qeq_bool_iff in Hz. rewrite Hz in H.
    now elim (Qlt_irrefl 0).
  - apply Qred_correct.
Qed.

Lemma binary64_comp (x y : Q) :
  (0 <= x)%Q -> (x == y)%Q -> binary64 x = binary64 y.
Proof.
  intros Hx Hxy.
  destruct (Qeq_bool x 0) eqn:Hz.
  - apply Qeq_bool_iff in Hz.
    rewrite (binary64_eq0 x Hz). symmetry. apply binary64_eq0.
    now rewrite <- Hxy.
  - assert (Hz' : Qeq_bool y 0 = false).
    { destruct (Qeq_bool y 0) eqn:Hy; [|reflexivity].
      apply Qeq_bool_iff in Hy. rewrite <- Hxy in Hy.
      apply Qeq_bool_iff in Hy. congruence. }
    assert (Hpos : (0 < x)%Q).
    { apply Qle_lt_or_eq in Hx. destruct Hx as [Hx|Hx]; [exact Hx|].
      symmetry in Hx. apply Qeq_bool_iff in Hx. congruence. }
    assert (Hposy : (0 < y)%Q) by now rewrite <- Hxy.
    unfold binary64. rewrite Hz, Hz'.
    rewrite (shift_pos x Hpos), (shift_pos y Hposy).
    rewrite (ilog2_comp x y Hpos Hxy).
    apply Qred_complete.
    rewrite (round_half_even_comp (x * pow2 (Z.min (52 - ilog2 y) 1074))
               (y * pow2 (Z.min (52 - ilog2 y) 1074))); [reflexivity|].
    now rewrite Hxy.
Qed.

(** A value rounded on the grid of spacing [2 ^ -s] stays on the side of a
    grid point it was on. *)
Lemma grid_above (x : Q) (s k : Z) :
  (0 <= k + s)%Z -> (pow2 k <= x)%Q ->
  (pow2 k <= inject_Z (round_half_even (x * pow2 s)) * pow2 (- s))%Q.
Proof.
  intros Hks Hx.
  assert (Hm : (2 ^ (k + s) <= round_half_even (x * pow2 s))%Z).
  { apply round_half_even_ge. rewrite <- pow2_Z by exact Hks.
    rewrite pow2_plus. apply Qmult_le_compat_r; [exact Hx|].
    apply Qlt_le_weak, pow2_pos. }
  apply Qle_trans with (inject_Z (2 ^ (k + s)) * pow2 (- s))%Q.
  - rewrite <- pow2_Z by exact Hks. rewrite <- pow2_plus.
    replace (k + s + - s)%Z with k by lia. apply Qle_refl.
  - apply Qmult_le_compat_r; [|apply Qlt_le_weak, pow2_pos].
    now rewrite <- Zle_Qle.
Qed.

Lemma grid_below (x : Q) (s k : Z) :
  (0 <= k + s)%Z -> (x <= pow2 k)%Q ->
  (inject_Z (round_half_even (x * pow2 s)) * pow2 (- s) <= pow2 k)%Q.
Proof.
  intros Hks Hx.
  assert (Hm : (round_half_even (x * pow2 s) <= 2 ^ (k + s))%Z).
  { apply round_half_even_le. rewrite <- pow2_Z by exact Hks.
    rewrite pow2_plus. apply Qmult_le_compat_r; [exact Hx|].
    apply Qlt_le_weak, pow2_pos. }
  apply Qle_trans with (inject_Z (2 ^ (k + s)) * pow2 (- s))%Q.
  - apply Qmult_le_compat_r; [|apply Qlt_le_weak, pow2_pos].
    now rewrite <- Zle_Qle.
  - rewrite <- pow2_Z by exact Hks. rewrite <- pow2_plus.
    replace (k + s + - s)%Z with k by lia. apply Qle_refl.
Qed.

(** A normal or subnormal value stays within its binade. *)
Lemma binary64_binade (x : Q) :
  (0 < x)%Q -> (-1074 <= ilog2 x)%Z ->
  (pow2 (ilog2 x) <= binary64 x)%Q /\ (binary64 x <= pow2 (ilog2 x + 1))%Q.
Proof.
  intros Hx He. destruct (ilog2_spec x Hx) as [Hlo Hhi].
  rewrite (binary64_pos x Hx), (shift_pos x Hx). split.
  - apply grid_above; [lia | exact Hlo].
  - apply grid_below; [lia | now apply Qlt_le_weak].
Qed.

(** Below the smallest subnormal the result is zero or that subnormal. *)
Lemma binary64_tiny (x : Q) :
  (0 < x)%Q -> (ilog2 x < -1074)%Z ->
  (binary64 x == 0)%Q \/ (binary64 x == pow2 (-1074))%Q.
Proof.
  intros Hx He. destruct (ilog2_spec x Hx) as [_ Hhi].
  rewrite (binary64_pos x Hx), (shift_pos x Hx).
  replace (Z.min (52 - ilog2 x) 1074) with 1074%Z by lia.
  set (m := round_half_even (x * pow2 1074)).
  assert (H0 : (0 <= m)%Z).
  { apply round_half_even_ge. apply Qmult_le_0_compat.
    - now apply Qlt_le_weak.
    - apply Qlt_le_weak, pow2_pos. }
  assert (H1 : (m <= 1)%Z).
  { apply round_half_even_le.
    apply Qle_trans with (pow2 (-1074) * pow2 1074)%Q.
    - apply Qmult_le_compat_r; [|apply Qlt_le_weak, pow2_pos].
      apply Qlt_le_weak. eapply Qlt_le_trans; [exact Hhi|].
      apply pow2_le. lia.
    - rewrite <- pow2_plus. apply Qle_refl. }
  assert (Hm : m = 0%Z \/ m = 1%Z) by lia.
  destruct Hm as [-> | ->]; [left | right].
  - apply Qmult_0_l.
  - apply Qmult_1_l.
Qed.

(** A value on its own grid is not moved. *)
Lemma binary64_on_grid (x : Q) (m : Z) :
  (0 < x)%Q -> (x * pow2 (shift x) == inject_Z m)%Q -> (binary64 x == x)%Q.
Proof.
  intros Hx Hm. rewrite (binary64_pos x Hx).
  rewrite (round_half_even_comp _ _ Hm), round_half_even_Z, <- Hm.
  rewrite <- Qmult_assoc, pow2_cancel. apply Qmult_1_r.
Qed.

Lemma binary64_pow2 (k : Z) :
  (-1074 <= k)%Z -> (binary64 (pow2 k) == pow2 k)%Q.
Proof.
  intros Hk.
  apply (binary64_on_grid _ (2 ^ (k + Z.min (52 - k) 1074))).
  - apply pow2_pos.
  - rewrite (shift_pos _ (pow2_pos k)), ilog2_pow2.
    rewrite <- pow2_plus. apply pow2_Z. lia.
Qed.

Lemma binary64_nonneg (x : Q) : (0 <= x)%Q -> (0 <= binary64 x)%Q.
Proof.
  intros Hx. apply Qle_lt_or_eq in Hx. destruct Hx as [Hx|Hx].
  - rewrite (binary64_pos x Hx). apply Qmult_le_0_compat.
    + change 0%Q with (inject_Z 0). rewrite <- Zle_Qle.
      apply round_half_even_ge. apply Qmult_le_0_compat.
      * now apply Qlt_le_weak.
      * apply Qlt_le_weak, pow2_pos.
    + apply Qlt_le_weak, pow2_pos.
  - symmetry in Hx. rewrite (binary64_eq0 x Hx). apply Qle_refl.
Qed.

(** Rounding is monotone. *)
Lemma binary64_mono (x y : Q) :
  (0 <= x)%Q -> (x <= y)%Q -> (binary64 x <= binary64 y)%Q.
Proof.
  intros Hx Hxy.
  assert (Hy : (0 <= y)%Q) by (eapply Qle_trans; eassumption).
  apply Qle_lt_or_eq in Hx. destruct Hx as [Hx|Hx].
  2:{ symmetry in Hx. rewrite (binary64_eq0 x Hx).
      now apply binary64_nonneg. }
  assert (Hy' : (0 < y)%Q) by (eapply Qlt_le_trans; eassumption).
  pose proof (ilog2_mono x y Hx Hxy) as He.
  destruct (Z.eq_dec (shift x) (shift y)) as [Hs|Hs].
  - rewrite (binary64_pos x Hx), (binary64_pos y Hy'), Hs.
    apply Qmult_le_compat_r; [|apply Qlt_le_weak, pow2_pos].
    rewrite <- Zle_Qle. apply round_half_even_mono.
    apply Qmult_le_compat_r; [exact Hxy|].
    apply Qlt_le_weak, pow2_pos.
  - rewrite (shift_pos x Hx), (shift_pos y Hy') in Hs.
    assert (Hey : (-1074 <= ilog2 y)%Z) by lia.
    destruct (binary64_binade y Hy' Hey) as [Hylo _].
    apply Qle_trans with (pow2 (ilog2 y)); [|exact Hylo].
    destruct (Z_le_gt_dec (-1074) (ilog2 x)) as [Hex|Hex].
    + destruct (binary64_binade x Hx Hex) as [_ Hxhi].
      eapply Qle_trans; [exact Hxhi|]. apply pow2_le. lia.
    + destruct (binary64_tiny x Hx) as [H0|H1]; [lia | |].
      * rewrite H0. apply Qlt_le_weak, pow2_pos.
      * rewrite H1. apply pow2_le. lia.
Qed.

(** A rounded value is a binary64 number: rounding it again changes
    nothing. *)
Lemma binary64_idempotent (x : Q) :
  (0 <= x)%Q -> (binary64 (binary64 x) == binary64 x)%Q.
Proof.
  intros Hx. pose proof (binary64_nonneg x Hx) as Hr.
  apply Qle_lt_or_eq in Hx. destruct Hx as [Hx|Hx].
  2:{ symmetry in Hx. now rewrite (binary64_eq0 x Hx). }
  destruct (Z_le_gt_dec (-1074) (ilog2 x)) as [He|He].
  - destruct (binary64_binade x Hx He) as [Hlo Hhi].
    assert (Hrpos : (0 < binary64 x)%Q).
    { eapply Qlt_le_trans; [apply pow2_pos | exact Hlo]. }
    apply Qle_lt_or_eq in Hhi. destruct Hhi as [Hhi|Hhi].
    + apply (binary64_on_grid _
               (round_half_even (x * pow2 (shift x)))); [exact Hrpos|].
      rewrite (shift_pos _ Hrpos).
      rewrite (ilog2_unique _ _ Hlo Hhi), <- (shift_pos x Hx).
      rewrite (binary64_pos x Hx) at 1.
      rewrite <- Qmult_assoc.
      setoid_replace (pow2 (- shift x) * pow2 (shift x))%Q with 1%Q.
      * apply Qmult_1_r.
      * rewrite Qmult_comm. apply pow2_cancel.
    + rewrite (binary64_comp _ _ Hr Hhi), Hhi.
      apply binary64_pow2. lia.
  - destruct (binary64_tiny x Hx) as [H0|H1]; [lia | |].
    + rewrite (binary64_comp _ _ Hr H0), H0. reflexivity.
    + rewrite (binary64_comp _ _ Hr H1), H1.
      apply binary64_pow2. lia.
Qed.

(** Integers up to [2 ^ 53] are binary64 numbers. *)
Lemma binary64_integer (n : Z) :
  (0 <= n <= 2 ^ 53)%Z -> (binary64 (inject_Z n) == inject_Z n)%Q.
Proof.
  intros [Hlo Hhi].
  destruct (Z.eq_dec n 0) as [->|Hn0]; [reflexivity|].
  destruct (Z.eq_dec n (2 ^ 53)) as [->|Hn53].
  { assert (H53 : (inject_Z (2 ^ 53) == pow2 53)%Q).
    { symmetry. apply pow2_Z. lia. }
    assert (Hpos53 : (0 <= inject_Z (2 ^ 53))%Q).
    { rewrite H53. apply Qlt_le_weak, pow2_pos. }
    rewrite (binary64_comp _ _ Hpos53 H53), H53.
    apply binary64_pow2. lia. }
  assert (Hpos : (0 < inject_Z n)%Q).
  { change 0%Q with (inject_Z 0). rewrite <- Zlt_Qlt. lia. }
  destruct (ilog2_spec _ Hpos) as [Hl Hh].
  assert (He : (ilog2 (inject_Z n) < 53)%Z).
  { apply pow2_lt_inv. eapply Qle_lt_trans; [exact Hl|].
    rewrite (pow2_Z 53) by lia. rewrite <- Zlt_Qlt. lia. }
  assert (He0 : (0 <= ilog2 (inject_Z n))%Z).
  { assert (H : (0 < ilog2 (inject_Z n) + 1)%Z); [|lia].
    apply pow2_lt_inv. eapply Qle_lt_trans; [|exact Hh].
    change (pow2 0) with (inject_Z 1). rewrite <- Zle_Qle. lia. }
  apply (binary64_on_grid _ (n * 2 ^ (52 - ilog2 (inject_Z n)))); [exact Hpos|].
  rewrite (shift_pos _ Hpos).
  replace (Z.min (52 - ilog2 (inject_Z n)) 1074)
    with (52 - ilog2 (inject_Z n))%Z by lia.
  rewrite inject_Z_mult, (pow2_Z (52 - ilog2 (inject_Z n))) by lia.
  reflexivity.
Qed.

Lemma sql_add_ge (acc v : Q) :
  (0 <= acc)%Q -> (binary64 acc == acc)%Q -> (0 <= v)%Q ->
  (acc <= sql_add acc v)%Q.
Proof.
  intros Hacc Hrep Hv. unfold sql_add. rewrite <- Hrep at 1.
  apply binary64_mono; [exact Hacc|].
  rewrite <- (Qplus_0_r acc) at 1. apply Qplus_le_r.
  now apply binary64_nonneg.
Qed.

Lemma sql_add_nonneg (acc v : Q) :
  (0 <= acc)%Q -> (0 <= v)%Q -> (0 <= sql_add acc v)%Q.
Proof.
  intros Hacc Hv. apply binary64_nonneg.
  rewrite <- (Qplus_0_r 0). apply Qplus_le_compat; [exact Hacc|].
  now apply binary64_nonneg.
Qed.

Lemma sql_add_binary64 (acc v : Q) :
  (0 <= acc)%Q -> (0 <= v)%Q ->
  (binary64 (sql_add acc v) == sql_add acc v)%Q.
Proof.
  intros Hacc Hv. apply binary64_idempotent.
  rewrite <- (Qplus_0_r 0). apply Qplus_le_compat; [exact Hacc|].
  now apply binary64_nonneg.
Qed.

(** * The data layer *)

(** ** The byte-wise order on TEXT *)

Lemma ascii_compare_lt_trans (a b c : ascii) :
  Ascii.compare a b = Lt -> Ascii.compare b c = Lt -> Ascii.compare a c = Lt.
Proof.
  unfold Ascii.compare. rewrite !N.compare_lt_iff. apply N.lt_trans.
Qed.

Lemma ascii_compare_refl (a : ascii) : Ascii.compare a a = Eq.
Proof. unfold Ascii.compare. apply N.compare_refl. Qed.

Lemma string_compare_refl (s : string) : String.compare s s = Eq.
Proof.
  induction s as [|a s IH]; simpl; [reflexivity|].
  now rewrite ascii_compare_refl.
Qed.

Lemma string_compare_le_trans (s1 s2 s3 : string) :
  String.compare s1 s2 <> Gt -> String.compare s2 s3 <> Gt ->
  String.compare s1 s3 <> Gt.
Proof.
  revert s2 s3.
  induction s1 as [|a s1 IH]; intros [|b s2] [|c s3]; simpl;
    try congruence.
  destruct (Ascii.compare a b) eqn:Hab; try congruence;
    destruct (Ascii.compare b c) eqn:Hbc; try congruence.
  - apply Ascii.compare_eq_iff in Hab, Hbc. subst.
    rewrite ascii_compare_refl. apply IH.
  - apply Ascii.compare_eq_iff in Hab. subst. now rewrite Hbc.
  - apply Ascii.compare_eq_iff in Hbc. subst. now rewrite Hab.
  - now rewrite (ascii_compare_lt_trans a b c).
Qed.

Lemma leb_refl (s : string) : String.leb s s = true.
Proof. unfold String.leb. now rewrite string_compare_refl. Qed.

Lemma leb_trans (s1 s2 s3 : string) :
  String.leb s1 s2 = true -> String.leb s2 s3 = true ->
  String.leb s1 s3 = true.
Proof.
  unfold String.leb. intros H12 H23.
  assert (H : String.compare s1 s3 <> Gt).
  { apply (string_compare_le_trans s1 s2 s3).
    - destruct (String.compare s1 s2); congruence.
    - destruct (String.compare s2 s3); congruence. }
  destruct (String.compare s1 s3); congruence.
Qed.

(** [s1 < s2] excludes [s2 <= s1]. *)
Lemma ltb_not_leb (s1 s2 : string) :
  String.ltb s1 s2 = true -> String.leb s2 s1 = false.
Proof.
  unfold String.ltb, String.leb. rewrite (String.compare_antisym s1 s2).
  destruct (String.compare s2 s1); simpl; congruence.
Qed.

Lemma leb_false_ltb (s1 s2 : string) :
  String.leb s1 s2 = false -> String.ltb s2 s1 = true.
Proof.
  unfold String.ltb, String.leb. rewrite (String.compare_antisym s1 s2).
  destruct (String.compare s2 s1); simpl; congruence.
Qed.

Lemma string_compare_eq (a b : string) : String.compare a b = Eq <-> a = b.
Proof.
  split; [apply String.compare_eq_iff | intros ->; apply string_compare_refl].
Qed.

Lemma string_compare_lt_trans (s1 s2 s3 : string) :
  String.compare s1 s2 = Lt -> String.compare s2 s3 = Lt ->
  String.compare s1 s3 = Lt.
Proof.
  revert s2 s3.
  induction s1 as [|a s1 IH]; intros [|b s2] [|c s3]; simpl;
    try congruence.
  destruct (Ascii.compare a b) eqn:Hab; try congruence;
    destruct (Ascii.compare b c) eqn:Hbc; try congruence.
  - apply Ascii.compare_eq_iff in Hab, Hbc. subst.
    rewrite ascii_compare_refl. apply IH.
  - apply Ascii.compare_eq_iff in Hab. subst. now rewrite Hbc.
  - apply Ascii.compare_eq_iff in Hbc. subst. now rewrite Hab.
  - now rewrite (ascii_compare_lt_trans a b c).
Qed.

(** ** Texts *)

Lemma append_assoc (s1 s2 s3 : string) :
  (s1 ++ s2) ++ s3 = s1 ++ (s2 ++ s3).
Proof. induction s1 as [|a s1 IH]; simpl; [reflexivity | now rewrite IH]. Qed.

Lemma append_empty_r (s : string) : s ++ "" = s.
Proof. induction s as [|a s IH]; simpl; [reflexivity | now rewrite IH]. Qed.

Lemma length_append (s1 s2 : string) :
  String.length (s1 ++ s2) = (String.length s1 + String.length s2)%nat.
Proof. induction s1 as [|a s1 IH]; simpl; [reflexivity | now rewrite IH]. Qed.

Lemma occurrences_append (a : ascii) (s1 s2 : string) :
  occurrences a (s1 ++ s2) = (occurrences a s1 + occurrences a s2)%nat.
Proof.
  induction s1 as [|b s1 IH]; simpl; [reflexivity | rewrite IH; lia].
Qed.

Lemma strip_prefix_append (p s : string) : strip_prefix p (p ++ s) = Some s.
Proof.
  induction p as [|a p IH]; simpl; [reflexivity|].
  now rewrite Ascii.eqb_refl.
Qed.

Lemma placeholders_one : placeholders 1 = "?".
Proof. reflexivity. Qed.

Lemma placeholders_more (n : nat) :
  placeholders (S (S n)) = "?," ++ placeholders (S n).
Proof. reflexivity. Qed.

Lemma occurrences_placeholders (n : nat) :
  occurrences "?" (placeholders n) = n.
Proof.
  destruct n as [|n]; [reflexivity|].
  induction n as [|n IH]; [reflexivity|].
  rewrite placeholders_more, occurrences_append, IH. reflexivity.
Qed.

(** ** The statement parser accepts what the builder writes *)

Lemma parse_placeholders_ok (n : nat) (rest : string) :
  parse_placeholders (placeholders (S n) ++ ")" ++ rest) = Some (S n, rest).
Proof.
  induction n as [|n IH]; [reflexivity|].
  rewrite placeholders_more, append_assoc.
  change ("?," ++ ?s) with (String "?" (String "," s)).
  cbn [parse_placeholders Ascii.eqb Bool.eqb].
  now rewrite IH.
Qed.

Lemma read_word_ok (col rest : string) :
  is_word col = true ->
  read_word (col ++ String " " rest) = (col, String " " rest).
Proof.
  unfold is_word.
  induction col as [|a col IH]; simpl; intros H; [reflexivity|].
  apply andb_true_iff in H. destruct H as [Ha Hcol].
  apply negb_true_iff in Ha. rewrite Ha, (IH Hcol). reflexivity.
Qed.

Lemma clause_text_unfold (c : string * nat) (rest : string) :
  clause_text c ++ rest
  = " AND "
    ++ (fst c
        ++ String " " ("IN (" ++ (placeholders (snd c) ++ ")" ++ rest))).
Proof.
  unfold clause_text. rewrite !append_assoc. reflexivity.
Qed.

Lemma parse_in_clauses_step (fuel : nat) (s : string) :
  s <> EmptyString ->
  parse_in_clauses (S fuel) s
  = match strip_prefix " AND " s with
    | None => None
    | Some s1 =>
        let (col, s2) := read_word s1 in
        match strip_prefix " IN (" s2 with
        | None => None
        | Some s3 =>
            match parse_placeholders s3 with
            | None => None
            | Some (n, s4) =>
                match parse_in_clauses fuel s4 with
                | None => None
                | Some cs => Some (InList col n :: cs)
                end
            end
        end
    end.
Proof. destruct s; [congruence | reflexivity]. Qed.

Lemma parse_in_clauses_clause (fuel : nat) (col : string) (n : nat)
    (rest : string) :
  is_word col = true ->
  parse_in_clauses (S fuel) (clause_text (col, S n) ++ rest)
  = match parse_in_clauses fuel rest with
    | None => None
    | Some cs => Some (InList col (S n) :: cs)
    end.
Proof.
  intros Hw. rewrite clause_text_unfold.
  rewrite parse_in_clauses_step by discriminate.
  rewrite strip_prefix_append. cbv [fst snd].
  rewrite (read_word_ok col _ Hw).
  change (String " " ("IN (" ++ ?s)) with (" IN (" ++ s).
  rewrite strip_prefix_append, parse_placeholders_ok. reflexivity.
Qed.

Lemma parse_in_clauses_ok (cl : list (string * nat)) :
  Forall well_formed_clause cl ->
  forall fuel, (List.length cl <= fuel)%nat ->
  parse_in_clauses fuel (clauses_text cl)
  = Some (map (fun c => InList (fst c) (snd c)) cl).
Proof.
  induction 1 as [|c cl [Hw Hn] _ IH]; intros fuel Hfuel.
  - destruct fuel; reflexivity.
  - destruct fuel as [|fuel]; [simpl in Hfuel; lia|].
    change (clauses_text (c :: cl)) with (clause_text c ++ clauses_text cl).
    destruct c as [col [|n]]; simpl in Hw, Hn; [lia|].
    rewrite (parse_in_clauses_clause fuel col n _ Hw).
    rewrite IH by (simpl in Hfuel; lia). reflexivity.
Qed.

Lemma clauses_text_length (cl : list (string * nat)) :
  (List.length cl <= String.length (clauses_text cl))%nat.
Proof.
  induction cl as [|c cl IH]; [simpl; lia|].
  change (clauses_text (c :: cl)) with (clause_text c ++ clauses_text cl).
  unfold clause_text. rewrite !length_append. simpl. lia.
Qed.

Lemma parse_query_ok (cl : list (string * nat)) :
  Forall well_formed_clause cl ->
  parse_query (base_query ++ clauses_text cl)
  = Some (Between "date" :: map (fun c => InList (fst c) (snd c)) cl).
Proof.
  intros Hcl. unfold parse_query.
  rewrite strip_prefix_append.
  now rewrite (parse_in_clauses_ok cl Hcl _ (clauses_text_length cl)).
Qed.

(** ** What the builder writes *)

Lemma in_clause_text (col : string) (values : list string) :
  in_clause col values = clause_text (col, List.length values).
Proof. reflexivity. Qed.

Lemma add_filter_text (col : string) (values : list string)
    (qp : string * list string) :
  fst (add_filter col values qp)
  = fst qp ++ clauses_text (active col values).
Proof.
  unfold add_filter, active. destruct (truthy values); cbn [fst clauses_text].
  - now rewrite append_empty_r.
  - now rewrite append_empty_r.
Qed.

Lemma add_filter_params (col : string) (values : list string)
    (qp : string * list string) :
  snd (add_filter col values qp) = (snd qp ++ values)%list.
Proof.
  unfold add_filter. destruct values as [|v values]; cbn [truthy snd].
  - now rewrite app_nil_r.
  - reflexivity.
Qed.

Lemma clauses_text_app (cl1 cl2 : list (string * nat)) :
  clauses_text (cl1 ++ cl2) = clauses_text cl1 ++ clauses_text cl2.
Proof.
  induction cl1 as [|c cl1 IH]; [reflexivity|].
  cbn [clauses_text app]. now rewrite IH, append_assoc.
Qed.

(** The clauses of a selection, in the order the builder appends them. *)
Lemma build_query_text (date_range : string * string)
    (countries channels categories statuses : list string) :
  fst (build_query date_range countries channels categories statuses)
  = base_query
    ++ clauses_text (active "country" countries ++ active "channel" channels
                     ++ active "category" categories
                     ++ active "status" statuses).
Proof.
  unfold build_query. rewrite !add_filter_text. cbn [fst].
  rewrite !clauses_text_app, !append_assoc. reflexivity.
Qed.

Lemma build_query_params (date_range : string * string)
    (countries channels categories statuses : list string) :
  snd (build_query date_range countries channels categories statuses)
  = ([fst date_range; snd date_range] ++ countries ++ channels
     ++ categories ++ statuses)%list.
Proof.
  unfold build_query. rewrite !add_filter_params. cbn [snd].
  now rewrite <- !app_assoc.
Qed.

Lemma active_well_formed (col : string) (values : list string) :
  is_word col = true -> Forall well_formed_clause (active col values).
Proof.
  intros Hw. unfold active. destruct values as [|v values]; cbn [truthy].
  - constructor.
  - constructor; [|constructor]. split; [exact Hw | simpl; lia].
Qed.

Lemma selection_clauses_well_formed
    (countries channels categories statuses : list string) :
  Forall well_formed_clause
    (active "country" countries ++ active "channel" channels
     ++ active "category" categories ++ active "status" statuses).
Proof.
  rewrite !Forall_app. repeat split; now apply active_well_formed.
Qed.

(** ** Binding the parameters *)

Lemma bind_params_active (col : string) (get : complaint -> string)
    (values : list string) (cl : list cond) (rest : list string) :
  text_column col = Some get ->
  bind_params (map (fun c => InList (fst c) (snd c)) (active col values)
               ++ cl) (values ++ rest)
  = match bind_params cl rest with
    | Some bs => Some (bound get values ++ bs)%list
    | None => None
    end.
Proof.
  intros Hcol. unfold active, bound.
  destruct (truthy values) eqn:Hne.
  - cbn [map app fst snd bind_params]. rewrite Hcol.
    assert (Hle : (List.length values <=? List.length (values ++ rest))%nat
                  = true).
    { apply Nat.leb_le. rewrite length_app. lia. }
    rewrite Hle.
    rewrite skipn_app, skipn_all, Nat.sub_diag, skipn_O.
    rewrite firstn_app, firstn_all, Nat.sub_diag, firstn_O, app_nil_r.
    reflexivity.
  - destruct values; [|discriminate]. cbn [map app].
    now destruct (bind_params cl rest).
Qed.

Lemma bind_params_ok (date_range : string * string)
    (countries channels categories statuses : list string) :
  bind_params
    (Between "date"
     :: map (fun c => InList (fst c) (snd c))
          (active "country" countries ++ active "channel" channels
           ++ active "category" categories ++ active "status" statuses))
    ([fst date_range; snd date_range] ++ countries ++ channels
     ++ categories ++ statuses)
  = Some (bound_conds date_range countries channels categories statuses).
Proof.
  cbn [bind_params app]. change (text_column "date") with (Some date).
  cbv iota. rewrite !map_app.
  rewrite (bind_params_active "country" country) by reflexivity.
  rewrite (bind_params_active "channel" channel) by reflexivity.
  rewrite (bind_params_active "category" category) by reflexivity.
  rewrite <- (app_nil_r (map _ (active "status" statuses))).
  rewrite <- (app_nil_r statuses) at 2.
  rewrite (bind_params_active "status" status) by reflexivity.
  cbn [bind_params]. now rewrite app_nil_r.
Qed.

(** ** The conditions and the selection agree *)

Lemma forallb_holds_bound (r : complaint) (get : complaint -> string)
    (values : list string) :
  forallb (holds r) (bound get values) = allows values (get r).
Proof.
  unfold bound.
  destruct values as [|v values]; cbn [truthy forallb holds allows].
  - reflexivity.
  - now rewrite andb_true_r.
Qed.

Lemma forallb_holds_bound_conds (date_range : string * string)
    (countries channels categories statuses : list string) (r : complaint) :
  forallb (holds r)
    (bound_conds date_range countries channels categories statuses)
  = selected date_range countries channels categories statuses r.
Proof.
  unfold bound_conds, selected, in_range. cbn [forallb holds].
  rewrite !forallb_app, !forallb_holds_bound.
  now rewrite !andb_assoc.
Qed.

(** Executing the built statement selects exactly the qualifying rows, in
    storage order. *)
Lemma read_sql_build_query (table : list complaint)
    (date_range : string * string)
    (countries channels categories statuses : list string) :
  let qp := build_query date_range countries channels categories statuses in
  read_sql (fst qp) (snd qp) (mkDatabase (Some table))
  = Some (filter (selected date_range countries channels categories statuses)
            table).
Proof.
  cbv zeta. unfold read_sql. cbn [complaints].
  rewrite build_query_text, build_query_params.
  rewrite parse_query_ok by apply selection_clauses_well_formed.
  rewrite bind_params_ok. f_equal.
  apply filter_ext. intros r. apply forallb_holds_bound_conds.
Qed.

(** ** The connection discipline *)

(** Connect, run one statement, close, return: the shape of both data-layer
    functions.  On a failing statement the close is never reached. *)
Lemma connect_run_close {A : Type} (result : option A) (w : world) :
  (conn <- sqlite3_connect ;;
   df <- run_on conn result ;;
   _ <- conn_close conn ;;
   ret df) w
  = let c := next_conn w in
    match result with
    | Some df =>
        (Returned df,
         mkWorld (S c) (remove Nat.eq_dec c (c :: open_conns w))
           (history w ++ [Connected c; Queried c; Closed c]))
    | None =>
        (Raised "DatabaseError",
         mkWorld (S c) (c :: open_conns w)
           (history w ++ [Connected c; Queried c]))
    end.
Proof.
  unfold bind, sqlite3_connect, run_on, conn_close, ret.
  cbn [next_conn open_conns history existsb].
  rewrite Nat.eqb_refl. cbn [orb].
  destruct result as [df|]; cbn [next_conn open_conns history];
    now rewrite <- !app_assoc.
Qed.

Lemma get_filtered_data_run (db : database) (date_range : string * string)
    (countries channels categories statuses : list string) (w : world) :
  get_filtered_data db date_range countries channels categories statuses w
  = let c := next_conn w in
    let qp := build_query date_range countries channels categories statuses in
    match read_sql (fst qp) (snd qp) db with
    | Some df =>
        (Returned df,
         mkWorld (S c) (remove Nat.eq_dec c (c :: open_conns w))
           (history w ++ [Connected c; Queried c; Closed c]))
    | None =>
        (Raised "DatabaseError",
         mkWorld (S c) (c :: open_conns w)
           (history w ++ [Connected c; Queried c]))
    end.
Proof.
  unfold get_filtered_data.
  destruct (build_query date_range countries channels categories statuses)
    as [query params].
  apply connect_run_close.
Qed.


(** On a store that has the table, the call returns the qualifying rows. *)
Lemma get_filtered_data_returns (table : list complaint)
    (date_range : string * string)
    (countries channels categories statuses : list string) (w : world) :
  fst (get_filtered_data (mkDatabase (Some table)) date_range
         countries channels categories statuses w)
  = Returned
      (filter (selected date_range countries channels categories statuses)
         table).
Proof.
  rewrite get_filtered_data_run. cbv zeta.
  now rewrite read_sql_build_query.
Qed.

(** ** The query text carries no value *)

Lemma clauses_text_active (col : string) (values : list string) :
  clauses_text (active col values)
  = match List.length values with
    | O => EmptyString
    | S _ => clause_text (col, List.length values)
    end.
Proof.
  unfold active. destruct values as [|v values]; cbn [truthy clauses_text].
  - reflexivity.
  - now rewrite append_empty_r.
Qed.

Lemma build_query_shape (date_range : string * string)
    (countries channels categories statuses : list string) :
  fst (build_query date_range countries channels categories statuses)
  = query_shape (List.length countries) (List.length channels)
      (List.length categories) (List.length statuses).
Proof.
  rewrite build_query_text, !clauses_text_app, !clauses_text_active.
  reflexivity.
Qed.

Lemma occurrences_clauses_active (col : string) (values : list string) :
  occurrences "?" col = O ->
  occurrences "?" (clauses_text (active col values)) = List.length values.
Proof.
  intros Hcol. rewrite clauses_text_active.
  destruct values as [|v values]; [reflexivity|].
  cbn [List.length]. unfold clause_text. cbn [fst snd].
  rewrite !occurrences_append, Hcol, occurrences_placeholders.
  cbn [occurrences Ascii.eqb Bool.eqb]. lia.
Qed.

(** C1.  The text of the statement is a function of the four set sizes
    alone, so two selections with the same sizes give the same text
    whatever their values and dates; the values are all in the parameter
    list, dates first and then the sets in clause order; the text has one
    '?' per parameter; and the statement binds each placeholder to the
    value of its own clause. *)
Theorem query_text_carries_no_value
    (date_range date_range' : string * string)
    (countries countries' channels channels' : list string)
    (categories categories' statuses statuses' : list string) :
  List.length countries = List.length countries' ->
  List.length channels = List.length channels' ->
  List.length categories = List.length categories' ->
  List.length statuses = List.length statuses' ->
  let qp := build_query date_range countries channels categories statuses in
  let qp' :=
    build_query date_range' countries' channels' categories' statuses' in
  fst qp = fst qp'
  /\ fst qp = query_shape (List.length countries) (List.length channels)
                (List.length categories) (List.length statuses)
  /\ snd qp = ([fst date_range; snd date_range] ++ countries ++ channels
               ++ categories ++ statuses)%list
  /\ occurrences "?" (fst qp) = List.length (snd qp)
  /\ exists cs,
       parse_query (fst qp) = Some cs
       /\ bind_params cs (snd qp)
          = Some (bound_conds date_range countries channels categories
                    statuses).
Proof.
  intros Hco Hch Hca Hst qp qp'. subst qp qp'.
  repeat split.
  - rewrite !build_query_shape. congruence.
  - apply build_query_shape.
  - apply build_query_params.
  - rewrite build_query_text, build_query_params.
    rewrite occurrences_append, !clauses_text_app, !occurrences_append.
    rewrite !occurrences_clauses_active by reflexivity.
    rewrite !length_app. reflexivity.
  - eexists. split.
    + rewrite build_query_text.
      apply parse_query_ok, selection_clauses_well_formed.
    + rewrite build_query_params. apply bind_params_ok.
Qed.

Lemma query_text_carries_no_value_witness :
  fst (build_query ("2025-01-01", "2025-12-31") ["USA"] [] ["Billing"] [])
  = fst (build_query ("2025-02-01", "2025-03-31") ["' OR 1=1 --"] []
           ["x); DROP TABLE complaints; --"] []).
Proof.
  apply (query_text_carries_no_value
           ("2025-01-01", "2025-12-31") ("2025-02-01", "2025-03-31")
           ["USA"] ["' OR 1=1 --"] [] []
           ["Billing"] ["x); DROP TABLE complaints; --"] [] []);
    reflexivity.
Defined.

(** ** Empty sets restrict nothing *)

(** C2.  With the four sets empty the statement is the base text with its
    two date parameters and no IN clause; it parses to the single
    condition on [date], and the call returns exactly the rows whose date
    is between start and end, both ends included. *)
Theorem empty_sets_only_date_range (date_range : string * string)
    (table : list complaint) (w : world) :
  let qp := build_query date_range [] [] [] [] in
  fst qp = base_query
  /\ snd qp = [fst date_range; snd date_range]
  /\ parse_query (fst qp) = Some [Between "date"]
  /\ fst (get_filtered_data (mkDatabase (Some table)) date_range
            [] [] [] [] w)
     = Returned
         (filter (fun r => String.leb (fst date_range) (date r)
                           && String.leb (date r) (snd date_range)) table).
Proof.
  cbv zeta. repeat split.
  rewrite get_filtered_data_returns. f_equal. apply filter_ext.
  intros r. unfold selected, in_range, allows. now rewrite !andb_true_r.
Qed.

(** ** The rows a selection returns *)

Lemma allows_iff (values : list string) (v : string) :
  allows values v = true <-> (values <> [] -> In v values).
Proof.
  destruct values as [|x values]; cbn [allows].
  - split; [intros _ H; now elim H | reflexivity].
  - rewrite existsb_exists. split.
    + intros [y [Hy Heq]] _. apply String.eqb_eq in Heq. now subst.
    + intros H. exists v. split; [apply H; discriminate|].
      apply String.eqb_refl.
Qed.

Lemma selected_iff (date_range : string * string)
    (countries channels categories statuses : list string) (r : complaint) :
  selected date_range countries channels categories statuses r = true
  <-> String.leb (fst date_range) (date r) = true
      /\ String.leb (date r) (snd date_range) = true
      /\ (countries <> [] -> In (country r) countries)
      /\ (channels <> [] -> In (channel r) channels)
      /\ (categories <> [] -> In (category r) categories)
      /\ (statuses <> [] -> In (status r) statuses).
Proof.
  unfold selected, in_range.
  rewrite !andb_true_iff, !allows_iff. tauto.
Qed.

(** C3.  On any store and for any selection the call returns a frame [df]
    such that a row is in [df] exactly when it is in the table, its date is
    within the inclusive range and, for each dimension with a non-empty
    set, its value is a member of the set (all checks at once); [df] is the
    table with the other rows struck out, so nothing qualifying is lost or
    repeated and storage order is kept. *)
Theorem filtered_rows_are_the_qualifying_rows (table : list complaint)
    (date_range : string * string)
    (countries channels categories statuses : list string) (w : world) :
  exists df,
    fst (get_filtered_data (mkDatabase (Some table)) date_range
           countries channels categories statuses w) = Returned df
    /\ df = filter (selected date_range countries channels categories
                      statuses) table
    /\ forall r,
         In r df <->
         In r table
         /\ String.leb (fst date_range) (date r) = true
         /\ String.leb (date r) (snd date_range) = true
         /\ (countries <> [] -> In (country r) countries)
         /\ (channels <> [] -> In (channel r) channels)
         /\ (categories <> [] -> In (category r) categories)
         /\ (statuses <> [] -> In (status r) statuses).
Proof.
  eexists. split; [apply get_filtered_data_returns|]. split; [reflexivity|].
  intros r. rewrite filter_In, selected_iff. tauto.
Qed.

(** ** A reversed date range *)

Lemma reversed_range_selects_nothing (date_range : string * string)
    (countries channels categories statuses : list string)
    (table : list complaint) :
  String.ltb (snd date_range) (fst date_range) = true ->
  filter (selected date_range countries channels categories statuses) table
  = [].
Proof.
  intros Hrev. induction table as [|r table IH]; [reflexivity|].
  cbn [filter]. rewrite IH.
  destruct (selected date_range countries channels categories statuses r)
    eqn:Hsel; [|reflexivity].
  apply selected_iff in Hsel. destruct Hsel as (Hlo & Hhi & _).
  pose proof (leb_trans _ _ _ Hlo Hhi) as Hle.
  rewrite (ltb_not_leb _ _ Hrev) in Hle. discriminate.
Qed.

(** C9.  When start is after end the builder checks nothing: start and end
    are bound, unchanged and in that order, to the two placeholders of the
    BETWEEN condition, the call does not raise, and it returns the empty
    frame. *)
Theorem reversed_range_passes_through (table : list complaint)
    (date_range : string * string)
    (countries channels categories statuses : list string) (w : world) :
  String.ltb (snd date_range) (fst date_range) = true ->
  let qp := build_query date_range countries channels categories statuses in
  (exists cs bs,
     parse_query (fst qp) = Some (Between "date" :: cs)
     /\ bind_params (Between "date" :: cs) (snd qp)
        = Some (BBetween date (fst date_range) (snd date_range) :: bs))
  /\ fst (get_filtered_data (mkDatabase (Some table)) date_range
            countries channels categories statuses w)
     = Returned [].
Proof.
  intros Hrev qp. subst qp. split.
  - do 2 eexists. split.
    + rewrite build_query_text.
      apply parse_query_ok, selection_clauses_well_formed.
    + rewrite build_query_params, bind_params_ok. reflexivity.
  - rewrite get_filtered_data_returns.
    now rewrite reversed_range_selects_nothing.
Qed.

Lemma reversed_range_passes_through_witness :
  fst (get_filtered_data
         (mkDatabase
            (Some [mkComplaint 1 "2025-06-15" "USA" "Email" "Billing" "Open"
                     24 (25 # 2) "CUST-1000" 0]))
         ("2025-12-31", "2025-01-01") [] [] [] [] fresh_world)
  = Returned [].
Proof.
  apply (reversed_range_passes_through
           [mkComplaint 1 "2025-06-15" "USA" "Email" "Billing" "Open"
              24 (25 # 2) "CUST-1000" 0]
           ("2025-12-31", "2025-01-01") [] [] [] [] fresh_world).
  reflexivity.
Defined.

(** ** Opening and releasing the connection *)

Lemma get_complex_sql_metrics_run (db : database) (w : world) :
  get_complex_sql_metrics db w
  = let c := next_conn w in
    match complex_sql_metrics db with
    | Some df =>
        (Returned df,
         mkWorld (S c) (remove Nat.eq_dec c (c :: open_conns w))
           (history w ++ [Connected c; Queried c; Closed c]))
    | None =>
        (Raised "DatabaseError",
         mkWorld (S c) (c :: open_conns w)
           (history w ++ [Connected c; Queried c]))
    end.
Proof. apply connect_run_close. Qed.




(** ** The KPI cards on the empty frame *)

(** C5.  On the empty frame the four cards render "0", "0.0%", "0.0" and
    "$0".  The mean and the rate themselves have no value there (the
    division is by a count of zero): the two cards answer from their guard
    and never reach them. *)
Theorem kpis_of_empty_frame :
  total_complaints [] = Some "0"
  /\ escalation_rate [] = Some "0.0%"
  /\ avg_sla [] = Some "0.0"
  /\ total_amount [] = Some "$0"
  /\ rate [] = None
  /\ mean_int sla_hours [] = None.
Proof. repeat split. Qed.

(** ** The three-row scenario *)

Lemma allows_singleton_other (v x : string) :
  (x =? v) = false -> allows [v] x = false.
Proof. intros H. cbn [allows existsb]. now rewrite H. Qed.

(** C6.  The store holds the three rows of the scenario, whatever their
    other columns are.  Filtering on country USA alone, over any date range
    that covers the three dates, returns the first and the third row, and
    the cards read 2, 50.0%, 20.0 and $400. *)
Theorem usa_scenario_kpis
    (id1 id2 id3 : Z)
    (channel1 channel2 channel3 category1 category2 category3 : string)
    (status1 status2 status3 customer1 customer2 customer3 : string)
    (date_range : string * string) (w : world) :
  String.leb (fst date_range) "2025-01-01" = true ->
  String.leb "2025-01-03" (snd date_range) = true ->
  let row1 := mkComplaint id1 "2025-01-01" "USA" channel1 category1 status1
                10 100 customer1 1 in
  let row2 := mkComplaint id2 "2025-01-02" "UK" channel2 category2 status2
                20 200 customer2 0 in
  let row3 := mkComplaint id3 "2025-01-03" "USA" channel3 category3 status3
                30 300 customer3 0 in
  let df := [row1; row3] in
  fst (get_filtered_data (mkDatabase (Some [row1; row2; row3])) date_range
         ["USA"] [] [] [] w) = Returned df
  /\ total_complaints df = Some "2"
  /\ escalation_rate df = Some "50.0%"
  /\ avg_sla df = Some "20.0"
  /\ total_amount df = Some "$400".
Proof.
  intros Hlo Hhi row1 row2 row3 df.
  split; [|repeat split].
  rewrite get_filtered_data_returns. f_equal.
  assert (H1 : in_range date_range "2025-01-01" = true).
  { unfold in_range. rewrite Hlo.
    now rewrite (leb_trans "2025-01-01" "2025-01-03" _ eq_refl Hhi). }
  assert (H3 : in_range date_range "2025-01-03" = true).
  { unfold in_range. rewrite Hhi.
    now rewrite (leb_trans _ "2025-01-01" "2025-01-03" Hlo eq_refl). }
  subst df row1 row2 row3. cbn [filter].
  unfold selected. cbn [date country channel category status].
  rewrite H1, H3. rewrite (allows_singleton_other "USA" "UK" eq_refl).
  rewrite andb_false_r. reflexivity.
Qed.

Lemma usa_scenario_kpis_witness :
  let row1 := mkComplaint 1 "2025-01-01" "USA" "Email" "Billing" "Open"
                10 100 "CUST-1001" 1 in
  let row3 := mkComplaint 3 "2025-01-03" "USA" "Chat" "Shipping" "Resolved"
                30 300 "CUST-1003" 0 in
  total_complaints [row1; row3] = Some "2"
  /\ escalation_rate [row1; row3] = Some "50.0%"
  /\ avg_sla [row1; row3] = Some "20.0"
  /\ total_amount [row1; row3] = Some "$400".
Proof.
  apply (usa_scenario_kpis 1 2 3 "Email" "Phone" "Chat"
           "Billing" "Billing" "Shipping" "Open" "Closed" "Resolved"
           "CUST-1001" "CUST-1002" "CUST-1003"
           ("2025-01-01", "2025-12-31") fresh_world);
    reflexivity.
Defined.

(** ** The escalation rate as a percentage *)

Lemma sum_int_acc (col : complaint -> Z) (df : DataFrame) (acc : Z) :
  fold_left (fun a r => (a + col r)%Z) df acc
  = (acc + sum_int col df)%Z.
Proof.
  unfold sum_int. revert acc.
  induction df as [|r df IH]; intros acc; cbn [fold_left]; [lia|].
  rewrite (IH (acc + col r)%Z), (IH (0 + col r)%Z). lia.
Qed.

Lemma sum_int_cons (col : complaint -> Z) (r : complaint) (df : DataFrame) :
  sum_int col (r :: df) = (col r + sum_int col df)%Z.
Proof.
  unfold sum_int at 1. cbn [fold_left]. rewrite sum_int_acc. lia.
Qed.




Lemma zero_pad_digit (d : Z) :
  (0 <= d < 10)%Z -> zero_pad 1 (digits d) = digits d.
Proof.
  intros Hd.
  assert (H : (d = 0 \/ d = 1 \/ d = 2 \/ d = 3 \/ d = 4 \/ d = 5
               \/ d = 6 \/ d = 7 \/ d = 8 \/ d = 9)%Z) by lia.
  repeat (destruct H as [-> | H]; [reflexivity|]). now subst.
Qed.


Lemma len_pos (df : DataFrame) : df <> [] -> (0 < len df)%Z.
Proof. unfold len. destruct df; [congruence | cbn [List.length]; lia]. Qed.

Lemma divide_by_positive (a : Q) (n : Z) :
  (0 < n)%Z -> divide a (inject_Z n) = Some (a / inject_Z n)%Q.
Proof.
  intros Hn. unfold divide.
  destruct (Qeq_bool (inject_Z n) 0) eqn:Hz; [|reflexivity].
  apply Qeq_bool_eq in Hz. unfold Qeq in Hz. simpl in Hz. lia.
Qed.



(** ** The insertion sort *)

Section Sorting.

Context {A : Type} (le : A -> A -> bool).

Hypothesis le_total : forall a b, le a b = true \/ le b a = true.
Hypothesis le_trans :
  forall a b c, le a b = true -> le b c = true -> le a c = true.

Lemma insert_by_perm (x : A) (l : list A) :
  Permutation (insert_by le x l) (x :: l).
Proof.
  induction l as [|y l IH]; cbn [insert_by]; [reflexivity|].
  destruct (le x y); [reflexivity|].
  rewrite IH. apply perm_swap.
Qed.

Lemma sort_by_perm (l : list A) : Permutation (sort_by le l) l.
Proof.
  induction l as [|x l IH]; cbn [sort_by]; [reflexivity|].
  rewrite insert_by_perm. now constructor.
Qed.

Lemma insert_by_hd (a x : A) (l : list A) :
  le a x = true ->
  HdRel (fun a b => le a b = true) a l ->
  HdRel (fun a b => le a b = true) a (insert_by le x l).
Proof.
  intros Hax Hal. destruct l as [|y l]; cbn [insert_by].
  - now constructor.
  - destruct (le x y); constructor; [exact Hax|].
    now inversion Hal.
Qed.

Lemma insert_by_sorted (x : A) (l : list A) :
  Sorted (fun a b => le a b = true) l ->
  Sorted (fun a b => le a b = true) (insert_by le x l).
Proof.
  induction 1 as [|y l Hsorted IH Hhd]; cbn [insert_by].
  - repeat constructor.
  - destruct (le x y) eqn:Hxy.
    + constructor; [now constructor | now constructor].
    + constructor; [exact IH|].
      apply insert_by_hd; [|exact Hhd].
      destruct (le_total x y) as [H|H]; [congruence | exact H].
Qed.

Lemma sort_by_sorted (l : list A) :
  StronglySorted (fun a b => le a b = true) (sort_by le l).
Proof.
  apply Sorted_StronglySorted.
  - intros a b c. apply le_trans.
  - induction l as [|x l IH]; cbn [sort_by]; [constructor|].
    now apply insert_by_sorted.
Qed.

Lemma sort_by_in (x : A) (l : list A) : In x (sort_by le l) <-> In x l.
Proof.
  split; apply Permutation_in;
    [apply sort_by_perm | apply Permutation_sym, sort_by_perm].
Qed.

End Sorting.

(** Sorting changes nothing in a list that is in order already. *)
Lemma sort_by_of_sorted {A : Type} (le : A -> A -> bool) (l : list A) :
  StronglySorted (fun a b => le a b = true) l -> sort_by le l = l.
Proof.
  induction 1 as [|x l Hs IH Hall]; cbn [sort_by]; [reflexivity|].
  rewrite IH. destruct l as [|y l']; cbn [insert_by]; [reflexivity|].
  apply Forall_inv in Hall. now rewrite Hall.
Qed.

Lemma StronglySorted_weaken {A : Type} (R R' : A -> A -> Prop) (l : list A) :
  (forall a b, R a b -> R' a b) ->
  StronglySorted R l -> StronglySorted R' l.
Proof.
  intros Himp. induction 1 as [|a l _ IH Hall]; constructor; [exact IH|].
  eapply Forall_impl; [|exact Hall]. intros b. apply Himp.
Qed.

Lemma filter_length_perm {A : Type} (p : A -> bool) (l l' : list A) :
  Permutation l l' ->
  List.length (filter p l) = List.length (filter p l').
Proof.
  induction 1 as [|x l l' _ IH|x y l|l l' l'' _ IH1 _ IH2]; cbn [filter].
  - reflexivity.
  - destruct (p x); cbn [List.length]; now rewrite IH.
  - destruct (p x), (p y); reflexivity.
  - now rewrite IH1.
Qed.

Lemma date_le_total (g1 g2 : daily_stat) :
  date_le g1 g2 = true \/ date_le g2 g1 = true.
Proof. apply String.leb_total. Qed.

Lemma date_le_trans (g1 g2 g3 : daily_stat) :
  date_le g1 g2 = true -> date_le g2 g3 = true -> date_le g1 g3 = true.
Proof. apply leb_trans. Qed.

Lemma group_le_total (g1 g2 : daily_stat) :
  group_le g1 g2 = true \/ group_le g2 g1 = true.
Proof.
  unfold group_le.
  rewrite (String.compare_antisym (g_date g1) (g_date g2)).
  rewrite (String.compare_antisym (g_category g1) (g_category g2)).
  destruct (String.compare (g_date g2) (g_date g1)); cbn [CompOpp]; auto.
  destruct (String.compare (g_category g2) (g_category g1));
    cbn [CompOpp]; auto.
  apply String.leb_total.
Qed.

Lemma group_le_trans (g1 g2 g3 : daily_stat) :
  group_le g1 g2 = true -> group_le g2 g3 = true -> group_le g1 g3 = true.
Proof.
  unfold group_le.
  destruct (String.compare (g_date g1) (g_date g2)) eqn:Hd12;
    [|intros _|discriminate];
    (destruct (String.compare (g_date g2) (g_date g3)) eqn:Hd23;
     [|intros _|discriminate]).
  - apply string_compare_eq in Hd12, Hd23.
    rewrite Hd12, Hd23, string_compare_refl.
    destruct (String.compare (g_category g1) (g_category g2)) eqn:Hc12;
      [|intros _|discriminate];
      (destruct (String.compare (g_category g2) (g_category g3)) eqn:Hc23;
       [|intros _|discriminate]).
    + apply string_compare_eq in Hc12, Hc23.
      rewrite Hc12, Hc23, string_compare_refl. apply leb_trans.
    + apply string_compare_eq in Hc12. now rewrite Hc12, Hc23.
    + apply string_compare_eq in Hc23. now rewrite <- Hc23, Hc12.
    + now rewrite (string_compare_lt_trans _ _ _ Hc12 Hc23).
  - apply string_compare_eq in Hd12. now rewrite Hd12, Hd23.
  - apply string_compare_eq in Hd23. now rewrite <- Hd23, Hd12.
  - now rewrite (string_compare_lt_trans _ _ _ Hd12 Hd23).
Qed.

Lemma group_le_date (g1 g2 : daily_stat) :
  group_le g1 g2 = true -> date_le g1 g2 = true.
Proof.
  unfold group_le, date_le, String.leb.
  now destruct (String.compare (g_date g1) (g_date g2)).
Qed.

(** Stage 1 is in the order of its key, hence in date order: the window of
    the running sum takes its rows as they are. *)
Lemma DailyStats_sorted (table : list complaint) :
  StronglySorted (fun g1 g2 => group_le g1 g2 = true) (DailyStats table).
Proof.
  apply sort_by_sorted; [apply group_le_total | apply group_le_trans].
Qed.

Lemma window_is_DailyStats (table : list complaint) :
  sort_by date_le (DailyStats table) = DailyStats table.
Proof.
  apply sort_by_of_sorted.
  eapply StronglySorted_weaken; [|apply DailyStats_sorted].
  apply group_le_date.
Qed.

Lemma count_ge_total (x y : daily_stat * Q) :
  count_ge x y = true \/ count_ge y x = true.
Proof. unfold count_ge. rewrite !Z.leb_le. lia. Qed.

Lemma count_ge_trans (x y z : daily_stat * Q) :
  count_ge x y = true -> count_ge y z = true -> count_ge x z = true.
Proof. unfold count_ge. rewrite !Z.leb_le. lia. Qed.

(** ** The ranking walk *)

Lemma above_nil (n : Z) : above n [] = 0%Z.
Proof. reflexivity. Qed.

Lemma above_cons (n : Z) (x : daily_stat * Q) (l : list (daily_stat * Q)) :
  above n (x :: l)
  = ((if (n <? daily_count (fst x))%Z then 1 else 0) + above n l)%Z.
Proof.
  unfold above. cbn [filter].
  destruct (n <? daily_count (fst x))%Z; cbn [List.length]; lia.
Qed.

Lemma above_none (n : Z) (l : list (daily_stat * Q)) :
  Forall (fun x => (daily_count (fst x) <= n)%Z) l -> above n l = 0%Z.
Proof.
  induction 1 as [|x l Hx _ IH]; [reflexivity|].
  rewrite above_cons, IH.
  destruct (n <? daily_count (fst x))%Z eqn:Hlt; [|reflexivity].
  apply Z.ltb_lt in Hlt. lia.
Qed.

Lemma above_all (n : Z) (l : list (daily_stat * Q)) :
  Forall (fun x => (n < daily_count (fst x))%Z) l ->
  above n l = Z.of_nat (List.length l).
Proof.
  induction 1 as [|x l Hx _ IH]; [reflexivity|].
  rewrite above_cons, IH. apply Z.ltb_lt in Hx. rewrite Hx.
  cbn [List.length]. lia.
Qed.

Lemma sorted_head_bounds (x : daily_stat * Q) (rows : list (daily_stat * Q)) :
  StronglySorted (fun a b => count_ge a b = true) (x :: rows) ->
  Forall (fun y => (daily_count (fst y) <= daily_count (fst x))%Z) rows.
Proof.
  intros Hs. apply StronglySorted_inv in Hs. destruct Hs as [_ Hall].
  eapply Forall_impl; [|exact Hall].
  intros y Hy. now apply Z.leb_le in Hy.
Qed.

(** The rank the walk gives to the next row: one more than the number of
    rows seen with a larger count. *)
Lemma next_rank (seen rows : list (daily_stat * Q)) (x : daily_stat * Q)
    (prev : option (Z * Z)) :
  walk_ok seen (x :: rows) prev ->
  match prev with
  | Some (c, k) =>
      if (c =? daily_count (fst x))%Z then k
      else (Z.of_nat (List.length seen) + 1)%Z
  | None => (Z.of_nat (List.length seen) + 1)%Z
  end
  = (1 + above (daily_count (fst x)) seen)%Z.
Proof.
  destruct prev as [[c k]|]; cbn [walk_ok].
  - intros (Hseen & Hrows & ->).
    destruct (c =? daily_count (fst x))%Z eqn:Hc.
    + apply Z.eqb_eq in Hc. now subst c.
    + apply Z.eqb_neq in Hc.
      assert (Hx : (daily_count (fst x) <= c)%Z) by now inversion Hrows.
      rewrite above_all; [lia|].
      eapply Forall_impl; [|exact Hseen]. cbn beta. intros d Hd. lia.
  - intros ->. reflexivity.
Qed.

Lemma rank_rows_spec (rows : list (daily_stat * Q)) :
  forall (seen : list (daily_stat * Q)) (prev : option (Z * Z)),
  StronglySorted (fun a b => count_ge a b = true) rows ->
  Forall (fun d =>
            Forall (fun x => (daily_count (fst x) <= daily_count (fst d))%Z)
              rows) seen ->
  walk_ok seen rows prev ->
  forall r,
    In r (rank_rows (Z.of_nat (List.length seen)) prev rows) ->
    category_rank r
    = (1 + above (daily_count (stat r)) seen
       + above (daily_count (stat r)) rows)%Z
    /\ In (stat r, cumulative_amount r) rows.
Proof.
  induction rows as [|x rows IH]; intros seen prev Hsorted Hseen Hwalk r Hr.
  - contradiction.
  - cbn [rank_rows] in Hr.
    rewrite (next_rank seen rows x prev Hwalk) in Hr.
    pose proof (sorted_head_bounds x rows Hsorted) as Hbelow.
    destruct Hr as [<-|Hr].
    + cbn [category_rank stat cumulative_amount]. split.
      * rewrite (above_none _ (x :: rows)); [lia|].
        constructor; [lia | exact Hbelow].
      * left. now destruct x.
    + replace (Z.of_nat (List.length seen) + 1)%Z
        with (Z.of_nat (List.length (x :: seen))) in Hr
        by (cbn [List.length]; lia).
      apply IH in Hr.
      * destruct Hr as [Hrank Hin]. split; [|now right].
        rewrite Hrank, !above_cons. lia.
      * now apply StronglySorted_inv in Hsorted.
      * constructor; [exact Hbelow|].
        eapply Forall_impl; [|exact Hseen]. cbn beta.
        intros d Hd. now inversion Hd.
      * cbn [walk_ok]. split; [|split].
        -- constructor; [lia|].
           eapply Forall_impl; [|exact Hseen]. cbn beta.
           intros d Hd. now inversion Hd.
        -- exact Hbelow.
        -- rewrite above_cons, Z.ltb_irrefl. lia.
Qed.

Lemma rank_rows_complete (rows : list (daily_stat * Q)) :
  forall (pos : Z) (prev : option (Z * Z)) (x : daily_stat * Q),
  In x rows ->
  exists r,
    In r (rank_rows pos prev rows)
    /\ stat r = fst x /\ cumulative_amount r = snd x.
Proof.
  induction rows as [|y rows IH]; intros pos prev x Hx; [contradiction|].
  cbn [rank_rows]. destruct Hx as [->|Hx].
  - eexists. split; [now left|]. split; reflexivity.
  - destruct (IH (pos + 1)%Z
                (Some (daily_count (fst y),
                       match prev with
                       | Some (c, k) =>
                           if (c =? daily_count (fst y))%Z then k
                           else (pos + 1)%Z
                       | None => (pos + 1)%Z
                       end)) x Hx) as [r [Hr Hstat]].
    exists r. split; [now right | exact Hstat].
Qed.

(** ** Partitions *)

Lemma rank_partition_spec (rows : list (daily_stat * Q)) (c : string)
    (r : ranking_row) :
  In r (rank_partition rows c) ->
  g_country (stat r) = c
  /\ In (stat r, cumulative_amount r) rows
  /\ category_rank r
     = (1 + above (daily_count (stat r)) (filter (in_country c) rows))%Z.
Proof.
  unfold rank_partition. intros Hr.
  apply (rank_rows_spec _ [] None) in Hr.
  - destruct Hr as [Hrank Hin].
    apply (proj1 (sort_by_in count_ge _ _)) in Hin.
    apply filter_In in Hin.
    destruct Hin as [Hin Hc]. unfold in_country in Hc. cbn [fst] in Hc.
    apply String.eqb_eq in Hc. repeat split; [exact Hc | exact Hin|].
    rewrite Hrank, above_nil. unfold above.
    rewrite (filter_length_perm _ _ _ (sort_by_perm count_ge _)). lia.
  - apply sort_by_sorted; [apply count_ge_total | apply count_ge_trans].
  - constructor.
  - reflexivity.
Qed.

Lemma with_rank_spec (rows : list (daily_stat * Q)) (r : ranking_row) :
  In r (with_rank rows) ->
  In (stat r, cumulative_amount r) rows
  /\ category_rank r
     = (1 + above (daily_count (stat r))
              (filter (in_country (g_country (stat r))) rows))%Z.
Proof.
  unfold with_rank. rewrite in_flat_map. intros [c [_ Hr]].
  apply rank_partition_spec in Hr. destruct Hr as (<- & Hin & Hrank).
  now split.
Qed.

Lemma with_rank_complete (rows : list (daily_stat * Q))
    (x : daily_stat * Q) :
  In x rows ->
  exists r,
    In r (with_rank rows) /\ stat r = fst x /\ cumulative_amount r = snd x.
Proof.
  intros Hx.
  destruct (rank_rows_complete
              (sort_by count_ge
                 (filter (in_country (g_country (fst x))) rows))
              0%Z None x) as [r [Hr Hstat]].
  { apply sort_by_in, filter_In. split; [exact Hx|].
    unfold in_country. apply String.eqb_refl. }
  exists r. split; [|exact Hstat].
  unfold with_rank. rewrite in_flat_map.
  exists (g_country (fst x)). split; [|exact Hr].
  unfold partition_keys. apply sort_by_in, nodup_In.
  now apply (in_map (fun y => g_country (fst y))).
Qed.

(** ** The running sum *)

Lemma running_sum_stats (gs : list daily_stat) (acc : Q) :
  map fst (running_sum acc gs) = gs.
Proof.
  revert acc. induction gs as [|g gs IH]; intros acc; cbn [running_sum map].
  - reflexivity.
  - now rewrite IH.
Qed.

Lemma above_in_country (c : string) (n : Z) (rows : list (daily_stat * Q)) :
  above n (filter (in_country c) rows) = count_above c n (map fst rows).
Proof.
  unfold above, count_above, in_country.
  induction rows as [|x rows IH]; [reflexivity|].
  cbn [filter map].
  destruct (g_country (fst x) =? c); cbn [andb filter].
  - destruct (n <? daily_count (fst x))%Z; cbn [List.length]; lia.
  - exact IH.
Qed.

Lemma count_above_perm (c : string) (n : Z) (gs gs' : list daily_stat) :
  Permutation gs gs' -> count_above c n gs = count_above c n gs'.
Proof.
  intros Hp. unfold count_above. now rewrite (filter_length_perm _ _ _ Hp).
Qed.

(** RANK, read off the result: a row's rank is one more than the number of
    Stage-1 rows of its country with a larger count. *)
Lemma category_rank_counts_larger (table : list complaint)
    (r : ranking_row) :
  In r (RankedCategories table) ->
  In (stat r) (DailyStats table)
  /\ category_rank r
     = (1 + count_above (g_country (stat r)) (daily_count (stat r))
              (DailyStats table))%Z.
Proof.
  unfold RankedCategories, with_cumulative. intros Hr.
  apply with_rank_spec in Hr. destruct Hr as [Hin Hrank]. split.
  - apply (in_map fst) in Hin. rewrite running_sum_stats in Hin.
    now apply (proj1 (sort_by_in date_le _ _)) in Hin.
  - rewrite Hrank, above_in_country, running_sum_stats.
    now rewrite (count_above_perm _ _ _ _ (sort_by_perm date_le _)).
Qed.

Lemma every_stat_is_ranked (table : list complaint) (g : daily_stat) :
  In g (DailyStats table) ->
  exists r, In r (RankedCategories table) /\ stat r = g.
Proof.
  intros Hg. unfold RankedCategories, with_cumulative.
  assert (Hx : exists x,
             fst x = g
             /\ In x (running_sum 0 (sort_by date_le (DailyStats table)))).
  { apply in_map_iff. rewrite running_sum_stats. now apply sort_by_in. }
  destruct Hx as [x [<- Hx]].
  destruct (with_rank_complete _ x Hx) as [r [Hr [Hstat _]]].
  now exists r.
Qed.

(** ** Ties share a rank and leave a gap *)

Lemma count_above_next (c : string) (n1 n2 : Z) (gs : list daily_stat) :
  (n2 < n1)%Z ->
  (forall g, In g gs -> g_country g = c ->
             ~ (n2 < daily_count g < n1)%Z) ->
  count_above c n2 gs = (count_above c n1 gs + count_tied c n1 gs)%Z.
Proof.
  intros Hlt. unfold count_above, count_tied.
  induction gs as [|g gs IH]; intros Hgap; [reflexivity|].
  assert (IH' := IH (fun g' Hg' => Hgap g' (or_intror Hg'))).
  assert (Hg := Hgap g (or_introl eq_refl)).
  cbn [filter].
  destruct (g_country g =? c) eqn:Hc; cbn [andb].
  - apply String.eqb_eq in Hc. specialize (Hg Hc).
    destruct (Z.ltb_spec n2 (daily_count g));
      destruct (Z.ltb_spec n1 (daily_count g));
      destruct (Z.eqb_spec (daily_count g) n1);
      cbn [List.length]; lia.
  - exact IH'.
Qed.

(** C7.  A Stage-2 row's rank is one more than the number of Stage-1 rows
    of its country with a larger daily count.  So two rows of one country
    with equal counts have the same rank, and when a row has the next lower
    count of the country (no count of that country lies strictly between),
    its rank is the rank of the tied rows plus their number: the tied
    positions are skipped. *)
Theorem category_rank_keeps_gaps (table : list complaint)
    (r1 r2 : ranking_row) :
  In r1 (RankedCategories table) ->
  In r2 (RankedCategories table) ->
  g_country (stat r1) = g_country (stat r2) ->
  let gs := DailyStats table in
  let c := g_country (stat r1) in
  category_rank r1 = (1 + count_above c (daily_count (stat r1)) gs)%Z
  /\ (daily_count (stat r1) = daily_count (stat r2) ->
      category_rank r1 = category_rank r2)
  /\ ((daily_count (stat r2) < daily_count (stat r1))%Z ->
      (forall g, In g gs -> g_country g = c ->
         ~ (daily_count (stat r2) < daily_count g
            < daily_count (stat r1))%Z) ->
      category_rank r2
      = (category_rank r1 + count_tied c (daily_count (stat r1)) gs)%Z).
Proof.
  intros H1 H2 Hc gs c. subst gs c.
  destruct (category_rank_counts_larger table r1 H1) as [_ Hr1].
  destruct (category_rank_counts_larger table r2 H2) as [_ Hr2].
  split; [exact Hr1|]. split.
  - intros Heq. rewrite Hr1, Hr2, Hc, Heq. reflexivity.
  - intros Hlt Hgap. rewrite Hr1, Hr2, <- Hc.
    rewrite (count_above_next _ _ _ _ Hlt Hgap). lia.
Qed.

Lemma category_rank_keeps_gaps_witness :
  let row cat := mkComplaint 1 "2025-04-01" "USA" "Email" cat "Open" 24
                   (10 # 1) "CUST-3000" 0 in
  let table := [row "Billing"; row "Shipping"; row "Billing";
                row "Account Access"; row "Shipping"] in
  let tied := mkRankingRow
                (mkDailyStat "2025-04-01" "Billing" "USA" 2 (20 # 1))
                1 (30 # 1) in
  let next := mkRankingRow
                (mkDailyStat "2025-04-01" "Account Access" "USA" 1 (10 # 1))
                3 (10 # 1) in
  category_rank next
  = (category_rank tied
     + count_tied "USA" (daily_count (stat tied)) (DailyStats table))%Z.
Proof.
  cbv zeta.
  apply (category_rank_keeps_gaps
           [mkComplaint 1 "2025-04-01" "USA" "Email" "Billing" "Open" 24
              (10 # 1) "CUST-3000" 0;
            mkComplaint 1 "2025-04-01" "USA" "Email" "Shipping" "Open" 24
              (10 # 1) "CUST-3000" 0;
            mkComplaint 1 "2025-04-01" "USA" "Email" "Billing" "Open" 24
              (10 # 1) "CUST-3000" 0;
            mkComplaint 1 "2025-04-01" "USA" "Email" "Account Access" "Open"
              24 (10 # 1) "CUST-3000" 0;
            mkComplaint 1 "2025-04-01" "USA" "Email" "Shipping" "Open" 24
              (10 # 1) "CUST-3000" 0]
           (mkRankingRow
              (mkDailyStat "2025-04-01" "Billing" "USA" 2 (20 # 1))
              1 (30 # 1))
           (mkRankingRow
              (mkDailyStat "2025-04-01" "Account Access" "USA" 1 (10 # 1))
              3 (10 # 1))).
  - vm_compute. auto.
  - vm_compute. auto.
  - reflexivity.
  - vm_compute. reflexivity.
  - intros g Hg _. vm_compute in Hg.
    destruct Hg as [<-|[<-|[<-|[]]]]; cbn [daily_count stat]; lia.
Defined.

(** ** The cumulative amount *)

Lemma running_sum_prefix (gs : list daily_stat) :
  forall (acc : Q) (g : daily_stat) (c : Q),
  In (g, c) (running_sum acc gs) ->
  exists before after,
    gs = (before ++ g :: after)%list
    /\ c = fold_left sql_add (map daily_amount (before ++ [g])) acc.
Proof.
  induction gs as [|h gs IH]; intros acc g c Hin; [contradiction|].
  cbn [running_sum] in Hin. destruct Hin as [Heq|Hin].
  - injection Heq as -> <-. exists [], gs. split; reflexivity.
  - destruct (IH _ _ _ Hin) as (before & after & -> & ->).
    exists (h :: before), after. split; reflexivity.
Qed.

(** From a binary64 accumulator on, sums of non-negative amounts stay at
    or above the accumulator: each addition rounds a value that is not
    below it, and rounding is monotone. *)
Lemma running_sum_lower (gs : list daily_stat) :
  Forall (fun g => (0 <= daily_amount g)%Q) gs ->
  forall (acc : Q) (g : daily_stat) (c : Q),
  (0 <= acc)%Q -> (binary64 acc == acc)%Q ->
  In (g, c) (running_sum acc gs) -> (acc <= c)%Q.
Proof.
  induction 1 as [|h gs Hh _ IH]; intros acc g c Hacc Hrep Hin;
    [contradiction|].
  assert (Hstep : (acc <= sql_add acc (daily_amount h))%Q)
    by now apply sql_add_ge.
  cbn [running_sum] in Hin. destruct Hin as [Heq|Hin].
  - injection Heq as _ <-. exact Hstep.
  - eapply Qle_trans; [exact Hstep|].
    apply (IH _ g c); [| |exact Hin].
    + now apply sql_add_nonneg.
    + now apply sql_add_binary64.
Qed.

Lemma running_sum_in_stats (gs : list daily_stat) (acc : Q)
    (g : daily_stat) (c : Q) :
  In (g, c) (running_sum acc gs) -> In g gs.
Proof.
  intros Hin. apply (in_map fst) in Hin.
  now rewrite running_sum_stats in Hin.
Qed.

(** Over rows in date order, a row with a strictly earlier date has the
    smaller sum. *)
Lemma running_sum_by_date (gs : list daily_stat) :
  StronglySorted (fun g1 g2 => date_le g1 g2 = true) gs ->
  Forall (fun g => (0 <= daily_amount g)%Q) gs ->
  forall (acc : Q) (g1 g2 : daily_stat) (c1 c2 : Q),
  (0 <= acc)%Q -> (binary64 acc == acc)%Q ->
  In (g1, c1) (running_sum acc gs) ->
  In (g2, c2) (running_sum acc gs) ->
  String.ltb (g_date g1) (g_date g2) = true ->
  (c1 <= c2)%Q.
Proof.
  induction 1 as [|h gs Hsorted IH Hhead];
    intros Hpos acc g1 g2 c1 c2 Hacc Hrep H1 H2 Hlt; [contradiction|].
  apply Forall_cons_iff in Hpos. destruct Hpos as [Hh Hpos].
  assert (Hacc' : (0 <= sql_add acc (daily_amount h))%Q)
    by now apply sql_add_nonneg.
  assert (Hrep' : (binary64 (sql_add acc (daily_amount h))
                   == sql_add acc (daily_amount h))%Q)
    by now apply sql_add_binary64.
  cbn [running_sum] in H1, H2.
  destruct H1 as [Heq1|H1], H2 as [Heq2|H2].
  - injection Heq1 as _ <-. injection Heq2 as _ <-. apply Qle_refl.
  - injection Heq1 as _ <-.
    exact (running_sum_lower gs Hpos _ _ _ Hacc' Hrep' H2).
  - exfalso. injection Heq2 as <- _.
    apply running_sum_in_stats in H1.
    rewrite Forall_forall in Hhead. specialize (Hhead g1 H1).
    unfold date_le in Hhead.
    rewrite (ltb_not_leb _ _ Hlt) in Hhead. discriminate.
  - exact (IH Hpos _ _ _ _ _ Hacc' Hrep' H1 H2 Hlt).
Qed.

(** In window order the sums never decrease. *)
Lemma running_sum_nondecreasing (gs : list daily_stat) :
  Forall (fun g => (0 <= daily_amount g)%Q) gs ->
  forall acc : Q,
  (0 <= acc)%Q -> (binary64 acc == acc)%Q ->
  StronglySorted Qle (map snd (running_sum acc gs)).
Proof.
  induction 1 as [|h gs Hh Hpos IH]; intros acc Hacc Hrep;
    cbn [running_sum map].
  - constructor.
  - assert (Hacc' : (0 <= sql_add acc (daily_amount h))%Q)
      by now apply sql_add_nonneg.
    assert (Hrep' : (binary64 (sql_add acc (daily_amount h))
                     == sql_add acc (daily_amount h))%Q)
      by now apply sql_add_binary64.
    constructor; [now apply IH|].
    apply Forall_forall. intros c Hc. apply in_map_iff in Hc.
    destruct Hc as [[g c'] [Heq Hin]]. cbn [snd] in Heq. subst c'.
    exact (running_sum_lower gs Hpos _ _ _ Hacc' Hrep' Hin).
Qed.

(** ** Stage 1 keeps amounts non-negative *)

Lemma add_to_groups_nonneg (r : complaint) (gs : list daily_stat) :
  (0 <= amount r)%Q ->
  Forall (fun g => (0 <= daily_amount g)%Q) gs ->
  Forall (fun g => (0 <= daily_amount g)%Q) (add_to_groups r gs).
Proof.
  intros Hr. induction 1 as [|g gs Hg Hgs IH]; cbn [add_to_groups].
  - constructor; [|constructor]. cbn [daily_amount].
    apply sql_add_nonneg; [apply Qle_refl | exact Hr].
  - destruct (same_group r g).
    + constructor; [|exact Hgs]. cbn [daily_amount].
      now apply sql_add_nonneg.
    + now constructor.
Qed.

Lemma group_rows_nonneg (table : list complaint) :
  Forall (fun r => (0 <= amount r)%Q) table ->
  Forall (fun g => (0 <= daily_amount g)%Q) (group_rows table).
Proof.
  unfold group_rows.
  assert (Hgen : forall gs,
             Forall (fun r => (0 <= amount r)%Q) table ->
             Forall (fun g => (0 <= daily_amount g)%Q) gs ->
             Forall (fun g => (0 <= daily_amount g)%Q)
               (fold_left (fun gs r => add_to_groups r gs) table gs)).
  { induction table as [|r table IH]; intros gs Htable Hgs; [exact Hgs|].
    apply Forall_cons_iff in Htable. destruct Htable as [Hr Htable].
    cbn [fold_left]. apply IH; [exact Htable|].
    now apply add_to_groups_nonneg. }
  intros Htable. apply Hgen; [exact Htable | constructor].
Qed.

Lemma DailyStats_nonneg (table : list complaint) :
  Forall (fun r => (0 <= amount r)%Q) table ->
  Forall (fun g => (0 <= daily_amount g)%Q) (DailyStats table).
Proof.
  intros Htable. pose proof (group_rows_nonneg table Htable) as Hall.
  rewrite Forall_forall in *. intros g Hg. apply Hall.
  unfold DailyStats in Hg. now apply (proj1 (sort_by_in group_le _ _)) in Hg.
Qed.

Lemma ranked_row_in_window (table : list complaint) (r : ranking_row) :
  In r (RankedCategories table) ->
  In (stat r, cumulative_amount r) (with_cumulative (DailyStats table)).
Proof.
  unfold RankedCategories. intros Hr. now apply with_rank_spec in Hr.
Qed.

(** ** Stage 2 has every Stage-1 row exactly once *)

Lemma rank_rows_unranked (rows : list (daily_stat * Q)) :
  forall (pos : Z) (prev : option (Z * Z)),
  map unranked (rank_rows pos prev rows) = rows.
Proof.
  induction rows as [|x rows IH]; intros pos prev; [reflexivity|].
  cbn [rank_rows map]. rewrite IH. unfold unranked.
  cbn [stat cumulative_amount]. now destruct x.
Qed.

Lemma partition_insert {A : Type} (key : A -> string) (x : A)
    (rows : list A) (keys : list string) :
  NoDup keys ->
  (In (key x) keys ->
   Permutation
     (flat_map (fun c => filter (fun y => key y =? c) (x :: rows)) keys)
     (x :: flat_map (fun c => filter (fun y => key y =? c) rows) keys))
  /\ (~ In (key x) keys ->
      flat_map (fun c => filter (fun y => key y =? c) (x :: rows)) keys
      = flat_map (fun c => filter (fun y => key y =? c) rows) keys).
Proof.
  induction 1 as [|c keys Hc Hnodup [IHin IHout]]; cbn [flat_map].
  - split; [contradiction | reflexivity].
  - change (filter (fun y => key y =? c) (x :: rows))
      with (if key x =? c
            then x :: filter (fun y => key y =? c) rows
            else filter (fun y => key y =? c) rows).
    destruct (key x =? c) eqn:Hxc.
    + apply String.eqb_eq in Hxc. subst c. split.
      * intros _. rewrite (IHout Hc). reflexivity.
      * intros Hno. elim Hno. now left.
    + apply String.eqb_neq in Hxc. split.
      * intros [Heq|Hin]; [now elim Hxc|].
        rewrite (IHin Hin). apply Permutation_sym, Permutation_middle.
      * intros Hno. rewrite IHout; [reflexivity|].
        intros Hin. apply Hno. now right.
Qed.

Lemma partition_perm {A : Type} (key : A -> string) (rows : list A)
    (keys : list string) :
  NoDup keys ->
  (forall x, In x rows -> In (key x) keys) ->
  Permutation
    (flat_map (fun c => filter (fun y => key y =? c) rows) keys) rows.
Proof.
  intros Hnodup. induction rows as [|x rows IH]; intros Hkeys.
  - clear Hkeys. induction keys as [|c keys IHk]; [reflexivity|].
    cbn [flat_map filter app]. apply IHk. now inversion Hnodup.
  - destruct (partition_insert key x rows keys Hnodup) as [Hin _].
    rewrite Hin by (apply Hkeys; now left).
    constructor. apply IH. intros y Hy. apply Hkeys. now right.
Qed.

Lemma flat_map_perm {A B : Type} (f g : A -> list B) (l : list A) :
  (forall a, Permutation (f a) (g a)) ->
  Permutation (flat_map f l) (flat_map g l).
Proof.
  intros Hfg. induction l as [|a l IH]; cbn [flat_map]; [reflexivity|].
  now apply Permutation_app.
Qed.

Lemma with_rank_perm (rows : list (daily_stat * Q)) :
  Permutation (map unranked (with_rank rows)) rows.
Proof.
  unfold with_rank. rewrite flat_map_concat_map, concat_map, map_map.
  rewrite <- flat_map_concat_map.
  transitivity
    (flat_map (fun c => filter (fun y => g_country (fst y) =? c) rows)
       (partition_keys rows)).
  - apply flat_map_perm. intros c. unfold rank_partition.
    rewrite rank_rows_unranked. apply sort_by_perm.
  - apply partition_perm.
    + unfold partition_keys.
      apply (Permutation_NoDup (Permutation_sym (sort_by_perm _ _))).
      apply NoDup_nodup.
    + intros x Hx. unfold partition_keys. apply sort_by_in, nodup_In.
      now apply (in_map (fun y => g_country (fst y))).
Qed.

(** The Stage-2 rows can be put in the order of the window: the same rows,
    each once, with the window's dates and totals in sequence. *)
Lemma ranked_rows_in_window_order (table : list complaint) :
  exists ordered,
    Permutation ordered (RankedCategories table)
    /\ map unranked ordered = with_cumulative (DailyStats table).
Proof.
  pose proof (with_rank_perm (with_cumulative (DailyStats table))) as Hp.
  apply Permutation_sym, Permutation_map_inv in Hp.
  destruct Hp as [ordered [Heq Hperm]].
  exists ordered. split; [now apply Permutation_sym | now symmetry].
Qed.

Lemma StronglySorted_map {A B : Type} (R : B -> B -> Prop) (f : A -> B)
    (l : list A) :
  StronglySorted R (map f l) ->
  StronglySorted (fun a b => R (f a) (f b)) l.
Proof.
  induction l as [|a l IH]; cbn [map]; intros Hs; [constructor|].
  apply StronglySorted_inv in Hs. destruct Hs as [Hs Hall].
  constructor; [now apply IH|].
  rewrite Forall_map in Hall. exact Hall.
Qed.

(** C8.  The running sum is one sum over the whole of Stage 1, all
    countries together, taken in ascending date order with the rows of one
    date in the order of (category, country): a row's cumulative amount is
    the binary64 sum of the daily amounts of the window up to and including
    that row.  When no amount in the store is negative, the Stage-2 rows
    (all of them, each once), taken in the order of the window, have
    cumulative amounts that never decrease, and of two Stage-2 rows with
    different dates the one with the earlier date never has the larger
    cumulative amount.  Nothing is said of two rows of the same date beyond
    the order of the window. *)
Theorem cumulative_amount_is_global_running_sum (table : list complaint) :
  Forall (fun r => (0 <= amount r)%Q) table ->
  let window := sort_by date_le (DailyStats table) in
  window = DailyStats table
  /\ StronglySorted (fun g1 g2 => group_le g1 g2 = true) window
  /\ StronglySorted
       (fun g1 g2 => String.leb (g_date g1) (g_date g2) = true) window
  /\ (forall r, In r (RankedCategories table) ->
        exists before after,
          window = (before ++ stat r :: after)%list
          /\ cumulative_amount r
             = sql_sum (map daily_amount (before ++ [stat r])))
  /\ (exists ordered,
        Permutation ordered (RankedCategories table)
        /\ map stat ordered = window
        /\ StronglySorted
             (fun r1 r2 => (cumulative_amount r1 <= cumulative_amount r2)%Q)
             ordered)
  /\ (forall r1 r2,
        In r1 (RankedCategories table) ->
        In r2 (RankedCategories table) ->
        String.ltb (g_date (stat r1)) (g_date (stat r2)) = true ->
        (cumulative_amount r1 <= cumulative_amount r2)%Q).
Proof.
  intros Htable window.
  assert (Hsorted : StronglySorted (fun g1 g2 => date_le g1 g2 = true)
                      window).
  { apply sort_by_sorted; [apply date_le_total | apply date_le_trans]. }
  assert (Hpos : Forall (fun g => (0 <= daily_amount g)%Q) window).
  { apply Forall_forall. intros g Hg.
    apply (proj1 (sort_by_in date_le _ _)) in Hg.
    pose proof (DailyStats_nonneg table Htable) as Hall.
    rewrite Forall_forall in Hall. now apply Hall. }
  assert (Hzero : (binary64 0 == 0)%Q) by reflexivity.
  split; [apply window_is_DailyStats|].
  split; [subst window; rewrite window_is_DailyStats;
          apply DailyStats_sorted|].
  split; [exact Hsorted|].
  split; [|split].
  - intros r Hr. apply ranked_row_in_window in Hr.
    exact (running_sum_prefix _ _ _ _ Hr).
  - destruct (ranked_rows_in_window_order table) as [ordered [Hperm Hmap]].
    exists ordered. split; [exact Hperm|]. split.
    + change stat with (fun r => fst (unranked r)).
      rewrite <- (map_map unranked fst), Hmap.
      apply running_sum_stats.
    + apply (StronglySorted_map Qle cumulative_amount).
      change cumulative_amount with (fun r => snd (unranked r)).
      rewrite <- (map_map unranked snd), Hmap.
      apply running_sum_nondecreasing;
        [exact Hpos | apply Qle_refl | exact Hzero].
  - intros r1 r2 H1 H2 Hlt.
    apply ranked_row_in_window in H1, H2.
    exact (running_sum_by_date window Hsorted Hpos _ _ _ _ _
             (Qle_refl 0) Hzero H1 H2 Hlt).
Qed.

Lemma cumulative_amount_is_global_running_sum_witness :
  let table :=
    [mkComplaint 1 "2025-01-02" "USA" "Email" "Billing" "Open" 24
       (3 # 10) "CUST-4000" 0;
     mkComplaint 2 "2025-01-01" "UK" "Phone" "Shipping" "Closed" 36
       (1 # 10) "CUST-4001" 1;
     mkComplaint 3 "2025-01-01" "USA" "Chat" "Billing" "Open" 12
       (2 # 10) "CUST-4002" 0] in
  exists ordered,
    Permutation ordered (RankedCategories table)
    /\ map stat ordered = sort_by date_le (DailyStats table)
    /\ StronglySorted
         (fun r1 r2 => (cumulative_amount r1 <= cumulative_amount r2)%Q)
         ordered.
Proof.
  cbv zeta.
  apply (cumulative_amount_is_global_running_sum
           [mkComplaint 1 "2025-01-02" "USA" "Email" "Billing" "Open" 24
              (3 # 10) "CUST-4000" 0;
            mkComplaint 2 "2025-01-01" "UK" "Phone" "Shipping" "Closed" 36
              (1 # 10) "CUST-4001" 1;
            mkComplaint 3 "2025-01-01" "USA" "Chat" "Billing" "Open" 12
              (2 # 10) "CUST-4002" 0]).
  repeat constructor; discriminate.
Defined.

(** C8 fails as stated: with two groups of one date in different countries
    the call returns the rows country by country, their dates ascending,
    and the cumulative amounts read 8, 5, 9.  Going through the Stage-2
    rows by ascending date does not by itself give amounts that never
    decrease. *)
Lemma same_date_rows_out_of_order :
  let table :=
    [mkComplaint 1 "2025-01-01" "USA" "Email" "Billing" "Open" 24
       (5 # 1) "CUST-5000" 0;
     mkComplaint 2 "2025-01-01" "UK" "Phone" "Shipping" "Closed" 36
       (3 # 1) "CUST-5001" 0;
     mkComplaint 3 "2025-01-02" "USA" "Chat" "Billing" "Open" 12
       (1 # 1) "CUST-5002" 0] in
  Forall (fun r => (0 <= amount r)%Q) table
  /\ exists r1 r2 r3,
       fst (get_complex_sql_metrics (mkDatabase (Some table)) fresh_world)
       = Returned [r1; r2; r3]
       /\ map (fun r => g_date (stat r)) [r1; r2; r3]
          = ["2025-01-01"; "2025-01-01"; "2025-01-02"]
       /\ map (fun r => g_country (stat r)) [r1; r2; r3]
          = ["UK"; "USA"; "USA"]
       /\ map cumulative_amount [r1; r2; r3] = [8 # 1; 5 # 1; 9 # 1]
       /\ ~ (cumulative_amount r1 <= cumulative_amount r2)%Q.
Proof.
  cbv zeta. split; [repeat constructor; discriminate|].
  do 3 eexists. split; [vm_compute; reflexivity|].
  repeat split. intros H. now apply H.
Qed.

(** ** What the analytical call returns *)

(** On a store that has the table the call returns the first hundred rows
    of [RankedCategories]: every row it returns is a Stage-2 row, with the
    rank and the cumulative amount computed over the whole of Stage 1. *)
Lemma get_complex_sql_metrics_returns (table : list complaint) (w : world) :
  fst (get_complex_sql_metrics (mkDatabase (Some table)) w)
  = Returned (firstn 100 (RankedCategories table))
  /\ (List.length (firstn 100 (RankedCategories table)) <= 100)%nat
  /\ forall r, In r (firstn 100 (RankedCategories table)) ->
               In r (RankedCategories table).
Proof.
  rewrite get_complex_sql_metrics_run. cbn [complex_sql_metrics complaints fst].
  split; [reflexivity|]. split.
  - apply firstn_le_length.
  - intros r Hr. rewrite <- (firstn_skipn 100 (RankedCategories table)).
    apply in_or_app. now left.
Qed.

(** * Further properties of the data layer *)

(** ** Widening and reordering a selection *)

Lemma allows_loosens (values values' : list string) (v : string) :
  loosens values values' ->
  allows values v = true -> allows values' v = true.
Proof.
  intros Hl. rewrite !allows_iff. intros Hv Hne'.
  destruct Hl as [->|[Hne Hincl]]; [now elim Hne'|].
  apply Hincl, Hv, Hne.
Qed.

(** X1.  Widening a selection never loses a row: when the date range grows
    and each set of values either becomes empty or, being non-empty, gains
    members, the narrower frame is the wider frame with the narrower
    selection applied to it, so all its rows are in the wider frame, in the
    same order. *)
Theorem widening_keeps_rows (table : list complaint)
    (date_range date_range' : string * string)
    (countries countries' channels channels' : list string)
    (categories categories' statuses statuses' : list string)
    (w w' : world) :
  String.leb (fst date_range') (fst date_range) = true ->
  String.leb (snd date_range) (snd date_range') = true ->
  loosens countries countries' ->
  loosens channels channels' ->
  loosens categories categories' ->
  loosens statuses statuses' ->
  exists narrow wide,
    fst (get_filtered_data (mkDatabase (Some table)) date_range
           countries channels categories statuses w) = Returned narrow
    /\ fst (get_filtered_data (mkDatabase (Some table)) date_range'
              countries' channels' categories' statuses' w')
       = Returned wide
    /\ narrow
       = filter (selected date_range countries channels categories statuses)
           wide
    /\ incl narrow wide.
Proof.
  intros Hlo Hhi Hco Hch Hca Hst.
  assert (Himp : forall r,
             selected date_range countries channels categories statuses r
             = true ->
             selected date_range' countries' channels' categories' statuses'
               r = true).
  { intros r. unfold selected, in_range. rewrite !andb_true_iff.
    intros [[[[[H1 H2] H3] H4] H5] H6]. repeat split.
    - exact (leb_trans _ _ _ Hlo H1).
    - exact (leb_trans _ _ _ H2 Hhi).
    - exact (allows_loosens _ _ _ Hco H3).
    - exact (allows_loosens _ _ _ Hch H4).
    - exact (allows_loosens _ _ _ Hca H5).
    - exact (allows_loosens _ _ _ Hst H6). }
  do 2 eexists. rewrite !get_filtered_data_returns.
  split; [reflexivity|]. split; [reflexivity|].
  assert (Heq : filter (selected date_range countries channels categories
                          statuses) table
                = filter (selected date_range countries channels categories
                            statuses)
                    (filter (selected date_range' countries' channels'
                               categories' statuses') table)).
  { induction table as [|r table IH]; [reflexivity|]. cbn [filter].
    destruct (selected date_range countries channels categories statuses r)
      eqn:Hr.
    - rewrite (Himp r Hr). cbn [filter]. rewrite Hr. now f_equal.
    - destruct (selected date_range' countries' channels' categories'
                  statuses' r); [cbn [filter]; rewrite Hr|]; exact IH. }
  split; [exact Heq|].
  intros r Hr. apply filter_In in Hr. destruct Hr as [Hr Hsel].
  apply filter_In. split; [exact Hr | exact (Himp r Hsel)].
Qed.

Lemma widening_keeps_rows_witness :
  let table :=
    [mkComplaint 1 "2025-02-10" "USA" "Email" "Billing" "Open" 24
       (50 # 1) "CUST-5000" 0;
     mkComplaint 2 "2025-03-05" "UK" "Chat" "Billing" "Closed" 30
       (75 # 1) "CUST-5001" 1] in
  exists narrow wide,
    fst (get_filtered_data (mkDatabase (Some table))
           ("2025-02-01", "2025-02-28") ["USA"] [] [] [] fresh_world)
    = Returned narrow
    /\ fst (get_filtered_data (mkDatabase (Some table))
              ("2025-01-01", "2025-12-31") ["USA"; "UK"] [] [] []
              fresh_world)
       = Returned wide
    /\ narrow
       = filter (selected ("2025-02-01", "2025-02-28") ["USA"] [] [] []) wide
    /\ incl narrow wide.
Proof.
  cbv zeta.
  apply (widening_keeps_rows
           [mkComplaint 1 "2025-02-10" "USA" "Email" "Billing" "Open" 24
              (50 # 1) "CUST-5000" 0;
            mkComplaint 2 "2025-03-05" "UK" "Chat" "Billing" "Closed" 30
              (75 # 1) "CUST-5001" 1]
           ("2025-02-01", "2025-02-28") ("2025-01-01", "2025-12-31")
           ["USA"] ["USA"; "UK"] [] [] [] [] [] [] fresh_world fresh_world).
  - reflexivity.
  - reflexivity.
  - right. split; [discriminate|]. intros v [<-|[]]. now left.
  - now left.
  - now left.
  - now left.
Defined.

Lemma allows_same_members (values values' : list string) (v : string) :
  (forall x, In x values <-> In x values') ->
  allows values v = allows values' v.
Proof.
  intros Hsame.
  assert (Hnil : values = [] <-> values' = []).
  { split; intros ->.
    - destruct values' as [|x l]; [reflexivity|].
      now elim (proj2 (Hsame x) (or_introl eq_refl)).
    - destruct values as [|x l]; [reflexivity|].
      now elim (proj1 (Hsame x) (or_introl eq_refl)). }
  apply eq_true_iff_eq. rewrite !allows_iff. split; intros H Hne.
  - apply Hsame, H. intros ->. apply Hne. now apply Hnil.
  - apply Hsame, H. intros ->. apply Hne. now apply Hnil.
Qed.

(** X2.  Only the members of the selected sets matter: two selections over
    the same date range whose sets have the same members, in whatever order
    and however often repeated, return the same frame (their statements
    may differ in the number of placeholders). *)
Theorem same_members_same_frame (db : database)
    (date_range : string * string)
    (countries countries' channels channels' : list string)
    (categories categories' statuses statuses' : list string)
    (w w' : world) :
  (forall x, In x countries <-> In x countries') ->
  (forall x, In x channels <-> In x channels') ->
  (forall x, In x categories <-> In x categories') ->
  (forall x, In x statuses <-> In x statuses') ->
  fst (get_filtered_data db date_range countries channels categories
         statuses w)
  = fst (get_filtered_data db date_range countries' channels' categories'
           statuses' w').
Proof.
  intros Hco Hch Hca Hst.
  destruct db as [[table|]].
  - rewrite !get_filtered_data_returns. f_equal. apply filter_ext.
    intros r. unfold selected.
    now rewrite (allows_same_members _ _ _ Hco),
      (allows_same_members _ _ _ Hch), (allows_same_members _ _ _ Hca),
      (allows_same_members _ _ _ Hst).
  - rewrite !get_filtered_data_run. reflexivity.
Qed.

Lemma same_members_same_frame_witness :
  let db :=
    mkDatabase
      (Some [mkComplaint 1 "2025-02-10" "USA" "Email" "Billing" "Open" 24
               (50 # 1) "CUST-5000" 0;
             mkComplaint 2 "2025-03-05" "UK" "Chat" "Billing" "Closed" 30
               (75 # 1) "CUST-5001" 1]) in
  fst (get_filtered_data db ("2025-01-01", "2025-12-31")
         ["USA"; "UK"] [] [] [] fresh_world)
  = fst (get_filtered_data db ("2025-01-01", "2025-12-31")
           ["UK"; "USA"; "UK"] [] [] [] fresh_world).
Proof.
  cbv zeta.
  apply (same_members_same_frame
           (mkDatabase
              (Some [mkComplaint 1 "2025-02-10" "USA" "Email" "Billing"
                       "Open" 24 (50 # 1) "CUST-5000" 0;
                     mkComplaint 2 "2025-03-05" "UK" "Chat" "Billing"
                       "Closed" 30 (75 # 1) "CUST-5001" 1]))
           ("2025-01-01", "2025-12-31")
           ["USA"; "UK"] ["UK"; "USA"; "UK"] [] [] [] [] [] []
           fresh_world fresh_world);
    intros x; simpl; tauto.
Defined.

(** ** Connections across calls *)

Lemma remove_fresh (l : list nat) (c : nat) :
  Forall (fun x => (x < c)%nat) l -> remove Nat.eq_dec c (c :: l) = l.
Proof.
  intros Hl. cbn [remove].
  destruct (Nat.eq_dec c c) as [_|Hne]; [|now elim Hne].
  apply notin_remove. intros Hin. rewrite Forall_forall in Hl.
  apply Hl in Hin. cbv beta in Hin. lia.
Qed.

Lemma wf_world_step (l : list nat) (c : nat) :
  Forall (fun x => (x < c)%nat) l -> Forall (fun x => (x < S c)%nat) l.
Proof. apply Forall_impl. intros x Hx. lia. Qed.

Lemma connect_run_close_leaves {A : Type} (result : option A) (w : world)
    (run : outcome A * world) :
  wf_world w ->
  run = (let c := next_conn w in
         match result with
         | Some df =>
             (Returned df,
              mkWorld (S c) (remove Nat.eq_dec c (c :: open_conns w))
                (history w ++ [Connected c; Queried c; Closed c]))
         | None =>
             (Raised "DatabaseError",
              mkWorld (S c) (c :: open_conns w)
                (history w ++ [Connected c; Queried c]))
         end) ->
  leaves w run.
Proof.
  unfold wf_world, leaves. intros Hwf ->. cbv zeta.
  destruct result as [df|]; cbn [fst snd next_conn open_conns].
  - rewrite (remove_fresh _ _ Hwf).
    split; [now apply wf_world_step|]. split; reflexivity.
  - split; [|split; reflexivity].
    constructor; [cbn; lia | now apply wf_world_step].
Qed.

Lemma init_filter_choices_run (db : database) (w : world) :
  init_filter_choices db w
  = let c := next_conn w in
    match select_distinct_dimensions db with
    | Some df =>
        (Returned
           (mkFilterChoices
              (sorted (unique String.eqb (map d_country df)))
              (sorted (unique String.eqb (map d_channel df)))
              (sorted (unique String.eqb (map d_category df)))
              (sorted (unique String.eqb (map d_status df)))),
         mkWorld (S c) (remove Nat.eq_dec c (c :: open_conns w))
           (history w ++ [Connected c; Queried c; Closed c]))
    | None =>
        (Raised "DatabaseError",
         mkWorld (S c) (c :: open_conns w)
           (history w ++ [Connected c; Queried c]))
    end.
Proof.
  unfold init_filter_choices, bind, sqlite3_connect, run_on, conn_close, ret.
  cbn [next_conn open_conns history existsb].
  rewrite Nat.eqb_refl. cbn [orb].
  destruct (select_distinct_dimensions db) as [df|];
    cbn [next_conn open_conns history]; now rewrite <- !app_assoc.
Qed.

Lemma init_filter_choices_leaves (db : database) (w : world) :
  wf_world w -> leaves w (init_filter_choices db w).
Proof.
  intros Hwf. rewrite init_filter_choices_run. cbv zeta.
  unfold wf_world, leaves in *.
  destruct (select_distinct_dimensions db) as [df|];
    cbn [fst snd next_conn open_conns].
  - rewrite (remove_fresh _ _ Hwf).
    split; [now apply wf_world_step|]. split; reflexivity.
  - split; [|split; reflexivity].
    constructor; [cbn; lia | now apply wf_world_step].
Qed.

(** X3.  In a world where every open connection came from an earlier
    connect, each of the three store accesses of [app.py] keeps it so and
    changes the open connections in one of two ways only: a call that
    returns leaves them exactly as it found them, and a call that raises
    leaves exactly one more open, the one it opened itself. *)
Theorem calls_keep_connections_accounted (db : database)
    (date_range : string * string)
    (countries channels categories statuses : list string) (w : world) :
  wf_world w ->
  leaves w (get_filtered_data db date_range countries channels categories
              statuses w)
  /\ leaves w (get_complex_sql_metrics db w)
  /\ leaves w (init_filter_choices db w).
Proof.
  intros Hwf. split; [|split].
  - exact (connect_run_close_leaves _ w _ Hwf
             (get_filtered_data_run db date_range countries channels
                categories statuses w)).
  - exact (connect_run_close_leaves _ w _ Hwf
             (get_complex_sql_metrics_run db w)).
  - exact (init_filter_choices_leaves db w Hwf).
Qed.

Lemma calls_keep_connections_accounted_witness :
  leaves fresh_world
    (get_filtered_data (mkDatabase None) ("2025-01-01", "2025-12-31")
       ["USA"] [] [] [] fresh_world)
  /\ leaves fresh_world (get_complex_sql_metrics (mkDatabase None) fresh_world)
  /\ leaves fresh_world (init_filter_choices (mkDatabase None) fresh_world).
Proof.
  apply (calls_keep_connections_accounted (mkDatabase None)
           ("2025-01-01", "2025-12-31") ["USA"] [] [] [] fresh_world).
  constructor.
Defined.

(** ** The filter choices *)

Section Unique.

Context {A : Type} (eqb : A -> A -> bool).

Hypothesis eqb_eq : forall a b, eqb a b = true <-> a = b.

Lemma unique_in (x : A) (l : list A) : In x (unique eqb l) <-> In x l.
Proof.
  induction l as [|y l IH]; cbn [unique]; [reflexivity|].
  cbn [In]. rewrite filter_In, IH, negb_true_iff. split.
  - intros [H|[H _]]; [now left | now right].
  - intros [H|H]; [now left|].
    destruct (eqb x y) eqn:Hxy.
    + left. symmetry. now apply eqb_eq.
    + right. now split.
Qed.

Lemma unique_nodup (l : list A) : NoDup (unique eqb l).
Proof.
  induction l as [|y l IH]; cbn [unique]; constructor.
  - rewrite filter_In, negb_true_iff. intros [_ H].
    rewrite (proj2 (eqb_eq y y) eq_refl) in H. discriminate.
  - now apply NoDup_filter.
Qed.

End Unique.

Lemma dimension_row_eqb_eq (a b : dimension_row) :
  dimension_row_eqb a b = true <-> a = b.
Proof.
  unfold dimension_row_eqb. rewrite !andb_true_iff, !String.eqb_eq.
  destruct a, b; cbn. split.
  - intros [[[-> ->] ->] ->]. reflexivity.
  - intros H. injection H as -> -> -> ->. repeat split.
Qed.

Lemma leb_neq_ltb (a b : string) :
  String.leb a b = true -> a <> b -> String.ltb a b = true.
Proof.
  unfold String.leb, String.ltb. intros Hle Hne.
  destruct (String.compare a b) eqn:Hc; try congruence.
  now apply String.compare_eq_iff in Hc.
Qed.

(** A sorted list without repetition ascends strictly. *)
Lemma sorted_strictly (l : list string) :
  NoDup l ->
  StronglySorted (fun a b => String.ltb a b = true) (sorted l).
Proof.
  intros Hnodup. unfold sorted.
  assert (Hsorted : StronglySorted (fun a b => String.leb a b = true)
                      (sort_by String.leb l)).
  { apply sort_by_sorted; [apply String.leb_total | apply leb_trans]. }
  assert (Hnd : NoDup (sort_by String.leb l)).
  { eapply Permutation_NoDup; [|exact Hnodup].
    apply Permutation_sym, sort_by_perm. }
  induction Hsorted as [|a s Hs IH Hall]; constructor.
  - apply IH. now inversion Hnd.
  - apply NoDup_cons_iff in Hnd. destruct Hnd as [Ha _].
    rewrite Forall_forall in *. intros b Hb.
    apply leb_neq_ltb; [now apply Hall|]. intros ->. now apply Ha.
Qed.

Lemma choices_members (col : dimension_row -> string)
    (get : complaint -> string) (table : list complaint) (v : string) :
  (forall r, col (dimensions_of r) = get r) ->
  In v (sorted (unique String.eqb
                  (map col (unique dimension_row_eqb
                              (map dimensions_of table)))))
  <-> exists r, In r table /\ get r = v.
Proof.
  intros Hcol. unfold sorted.
  rewrite sort_by_in, (unique_in String.eqb String.eqb_eq), in_map_iff.
  split.
  - intros [d [Hd Hin]].
    apply (proj1 (unique_in _ dimension_row_eqb_eq _ _)) in Hin.
    apply in_map_iff in Hin. destruct Hin as [r [<- Hr]].
    exists r. split; [exact Hr|]. now rewrite <- Hcol.
  - intros [r [Hr <-]]. exists (dimensions_of r). split; [apply Hcol|].
    apply (unique_in _ dimension_row_eqb_eq). now apply in_map.
Qed.

(** X5.  On a store with the table, the effect that fills the four
    selectize inputs offers, for each dimension, exactly the values that
    occur in that column of the store, each once, in strictly ascending
    byte order. *)
Theorem filter_choices_are_the_values_present (table : list complaint)
    (w : world) :
  exists choices,
    fst (init_filter_choices (mkDatabase (Some table)) w) = Returned choices
    /\ strictly_ascending (country_choices choices)
    /\ strictly_ascending (channel_choices choices)
    /\ strictly_ascending (category_choices choices)
    /\ strictly_ascending (status_choices choices)
    /\ (forall v, In v (country_choices choices)
                  <-> exists r, In r table /\ country r = v)
    /\ (forall v, In v (channel_choices choices)
                  <-> exists r, In r table /\ channel r = v)
    /\ (forall v, In v (category_choices choices)
                  <-> exists r, In r table /\ category r = v)
    /\ (forall v, In v (status_choices choices)
                  <-> exists r, In r table /\ status r = v).
Proof.
  eexists. rewrite init_filter_choices_run.
  cbn [select_distinct_dimensions complaints fst].
  split; [reflexivity|].
  cbn [country_choices channel_choices category_choices status_choices].
  unfold strictly_ascending.
  repeat split;
    try (apply sorted_strictly, (unique_nodup String.eqb String.eqb_eq));
    try (now apply choices_members);
    try (now apply (proj1 (choices_members _ _ _ _ (fun r => eq_refl))));
    try (now apply (proj2 (choices_members _ _ _ _ (fun r => eq_refl)))).
Qed.

Lemma allows_all_present (values : list string) (v : string) :
  In v values -> allows values v = true.
Proof. intros Hv. apply allows_iff. now intros _. Qed.

Lemma selected_ext (table : list complaint)
    (date_range : string * string)
    (co co' ch ch' ca ca' st st' : list string) :
  (forall r, In r table -> allows co (country r) = allows co' (country r)) ->
  (forall r, In r table -> allows ch (channel r) = allows ch' (channel r)) ->
  (forall r, In r table ->
             allows ca (category r) = allows ca' (category r)) ->
  (forall r, In r table -> allows st (status r) = allows st' (status r)) ->
  filter (selected date_range co ch ca st) table
  = filter (selected date_range co' ch' ca' st') table.
Proof.
  intros Hco Hch Hca Hst. apply filter_ext_in. intros r Hr.
  unfold selected.
  now rewrite (Hco r Hr), (Hch r Hr), (Hca r Hr), (Hst r Hr).
Qed.

(** X6.  Selecting every value a selectize input offers is the same as
    selecting none: with the choices computed from the store, putting all
    the offered values of any of the four dimensions in place of the empty
    selection returns the same frame, whatever the date range and the
    other selections are. *)
Theorem selecting_every_choice_restricts_nothing (table : list complaint)
    (date_range : string * string)
    (countries channels categories statuses : list string)
    (w w1 w2 : world) :
  let db := mkDatabase (Some table) in
  exists choices,
    fst (init_filter_choices db w) = Returned choices
    /\ fst (get_filtered_data db date_range (country_choices choices)
              channels categories statuses w1)
       = fst (get_filtered_data db date_range [] channels categories
                statuses w2)
    /\ fst (get_filtered_data db date_range countries
              (channel_choices choices) categories statuses w1)
       = fst (get_filtered_data db date_range countries [] categories
                statuses w2)
    /\ fst (get_filtered_data db date_range countries channels
              (category_choices choices) statuses w1)
       = fst (get_filtered_data db date_range countries channels []
                statuses w2)
    /\ fst (get_filtered_data db date_range countries channels categories
              (status_choices choices) w1)
       = fst (get_filtered_data db date_range countries channels categories
                [] w2).
Proof.
  cbv zeta. eexists. rewrite init_filter_choices_run.
  cbn [select_distinct_dimensions complaints fst].
  split; [reflexivity|].
  cbn [country_choices channel_choices category_choices status_choices].
  rewrite !get_filtered_data_returns.
  repeat split; f_equal; apply selected_ext; intros r Hr;
    try reflexivity;
    apply allows_all_present;
    apply (proj2 (choices_members _ _ _ _ (fun r => eq_refl)));
    now exists r.
Qed.

(** ** The count card reads back as the count *)





(** ** Extreme escalation rates *)

(** The rendering depends on the value only, not on how the fraction is
    written. *)
Lemma format_fixed_comp (decimals : nat) (separators : bool) (x y : Q) :
  (x == y)%Q ->
  format_fixed decimals separators x = format_fixed decimals separators y.
Proof.
  intros Hxy. unfold format_fixed.
  assert (Hr : round_half_even
                 (Qabs x * inject_Z (10 ^ Z.of_nat decimals))
               = round_half_even
                   (Qabs y * inject_Z (10 ^ Z.of_nat decimals))).
  { apply round_half_even_comp. now rewrite Hxy. }
  rewrite Hr.
  destruct (Qlt_le_dec x 0) as [Hx|Hx], (Qlt_le_dec y 0) as [Hy|Hy];
    try reflexivity; exfalso.
  - rewrite Hxy in Hx. exact (Qlt_not_le _ _ Hx Hy).
  - rewrite <- Hxy in Hy. exact (Qlt_not_le _ _ Hy Hx).
Qed.

Lemma sum_int_constant (col : complaint -> Z) (df : DataFrame) (v : Z) :
  (forall r, In r df -> col r = v) ->
  sum_int col df = (v * len df)%Z.
Proof.
  unfold len. induction df as [|r df IH]; intros Hall.
  - cbn. lia.
  - rewrite sum_int_cons, (Hall r (or_introl eq_refl)), IH.
    + cbn [List.length]. lia.
    + intros r' Hr'. apply Hall. now right.
Qed.

Lemma escalation_rate_of_value (df : DataFrame) (x : Q) :
  df <> [] ->
  (inject_Z (sum_int is_escalated df) / inject_Z (len df) * 100 == x)%Q ->
  escalation_rate df = Some (format_fixed 1 false x ++ "%").
Proof.
  intros Hne Hx. pose proof (len_pos df Hne) as Hn.
  unfold escalation_rate, rate.
  assert (Hlen : (len df =? 0)%Z = false) by (apply Z.eqb_neq; lia).
  rewrite Hlen, (divide_by_positive _ _ Hn).
  now rewrite (format_fixed_comp 1 false _ _ Hx).
Qed.

(** X8.  On a non-empty frame in which every complaint is escalated the
    rate card reads 100.0%, and on one in which none is it reads 0.0%. *)
Theorem escalation_rate_extremes (df : DataFrame) :
  df <> [] ->
  ((forall r, In r df -> is_escalated r = 1%Z) ->
   escalation_rate df = Some "100.0%")
  /\ ((forall r, In r df -> is_escalated r = 0%Z) ->
      escalation_rate df = Some "0.0%").
Proof.
  intros Hne. pose proof (len_pos df Hne) as Hn.
  assert (Hq : ~ (inject_Z (len df) == 0)%Q).
  { unfold Qeq. simpl. lia. }
  split; intros Hall.
  - rewrite (escalation_rate_of_value df 100 Hne); [reflexivity|].
    rewrite (sum_int_constant _ _ _ Hall), Z.mul_1_l. now field.
  - rewrite (escalation_rate_of_value df 0 Hne); [reflexivity|].
    rewrite (sum_int_constant _ _ _ Hall), Z.mul_0_l. now field.
Qed.

Lemma escalation_rate_extremes_witness :
  escalation_rate
    [mkComplaint 1 "2025-05-01" "France" "Web Form" "Account Access"
       "Escalated" 60 (12 # 1) "CUST-6000" 1;
     mkComplaint 2 "2025-05-02" "France" "Phone" "Billing"
       "Escalated" 72 (15 # 1) "CUST-6001" 1;
     mkComplaint 3 "2025-05-03" "Brazil" "Phone" "Billing"
       "Escalated" 80 (18 # 1) "CUST-6002" 1]
  = Some "100.0%".
Proof.
  apply (escalation_rate_extremes
           [mkComplaint 1 "2025-05-01" "France" "Web Form" "Account Access"
              "Escalated" 60 (12 # 1) "CUST-6000" 1;
            mkComplaint 2 "2025-05-02" "France" "Phone" "Billing"
              "Escalated" 72 (15 # 1) "CUST-6001" 1;
            mkComplaint 3 "2025-05-03" "Brazil" "Phone" "Billing"
              "Escalated" 80 (18 # 1) "CUST-6002" 1]).
  - discriminate.
  - intros r [<-|[<-|[<-|[]]]]; reflexivity.
Defined.

(** ** The mean SLA *)

Lemma sum_int_between (col : complaint -> Z) (df : DataFrame) (lo hi : Z) :
  (forall r, In r df -> (lo <= col r <= hi)%Z) ->
  (lo * len df <= sum_int col df <= hi * len df)%Z.
Proof.
  unfold len. induction df as [|r df IH]; intros Hall.
  - cbn. lia.
  - rewrite sum_int_cons.
    assert (Hr := Hall r (or_introl eq_refl)).
    assert (Hdf := IH (fun r' Hr' => Hall r' (or_intror Hr'))).
    cbn [List.length]. lia.
Qed.

Lemma format_tenths (x : Q) (lo hi : Z) :
  (0 <= lo)%Z -> (inject_Z lo <= x <= inject_Z hi)%Q ->
  exists k,
    (10 * lo <= k <= 10 * hi)%Z
    /\ format_fixed 1 false x = digits (k / 10) ++ "." ++ digits (k mod 10).
Proof.
  intros Hlo0 [Hlo Hhi].
  assert (Hx : (0 <= x)%Q).
  { eapply Qle_trans; [|exact Hlo].
    change 0%Q with (inject_Z 0). now rewrite <- Zle_Qle. }
  exists (round_half_even (Qabs x * inject_Z 10)). split.
  - split.
    + apply round_half_even_ge.
      rewrite (Qabs_pos x Hx), Z.mul_comm, inject_Z_mult.
      apply Qmult_le_compat_r; [exact Hlo | discriminate].
    + apply round_half_even_le.
      rewrite (Qabs_pos x Hx), Z.mul_comm, inject_Z_mult.
      apply Qmult_le_compat_r; [exact Hhi | discriminate].
  - unfold format_fixed. change (10 ^ Z.of_nat 1)%Z with 10%Z.
    destruct (Qlt_le_dec x 0) as [Hneg|_].
    + exfalso. exact (Qlt_not_le _ _ Hneg Hx).
    + rewrite zero_pad_digit by (apply Z.mod_pos_bound; lia).
      reflexivity.
Qed.

(** X9.  On a non-empty frame whose [sla_hours] are whole numbers between
    [lo] and [hi], not negative and small enough for their sum to be exact
    in binary64, the mean of the SLA card is the rounded quotient of the
    sum by the number of rows; it lies between [lo] and [hi], and the card
    shows a number of tenths between [lo].0 and [hi].0. *)
Theorem avg_sla_between_extremes (df : DataFrame) (lo hi : Z) :
  df <> [] ->
  (0 <= lo)%Z ->
  (hi * len df <= 2 ^ 53)%Z ->
  (forall r, In r df -> (lo <= sla_hours r <= hi)%Z) ->
  exists x,
    mean_int sla_hours df = Some x
    /\ x = binary64 (inject_Z (sum_int sla_hours df) / inject_Z (len df))
    /\ (inject_Z lo <= x <= inject_Z hi)%Q
    /\ avg_sla df = Some (format_fixed 1 false x)
    /\ exists k,
         (10 * lo <= k <= 10 * hi)%Z
         /\ avg_sla df
            = Some (digits (k / 10) ++ "." ++ digits (k mod 10)).
Proof.
  intros Hne Hlo0 Hexact Hall. pose proof (len_pos df Hne) as Hn.
  pose proof (sum_int_between sla_hours df lo hi Hall) as [Hlo Hhi].
  assert (Hn' : (0 < inject_Z (len df))%Q).
  { change 0%Q with (inject_Z 0). rewrite <- Zlt_Qlt. exact Hn. }
  assert (Hlohi : (lo <= hi)%Z) by nia.
  assert (Hhi53 : (hi <= 2 ^ 53)%Z) by nia.
  set (q := (inject_Z (sum_int sla_hours df) / inject_Z (len df))%Q).
  assert (Hq : (inject_Z lo <= q <= inject_Z hi)%Q).
  { split.
    - apply Qle_shift_div_l; [exact Hn'|].
      rewrite <- inject_Z_mult, <- Zle_Qle. exact Hlo.
    - apply Qle_shift_div_r; [exact Hn'|].
      rewrite <- inject_Z_mult, <- Zle_Qle. exact Hhi. }
  assert (Hlo' : (0 <= inject_Z lo)%Q).
  { change 0%Q with (inject_Z 0). now rewrite <- Zle_Qle. }
  assert (Hx : (inject_Z lo <= binary64 q <= inject_Z hi)%Q).
  { destruct Hq as [Hq1 Hq2]. split.
    - rewrite <- (binary64_integer lo) by lia.
      now apply binary64_mono.
    - rewrite <- (binary64_integer hi) by lia.
      apply binary64_mono; [|exact Hq2].
      eapply Qle_trans; [exact Hlo' | exact Hq1]. }
  assert (Hmean : mean_int sla_hours df = Some (binary64 q)).
  { unfold mean_int. now rewrite (divide_by_positive _ _ Hn). }
  assert (Hcard : avg_sla df = Some (format_fixed 1 false (binary64 q))).
  { unfold avg_sla.
    assert (Hlen : (len df =? 0)%Z = false) by (apply Z.eqb_neq; lia).
    now rewrite Hlen, Hmean. }
  exists (binary64 q). split; [exact Hmean|]. split; [reflexivity|].
  split; [exact Hx|]. split; [exact Hcard|].
  destruct (format_tenths _ lo hi Hlo0 Hx) as [k [Hk Hfmt]].
  exists k. split; [exact Hk|]. now rewrite Hcard, Hfmt.
Qed.

Lemma avg_sla_between_extremes_witness :
  let row h := mkComplaint 1 "2025-06-01" "Germany" "Email" "Shipping"
                 "Open" h (20 # 1) "CUST-7000" 0 in
  let df := (repeat (row 12%Z) 19 ++ [row 13%Z])%list in
  exists x,
    mean_int sla_hours df = Some x
    /\ x = binary64 (inject_Z (sum_int sla_hours df) / inject_Z (len df))
    /\ (inject_Z 12 <= x <= inject_Z 13)%Q
    /\ avg_sla df = Some (format_fixed 1 false x)
    /\ exists k,
         (10 * 12 <= k <= 10 * 13)%Z
         /\ avg_sla df
            = Some (digits (k / 10) ++ "." ++ digits (k mod 10)).
Proof.
  cbv zeta.
  apply (avg_sla_between_extremes
           (repeat
              (mkComplaint 1 "2025-06-01" "Germany" "Email" "Shipping"
                 "Open" 12 (20 # 1) "CUST-7000" 0) 19
            ++ [mkComplaint 1 "2025-06-01" "Germany" "Email" "Shipping"
                  "Open" 13 (20 # 1) "CUST-7000" 0])%list
           12 13).
  - discriminate.
  - lia.
  - vm_compute. discriminate.
  - intros r Hr. apply in_app_or in Hr.
    destruct Hr as [Hr|[<-|[]]]; [|cbn [sla_hours]; lia].
    apply repeat_spec in Hr. subst r. cbn [sla_hours]. lia.
Defined.

(** The mean of twenty rows whose hours add up to 241 is the binary64
    number next to 12.05, which lies above it: the card reads 12.1. *)
Lemma avg_sla_rounds_the_binary64_mean :
  let row h := mkComplaint 1 "2025-06-01" "Germany" "Email" "Shipping"
                 "Open" h (20 # 1) "CUST-7000" 0 in
  avg_sla (repeat (row 12%Z) 19 ++ [row 13%Z])%list = Some "12.1".
Proof. vm_compute. reflexivity. Qed.

(** ** Every card has a number *)

(** X10.  No frame leaves a card without a number: the rate and the mean
    divide by [len(df)] only behind the guard for the empty frame, so all
    four cards render a text for every frame. *)
Theorem every_card_renders (df : DataFrame) :
  exists count_text rate_text sla_text amount_text,
    total_complaints df = Some count_text
    /\ escalation_rate df = Some rate_text
    /\ avg_sla df = Some sla_text
    /\ total_amount df = Some amount_text.
Proof.
  unfold total_complaints, escalation_rate, avg_sla, total_amount, rate,
    mean_int.
  destruct (len df =? 0)%Z eqn:Hlen.
  - repeat eexists.
  - assert (Hn : (0 < len df)%Z).
    { apply Z.eqb_neq in Hlen. unfold len in *. lia. }
    rewrite !(divide_by_positive _ _ Hn). repeat eexists.
Qed.

(** ** Grouping and counting *)

Section Tally.

Context {K : Type} (cmp : K -> K -> comparison).

Hypothesis cmp_eq : forall a b, cmp a b = Eq <-> a = b.
Hypothesis cmp_antisym : forall a b, cmp a b = CompOpp (cmp b a).
Hypothesis cmp_lt_trans :
  forall a b c, cmp a b = Lt -> cmp b c = Lt -> cmp a c = Lt.

Lemma cmp_refl (a : K) : cmp a a = Eq.
Proof. now apply cmp_eq. Qed.

Lemma cmp_gt_lt (a b : K) : cmp a b = Gt -> cmp b a = Lt.
Proof. intros H. rewrite cmp_antisym, H. reflexivity. Qed.

Lemma tally_keys (k k' : K) (l : list (K * Z)) :
  In k' (map fst (tally cmp k l)) <-> k' = k \/ In k' (map fst l).
Proof.
  induction l as [|[k0 n] l IH]; cbn [tally map fst In].
  - intuition.
  - destruct (cmp k k0) eqn:Hc; cbn [map fst In].
    + apply cmp_eq in Hc. subst k0. intuition.
    + intuition.
    + rewrite IH. intuition.
Qed.

Lemma tally_sorted (k : K) (l : list (K * Z)) :
  StronglySorted (fun a b => cmp a b = Lt) (map fst l) ->
  StronglySorted (fun a b => cmp a b = Lt) (map fst (tally cmp k l)).
Proof.
  induction l as [|[k0 n] l IH]; cbn [tally map fst]; intros Hs.
  - repeat constructor.
  - apply StronglySorted_inv in Hs. destruct Hs as [Hs Hall].
    destruct (cmp k k0) eqn:Hc; cbn [map fst].
    + now constructor.
    + constructor; [now constructor|].
      constructor; [exact Hc|].
      eapply Forall_impl; [|exact Hall]. intros x Hx.
      exact (cmp_lt_trans _ _ _ Hc Hx).
    + constructor; [now apply IH|].
      apply Forall_forall. intros x Hx. apply tally_keys in Hx.
      destruct Hx as [->|Hx]; [now apply cmp_gt_lt|].
      rewrite Forall_forall in Hall. now apply Hall.
Qed.

Lemma size_of_absent (k : K) (l : list (K * Z)) :
  Forall (fun x => cmp k x = Lt) (map fst l) -> size_of cmp k l = 0%Z.
Proof.
  induction l as [|[k0 n] l IH]; cbn [size_of map fst]; intros Hall;
    [reflexivity|].
  apply Forall_cons_iff in Hall. destruct Hall as [Hk Hall].
  rewrite Hk. now apply IH.
Qed.

Lemma size_of_tally (k k' : K) (l : list (K * Z)) :
  StronglySorted (fun a b => cmp a b = Lt) (map fst l) ->
  size_of cmp k' (tally cmp k l)
  = (size_of cmp k' l + match cmp k' k with Eq => 1 | _ => 0 end)%Z.
Proof.
  induction l as [|[k0 n] l IH]; cbn [tally map fst]; intros Hs.
  - cbn [size_of]. destruct (cmp k' k); reflexivity.
  - apply StronglySorted_inv in Hs. destruct Hs as [Hs Hall].
    destruct (cmp k k0) eqn:Hc; cbn [size_of].
    + apply cmp_eq in Hc. subst k0. destruct (cmp k' k); lia.
    + destruct (cmp k' k) eqn:Hk'; try lia.
      apply cmp_eq in Hk'. subst k'. rewrite Hc.
      rewrite size_of_absent; [lia|].
      eapply Forall_impl; [|exact Hall]. intros x Hx.
      exact (cmp_lt_trans _ _ _ Hc Hx).
    + destruct (cmp k' k0) eqn:Hk0.
      * apply cmp_eq in Hk0. subst k0.
        rewrite (cmp_gt_lt _ _ Hc). lia.
      * now apply IH.
      * now apply IH.
Qed.

Lemma size_of_member (k : K) (n : Z) (l : list (K * Z)) :
  StronglySorted (fun a b => cmp a b = Lt) (map fst l) ->
  In (k, n) l -> size_of cmp k l = n.
Proof.
  induction l as [|[k0 n0] l IH]; cbn [map fst size_of]; intros Hs Hin;
    [contradiction|].
  apply StronglySorted_inv in Hs. destruct Hs as [Hs Hall].
  destruct Hin as [Heq|Hin].
  - injection Heq as -> ->. now rewrite cmp_refl.
  - assert (Hlt : cmp k0 k = Lt).
    { rewrite Forall_forall in Hall. apply Hall.
      now apply (in_map fst) in Hin. }
    rewrite cmp_antisym, Hlt. cbn [CompOpp]. now apply IH.
Qed.

Lemma group_size_sorted (keys : list K) :
  StronglySorted (fun a b => cmp a b = Lt)
    (map fst (group_size cmp keys)).
Proof.
  induction keys as [|k keys IH]; cbn [group_size fold_right].
  - constructor.
  - now apply tally_sorted.
Qed.

Lemma group_size_keys (k : K) (keys : list K) :
  In k (map fst (group_size cmp keys)) <-> In k keys.
Proof.
  induction keys as [|k0 keys IH]; cbn [group_size fold_right In].
  - reflexivity.
  - fold (group_size cmp keys). rewrite tally_keys, IH. intuition.
Qed.

Lemma size_of_group_size (k : K) (keys : list K) :
  size_of cmp k (group_size cmp keys) = count_key cmp k keys.
Proof.
  unfold count_key.
  induction keys as [|k0 keys IH]; cbn [group_size fold_right filter].
  - reflexivity.
  - fold (group_size cmp keys).
    rewrite size_of_tally by apply group_size_sorted. rewrite IH.
    rewrite (cmp_antisym k0 k).
    destruct (cmp k k0); cbn [CompOpp List.length]; lia.
Qed.

Lemma count_key_member (k : K) (keys : list K) :
  In k keys -> (1 <= count_key cmp k keys)%Z.
Proof.
  unfold count_key. induction keys as [|k0 keys IH]; [contradiction|].
  intros [->|Hin]; cbn [filter].
  - rewrite cmp_refl. cbn [List.length]. lia.
  - specialize (IH Hin). destruct (cmp k0 k); cbn [List.length]; lia.
Qed.

(** The table of a grouping: a key is listed exactly when it occurs, and
    then with the number of its occurrences. *)
Lemma group_size_spec (k : K) (n : Z) (keys : list K) :
  In (k, n) (group_size cmp keys)
  <-> In k keys /\ n = count_key cmp k keys.
Proof.
  split.
  - intros Hin. split.
    + apply group_size_keys. now apply (in_map fst) in Hin.
    + rewrite <- size_of_group_size. symmetry.
      now apply size_of_member; [apply group_size_sorted|].
  - intros [Hk ->]. apply group_size_keys in Hk.
    apply in_map_iff in Hk. destruct Hk as [[k' n'] [Hfst Hin]].
    cbn [fst] in Hfst. subst k'.
    rewrite <- size_of_group_size.
    now rewrite (size_of_member _ _ _ (group_size_sorted keys) Hin).
Qed.

Lemma sum_counts_tally (k : K) (l : list (K * Z)) :
  sum_counts (tally cmp k l) = (sum_counts l + 1)%Z.
Proof.
  unfold sum_counts.
  induction l as [|[k0 n] l IH]; cbn [tally fold_right snd]; [lia|].
  destruct (cmp k k0); cbn [fold_right snd]; lia.
Qed.

Lemma sum_counts_group_size (keys : list K) :
  sum_counts (group_size cmp keys) = Z.of_nat (List.length keys).
Proof.
  induction keys as [|k keys IH]; cbn [group_size fold_right].
  - reflexivity.
  - fold (group_size cmp keys). rewrite sum_counts_tally, IH.
    cbn [List.length]. lia.
Qed.

Lemma group_size_nodup (keys : list K) :
  NoDup (map fst (group_size cmp keys)).
Proof.
  pose proof (group_size_sorted keys) as Hs.
  induction Hs as [|a l Hs IH Hall]; constructor; [|exact IH].
  intros Hin. rewrite Forall_forall in Hall. apply Hall in Hin.
  rewrite cmp_refl in Hin. discriminate.
Qed.

End Tally.

(** ** The key orders *)

Lemma compare_pair_eq (a b : string * string) :
  compare_pair a b = Eq <-> a = b.
Proof.
  unfold compare_pair. destruct a as [a1 a2], b as [b1 b2]. cbn [fst snd].
  split.
  - destruct (String.compare a1 b1) eqn:H1; try discriminate.
    intros H2. apply string_compare_eq in H1, H2. now subst.
  - intros H. injection H as -> ->. now rewrite !string_compare_refl.
Qed.

Lemma compare_pair_antisym (a b : string * string) :
  compare_pair a b = CompOpp (compare_pair b a).
Proof.
  unfold compare_pair.
  rewrite (String.compare_antisym (fst a) (fst b)).
  destruct (String.compare (fst b) (fst a)); cbn [CompOpp];
    [apply String.compare_antisym | reflexivity | reflexivity].
Qed.

Lemma compare_pair_lt_trans (a b c : string * string) :
  compare_pair a b = Lt -> compare_pair b c = Lt -> compare_pair a c = Lt.
Proof.
  unfold compare_pair.
  destruct (String.compare (fst a) (fst b)) eqn:Hab; try discriminate;
    destruct (String.compare (fst b) (fst c)) eqn:Hbc; try discriminate;
    intros H1 H2.
  - apply string_compare_eq in Hab, Hbc. rewrite Hab, Hbc.
    rewrite string_compare_refl.
    exact (string_compare_lt_trans _ _ _ H1 H2).
  - apply string_compare_eq in Hab. now rewrite Hab, Hbc.
  - apply string_compare_eq in Hbc. now rewrite <- Hbc, Hab.
  - now rewrite (string_compare_lt_trans _ _ _ Hab Hbc).
Qed.

(** ** The tables behind the charts *)

Lemma count_key_rows_with (col : complaint -> string) (v : string)
    (df : DataFrame) :
  count_key String.compare v (map col df) = rows_with col v df.
Proof.
  unfold count_key, rows_with. f_equal.
  induction df as [|r df IH]; cbn [map filter]; [reflexivity|].
  destruct (col r =? v) eqn:Heq.
  - apply String.eqb_eq in Heq. rewrite Heq, string_compare_refl.
    cbn [List.length]. now rewrite IH.
  - apply String.eqb_neq in Heq.
    destruct (String.compare (col r) v) eqn:Hc; try exact IH.
    now apply string_compare_eq in Hc.
Qed.

Lemma group_size_column (col : complaint -> string) (df : DataFrame)
    (v : string) (n : Z) :
  In (v, n) (group_size String.compare (map col df))
  <-> (exists r, In r df /\ col r = v) /\ n = rows_with col v df.
Proof.
  rewrite (group_size_spec String.compare string_compare_eq
             String.compare_antisym string_compare_lt_trans).
  rewrite count_key_rows_with, in_map_iff.
  split; intros [[r Hr] Hn]; (split; [exists r; tauto | exact Hn]).
Qed.

Lemma sum_counts_perm {K : Type} (l l' : list (K * Z)) :
  Permutation l l' -> sum_counts l = sum_counts l'.
Proof.
  unfold sum_counts.
  induction 1 as [|x l l' _ IH|x y l|l l' l'' _ IH1 _ IH2];
    cbn [fold_right]; lia.
Qed.

Lemma count_le_total {K : Type} (a b : K * Z) :
  count_le a b = true \/ count_le b a = true.
Proof. unfold count_le. rewrite !Z.leb_le. lia. Qed.

Lemma count_le_trans {K : Type} (a b c : K * Z) :
  count_le a b = true -> count_le b c = true -> count_le a c = true.
Proof. unfold count_le. rewrite !Z.leb_le. lia. Qed.

Lemma count_ge_of_total {K : Type} (a b : K * Z) :
  count_ge_of a b = true \/ count_ge_of b a = true.
Proof. unfold count_ge_of. rewrite !Z.leb_le. lia. Qed.

Lemma count_ge_of_trans {K : Type} (a b c : K * Z) :
  count_ge_of a b = true -> count_ge_of b c = true ->
  count_ge_of a c = true.
Proof. unfold count_ge_of. rewrite !Z.leb_le. lia. Qed.

Lemma sorted_table_nodup (le : string * Z -> string * Z -> bool)
    (col : complaint -> string) (df : DataFrame) :
  NoDup (map fst (sort_by le (group_size String.compare (map col df)))).
Proof.
  eapply Permutation_NoDup.
  - apply Permutation_map, Permutation_sym, sort_by_perm.
  - apply (group_size_nodup String.compare string_compare_eq
             String.compare_antisym string_compare_lt_trans).
Qed.

(** X11.  The category chart shows a note for the empty frame.  For any
    other frame it is drawn from a table that lists a category exactly when
    some row of the frame has it, once, with the number of rows that have
    it, the rows of the table in ascending order of that number. *)
Theorem category_chart_table (r0 : complaint) (df : DataFrame) :
  let frame := r0 :: df in
  category_bar_plot [] = NoData "No data available."
  /\ exists rows,
       category_bar_plot frame = Figure rows
       /\ StronglySorted (fun a b => (snd a <= snd b)%Z) rows
       /\ NoDup (map fst rows)
       /\ forall c n,
            In (c, n) rows
            <-> (exists r, In r frame /\ category r = c)
                /\ n = rows_with category c frame.
Proof.
  cbv zeta. split; [reflexivity|].
  eexists. split; [reflexivity|]. split; [|split].
  - pose proof (sort_by_sorted count_le count_le_total count_le_trans
                  (group_size String.compare (map category (r0 :: df))))
      as Hs.
    eapply StronglySorted_weaken; [|exact Hs].
    intros a b Hab. now apply Z.leb_le.
  - apply sorted_table_nodup.
  - intros c n. rewrite sort_by_in. apply group_size_column.
Qed.

(** X12.  The country chart shows a note for the empty frame.  For any
    other frame it is drawn from a table that lists a country exactly when
    some row of the frame has it, once, with the number of rows that have
    it, the rows of the table in descending order of that number. *)
Theorem country_chart_table (r0 : complaint) (df : DataFrame) :
  let frame := r0 :: df in
  country_rank_plot [] = NoData "No data."
  /\ exists rows,
       country_rank_plot frame = Figure rows
       /\ StronglySorted (fun a b => (snd b <= snd a)%Z) rows
       /\ NoDup (map fst rows)
       /\ forall c n,
            In (c, n) rows
            <-> (exists r, In r frame /\ country r = c)
                /\ n = rows_with country c frame.
Proof.
  cbv zeta. split; [reflexivity|].
  eexists. split; [reflexivity|]. split; [|split].
  - pose proof (sort_by_sorted count_ge_of count_ge_of_total
                  count_ge_of_trans
                  (group_size String.compare (map country (r0 :: df))))
      as Hs.
    eapply StronglySorted_weaken; [|exact Hs].
    intros a b Hab. now apply Z.leb_le.
  - apply sorted_table_nodup.
  - intros c n. rewrite sort_by_in. apply group_size_column.
Qed.

Lemma count_key_rows_with_pair (ch st : string) (df : DataFrame) :
  count_key compare_pair (ch, st) (map (fun r => (channel r, status r)) df)
  = rows_with_pair ch st df.
Proof.
  unfold count_key, rows_with_pair. f_equal.
  induction df as [|r df IH]; cbn [map filter]; [reflexivity|].
  destruct (compare_pair (channel r, status r) (ch, st)) eqn:Hc.
  - apply compare_pair_eq in Hc. injection Hc as -> ->.
    rewrite !String.eqb_refl. cbn [andb List.length]. now rewrite IH.
  - destruct ((channel r =? ch) && (status r =? st)) eqn:Heq; [|exact IH].
    apply andb_true_iff in Heq. destruct Heq as [H1 H2].
    apply String.eqb_eq in H1, H2. subst.
    rewrite (proj2 (compare_pair_eq _ _) eq_refl) in Hc. discriminate.
  - destruct ((channel r =? ch) && (status r =? st)) eqn:Heq; [|exact IH].
    apply andb_true_iff in Heq. destruct Heq as [H1 H2].
    apply String.eqb_eq in H1, H2. subst.
    rewrite (proj2 (compare_pair_eq _ _) eq_refl) in Hc. discriminate.
Qed.

(** X13.  The channel chart shows a note for the empty frame.  For any
    other frame its table has one row for each (channel, status) pair that
    some row of the frame has, with the number of rows that have both, in
    ascending order of the pair; a pair that no row has gets no row, and no
    listed count is zero. *)
Theorem channel_chart_table (r0 : complaint) (df : DataFrame) :
  let frame := r0 :: df in
  channel_bar_plot [] = NoData "No data."
  /\ exists rows,
       channel_bar_plot frame = Figure rows
       /\ StronglySorted (fun a b => compare_pair a b = Lt) (map fst rows)
       /\ Forall (fun row => (1 <= snd row)%Z) rows
       /\ forall ch st n,
            In ((ch, st), n) rows
            <-> (exists r, In r frame /\ channel r = ch /\ status r = st)
                /\ n = rows_with_pair ch st frame.
Proof.
  cbv zeta. split; [reflexivity|].
  eexists. split; [reflexivity|].
  set (keys := map (fun r => (channel r, status r)) (r0 :: df)).
  assert (Hspec := fun k n =>
            group_size_spec compare_pair compare_pair_eq
              compare_pair_antisym compare_pair_lt_trans k n keys).
  split; [|split].
  - apply (group_size_sorted compare_pair compare_pair_eq
             compare_pair_antisym compare_pair_lt_trans).
  - apply Forall_forall. intros [k n] Hin. cbn [snd].
    apply Hspec in Hin. destruct Hin as [Hk ->].
    now apply (count_key_member compare_pair compare_pair_eq).
  - intros ch st n. rewrite Hspec. subst keys.
    rewrite count_key_rows_with_pair, in_map_iff. split.
    + intros [[r [Heq Hr]] Hn]. injection Heq as <- <-.
      split; [exists r; tauto | exact Hn].
    + intros [[r [Hr [<- <-]]] Hn]. split; [now exists r | exact Hn].
Qed.

(** X14.  The charts and the count card describe the same rows: for any
    non-empty frame the counts of the category chart, of the country chart
    and of the channel chart each add up to [len(df)], the number the
    count card shows. *)
Theorem chart_counts_add_up_to_count (r0 : complaint) (df : DataFrame) :
  let frame := r0 :: df in
  exists by_category by_country by_pair,
    category_bar_plot frame = Figure by_category
    /\ country_rank_plot frame = Figure by_country
    /\ channel_bar_plot frame = Figure by_pair
    /\ sum_counts by_category = len frame
    /\ sum_counts by_country = len frame
    /\ sum_counts by_pair = len frame
    /\ total_complaints frame = Some (format_int (len frame)).
Proof.
  cbv zeta. do 3 eexists.
  split; [reflexivity|]. split; [reflexivity|]. split; [reflexivity|].
  unfold len. repeat split.
  - rewrite (sum_counts_perm _ _ (sort_by_perm count_le _)).
    rewrite (sum_counts_group_size String.compare). now rewrite length_map.
  - rewrite (sum_counts_perm _ _ (sort_by_perm count_ge_of _)).
    rewrite (sum_counts_group_size String.compare). now rewrite length_map.
  - rewrite (sum_counts_group_size compare_pair). now rewrite length_map.
Qed.

(** * Further properties of the analytical query *)

(** ** Stage 1 loses no row *)

Lemma total_count_add (r : complaint) (gs : list daily_stat) :
  total_count (add_to_groups r gs) = (total_count gs + 1)%Z.
Proof.
  unfold total_count.
  induction gs as [|g gs IH]; cbn [add_to_groups fold_right daily_count];
    [lia|].
  destruct (same_group r g); cbn [fold_right daily_count]; lia.
Qed.

Lemma total_count_perm (gs gs' : list daily_stat) :
  Permutation gs gs' -> total_count gs = total_count gs'.
Proof.
  unfold total_count.
  induction 1 as [|g l l' _ IH|g1 g2 l|l l' l'' _ IH1 _ IH2];
    cbn [fold_right]; lia.
Qed.

Lemma group_rows_snoc (table : list complaint) (r : complaint) :
  group_rows (table ++ [r]) = add_to_groups r (group_rows table).
Proof. unfold group_rows. now rewrite fold_left_app. Qed.

(** X15.  Stage 1 loses no row and counts none twice: its daily counts add
    up to the number of rows of the table. *)
Theorem daily_stats_conserve_the_row_count (table : list complaint) :
  total_count (DailyStats table) = len table.
Proof.
  unfold DailyStats.
  rewrite (total_count_perm _ _ (sort_by_perm group_le _)).
  unfold len.
  induction table as [|r table IH] using rev_ind; [reflexivity|].
  rewrite group_rows_snoc, total_count_add, IH, length_app.
  cbn [List.length]. lia.
Qed.

(** ** One Stage-1 row per key *)

Lemma same_group_key (r : complaint) (g : daily_stat) :
  same_group r g = true <-> key_of_row r = key_of_stat g.
Proof.
  unfold same_group, key_of_row, key_of_stat.
  rewrite !andb_true_iff, !String.eqb_eq. split.
  - intros [[-> ->] ->]. reflexivity.
  - intros H. injection H as -> -> ->. repeat split.
Qed.

Lemma same_group_keys (r : complaint) (g g' : daily_stat) :
  key_of_stat g = key_of_stat g' -> same_group r g = same_group r g'.
Proof.
  intros Hk. apply eq_true_iff_eq. now rewrite !same_group_key, Hk.
Qed.

Lemma rows_of_group_snoc (g : daily_stat) (done : list complaint)
    (r : complaint) :
  rows_of_group g (done ++ [r])
  = (rows_of_group g done ++ if same_group r g then [r] else [])%list.
Proof. unfold rows_of_group. rewrite filter_app. reflexivity. Qed.

Lemma group_ok_other (done : list complaint) (r : complaint)
    (g : daily_stat) :
  same_group r g = false -> group_ok done g -> group_ok (done ++ [r]) g.
Proof.
  unfold group_ok. intros Hr. rewrite rows_of_group_snoc, Hr, app_nil_r.
  tauto.
Qed.

Lemma group_ok_bump (done : list complaint) (r : complaint)
    (g : daily_stat) :
  same_group r g = true -> group_ok done g ->
  group_ok (done ++ [r])
    (mkDailyStat (g_date g) (g_category g) (g_country g)
       (daily_count g + 1) (sql_add (daily_amount g) (amount r))).
Proof.
  unfold group_ok. intros Hr (Hc & Hpos & Ha).
  set (g' := mkDailyStat _ _ _ _ _).
  assert (Hrows : rows_of_group g' (done ++ [r])
                  = (rows_of_group g done ++ [r])%list).
  { rewrite rows_of_group_snoc.
    rewrite (same_group_keys r g' g eq_refl), Hr. reflexivity. }
  rewrite Hrows. subst g'. cbn [daily_count daily_amount].
  repeat split.
  - rewrite Hc. unfold len. rewrite length_app. cbn [List.length]. lia.
  - lia.
  - rewrite Ha. unfold sql_sum. rewrite map_app, fold_left_app.
    reflexivity.
Qed.

Lemma group_ok_new (done : list complaint) (r : complaint) :
  (forall x, In x done -> key_of_row x <> key_of_row r) ->
  group_ok (done ++ [r])
    (mkDailyStat (date r) (category r) (country r) 1
       (sql_add 0 (amount r))).
Proof.
  intros Hfresh. unfold group_ok.
  set (g := mkDailyStat _ _ _ _ _).
  assert (Hg : same_group r g = true) by now apply same_group_key.
  assert (Hrows : rows_of_group g (done ++ [r]) = [r]).
  { rewrite rows_of_group_snoc, Hg.
    replace (rows_of_group g done) with (@nil complaint); [reflexivity|].
    symmetry. unfold rows_of_group.
    induction done as [|x done IH]; [reflexivity|]. cbn [filter].
    destruct (same_group x g) eqn:Hx.
    - apply same_group_key in Hx.
      now elim (Hfresh x (or_introl eq_refl)).
    - apply IH. intros y Hy. apply Hfresh. now right. }
  rewrite Hrows. subst g. cbn [daily_count daily_amount].
  repeat split; try reflexivity; lia.
Qed.

Lemma add_to_groups_keys (r : complaint) (gs : list daily_stat) :
  map key_of_stat (add_to_groups r gs)
  = if existsb (same_group r) gs
    then map key_of_stat gs
    else (map key_of_stat gs ++ [key_of_row r])%list.
Proof.
  induction gs as [|g gs IH]; cbn [add_to_groups existsb map app].
  - reflexivity.
  - destruct (same_group r g); cbn [orb map].
    + reflexivity.
    + rewrite IH. now destruct (existsb (same_group r) gs).
Qed.

Lemma add_to_groups_forall (done : list complaint) (r : complaint)
    (gs : list daily_stat) :
  NoDup (map key_of_stat gs) ->
  Forall (group_ok done) gs ->
  (existsb (same_group r) gs = false ->
   group_ok (done ++ [r])
     (mkDailyStat (date r) (category r) (country r) 1
        (sql_add 0 (amount r)))) ->
  Forall (group_ok (done ++ [r])) (add_to_groups r gs).
Proof.
  induction gs as [|g gs IH]; cbn [add_to_groups map existsb];
    intros Hnodup Hall Hnew.
  - constructor; [now apply Hnew | constructor].
  - apply NoDup_cons_iff in Hnodup. destruct Hnodup as [Hg Hnodup].
    apply Forall_cons_iff in Hall. destruct Hall as [Hgok Hall].
    destruct (same_group r g) eqn:Hr.
    + constructor; [now apply group_ok_bump|].
      apply Forall_forall. intros g2 Hg2.
      rewrite Forall_forall in Hall.
      apply group_ok_other; [|now apply Hall].
      destruct (same_group r g2) eqn:Hr2; [|reflexivity].
      exfalso. apply Hg. apply same_group_key in Hr, Hr2.
      rewrite <- Hr, Hr2. now apply in_map.
    + constructor; [now apply group_ok_other|].
      apply IH; assumption.
Qed.

Lemma add_to_groups_ok (done : list complaint) (r : complaint)
    (gs : list daily_stat) :
  groups_ok done gs -> groups_ok (done ++ [r]) (add_to_groups r gs).
Proof.
  intros (Hnodup & Hall & Hcover).
  assert (Hfresh : existsb (same_group r) gs = false ->
                   ~ In (key_of_row r) (map key_of_stat gs)).
  { intros Hno Hin. apply in_map_iff in Hin.
    destruct Hin as [g [Hk Hg]].
    assert (Hex : existsb (same_group r) gs = true).
    { apply existsb_exists. exists g. split; [exact Hg|].
      now apply same_group_key. }
    congruence. }
  split; [|split].
  - rewrite add_to_groups_keys.
    destruct (existsb (same_group r) gs) eqn:Hex; [exact Hnodup|].
    apply NoDup_app; [exact Hnodup | repeat constructor; intros [] |].
    intros k Hk [<-|[]]. exact (Hfresh eq_refl Hk).
  - apply add_to_groups_forall; [exact Hnodup | exact Hall|].
    intros Hno. apply group_ok_new. intros x Hx Hk.
    apply (Hfresh Hno). rewrite <- Hk. now apply Hcover.
  - intros x Hx. rewrite add_to_groups_keys.
    apply in_app_or in Hx. destruct Hx as [Hx|[<-|[]]].
    + destruct (existsb (same_group r) gs);
        [|apply in_or_app; left]; now apply Hcover.
    + destruct (existsb (same_group r) gs) eqn:Hex.
      * apply existsb_exists in Hex. destruct Hex as [g [Hg Hxg]].
        apply same_group_key in Hxg. rewrite Hxg. now apply in_map.
      * apply in_or_app. right. now left.
Qed.

Lemma group_rows_ok (table : list complaint) :
  groups_ok table (group_rows table).
Proof.
  induction table as [|r table IH] using rev_ind.
  - split; [constructor|]. split; [constructor | intros r []].
  - rewrite group_rows_snoc. now apply add_to_groups_ok.
Qed.

Lemma groups_ok_perm (done : list complaint) (gs gs' : list daily_stat) :
  Permutation gs gs' -> groups_ok done gs -> groups_ok done gs'.
Proof.
  intros Hp (Hnodup & Hall & Hcover). split; [|split].
  - eapply Permutation_NoDup; [|exact Hnodup]. now apply Permutation_map.
  - now rewrite <- Hp.
  - intros r Hr. eapply Permutation_in; [|exact (Hcover r Hr)].
    now apply Permutation_map.
Qed.

Lemma DailyStats_ok (table : list complaint) :
  groups_ok table (DailyStats table).
Proof.
  apply (groups_ok_perm table (group_rows table)); [|apply group_rows_ok].
  apply Permutation_sym, sort_by_perm.
Qed.

(** X16.  Stage 1 has exactly one row for each (date, category, country)
    that occurs in the table, in ascending order of that key: no key
    twice, every table row's key present, and each row carrying the number
    of table rows with its key (never zero) and the sum of their amounts,
    added up in binary64 in the order in which the table stores them. *)
Theorem daily_stats_one_row_per_key (table : list complaint) :
  NoDup (map key_of_stat (DailyStats table))
  /\ StronglySorted (fun g1 g2 => group_le g1 g2 = true) (DailyStats table)
  /\ (forall r, In r table ->
        exists g, In g (DailyStats table) /\ key_of_stat g = key_of_row r)
  /\ (forall g, In g (DailyStats table) ->
        daily_count g = len (rows_of_group g table)
        /\ (1 <= daily_count g)%Z
        /\ daily_amount g = sql_sum (map amount (rows_of_group g table))).
Proof.
  destruct (DailyStats_ok table) as (Hnodup & Hall & Hcover).
  split; [exact Hnodup|]. split; [apply DailyStats_sorted|]. split.
  - intros r Hr. apply Hcover, in_map_iff in Hr.
    destruct Hr as [g [Hk Hg]]. now exists g.
  - intros g Hg. rewrite Forall_forall in Hall. exact (Hall g Hg).
Qed.

(** ** The range of the ranks *)

Lemma count_above_nonneg (c : string) (n : Z) (gs : list daily_stat) :
  (0 <= count_above c n gs)%Z.
Proof. unfold count_above. lia. Qed.

Lemma count_above_cons (c : string) (n : Z) (g : daily_stat)
    (gs : list daily_stat) :
  count_above c n (g :: gs)
  = ((if ((g_country g =? c)%string && (n <? daily_count g))%bool
      then 1 else 0)
     + count_above c n gs)%Z.
Proof.
  unfold count_above. cbn [filter].
  destruct ((g_country g =? c) && (n <? daily_count g)%Z);
    cbn [List.length]; lia.
Qed.

Lemma count_above_le_country (c : string) (n : Z) (gs : list daily_stat) :
  (count_above c n gs
   <= Z.of_nat (List.length (stats_of_country c gs)))%Z.
Proof.
  induction gs as [|g gs IH]; [unfold count_above; cbn; lia|].
  rewrite count_above_cons. unfold stats_of_country in *. cbn [filter].
  destruct (g_country g =? c); cbn [andb List.length];
    [destruct (n <? daily_count g)%Z|]; lia.
Qed.

Lemma count_above_member (g : daily_stat) (gs : list daily_stat) :
  In g gs ->
  (count_above (g_country g) (daily_count g) gs + 1
   <= Z.of_nat (List.length (stats_of_country (g_country g) gs)))%Z.
Proof.
  induction gs as [|x gs IH]; [contradiction|].
  intros Hin. rewrite count_above_cons.
  unfold stats_of_country in *. cbn [filter].
  destruct Hin as [->|Hin].
  - rewrite String.eqb_refl, Z.ltb_irrefl. cbn [andb List.length].
    pose proof (count_above_le_country (g_country g) (daily_count g) gs)
      as Hle.
    unfold stats_of_country in Hle. lia.
  - specialize (IH Hin).
    destruct (g_country x =? g_country g); cbn [andb List.length];
      [destruct (daily_count g <? daily_count x)%Z|]; lia.
Qed.

Lemma count_above_zero (c : string) (n : Z) (gs : list daily_stat) :
  count_above c n gs = 0%Z
  <-> forall g, In g gs -> g_country g = c -> (daily_count g <= n)%Z.
Proof.
  induction gs as [|g gs IH].
  - split; [intros _ g [] | reflexivity].
  - rewrite count_above_cons.
    pose proof (count_above_nonneg c n gs) as Hpos. split.
    + intros Hz g' [<-|Hg'] Hc.
      * rewrite (proj2 (String.eqb_eq _ _) Hc) in Hz. cbn [andb] in Hz.
        destruct (Z.ltb_spec n (daily_count g)); lia.
      * apply IH; [|exact Hg' | exact Hc].
        destruct ((g_country g =? c) && (n <? daily_count g)%Z); lia.
    + intros Hall.
      assert (Hrest : count_above c n gs = 0%Z).
      { apply IH. intros g' Hg'. apply Hall. now right. }
      rewrite Hrest.
      destruct (g_country g =? c) eqn:Hc; cbn [andb]; [|reflexivity].
      apply String.eqb_eq in Hc.
      pose proof (Hall g (or_introl eq_refl) Hc) as Hle.
      destruct (Z.ltb_spec n (daily_count g)); lia.
Qed.

Lemma largest_count (gs : list daily_stat) (g0 : daily_stat) :
  In g0 gs ->
  exists top,
    In top gs /\ forall g, In g gs -> (daily_count g <= daily_count top)%Z.
Proof.
  revert g0. induction gs as [|x gs IH]; intros g0 Hin; [contradiction|].
  destruct gs as [|y gs].
  - exists x. split; [now left|]. intros g [<-|[]]. lia.
  - destruct (IH y (or_introl eq_refl)) as [top [Htop Hmax]].
    destruct (Z.le_gt_cases (daily_count x) (daily_count top)).
    + exists top. split; [now right|].
      intros g [<-|Hg]; [assumption | now apply Hmax].
    + exists x. split; [now left|].
      intros g [<-|Hg]; [lia|]. specialize (Hmax g Hg). lia.
Qed.

(** X17.  A rank is never below 1 nor above the number of Stage-1 rows of
    the row's country; it is 1 exactly when no Stage-1 row of the country
    has a larger daily count; and every country that appears has a row of
    rank 1. *)
Theorem category_rank_range (table : list complaint) (r : ranking_row) :
  In r (RankedCategories table) ->
  let gs := DailyStats table in
  let c := g_country (stat r) in
  (1 <= category_rank r
   <= Z.of_nat (List.length (stats_of_country c gs)))%Z
  /\ (category_rank r = 1%Z
      <-> forall g, In g gs -> g_country g = c ->
                    (daily_count g <= daily_count (stat r))%Z)
  /\ exists top,
       In top (RankedCategories table)
       /\ g_country (stat top) = c
       /\ category_rank top = 1%Z.
Proof.
  intros Hr gs c. subst gs c.
  destruct (category_rank_counts_larger table r Hr) as [Hin Hrank].
  split; [|split].
  - rewrite Hrank.
    pose proof (count_above_member _ _ Hin).
    pose proof (count_above_nonneg (g_country (stat r))
                  (daily_count (stat r)) (DailyStats table)).
    lia.
  - rewrite Hrank, <- count_above_zero. lia.
  - assert (Hc : In (stat r)
                   (stats_of_country (g_country (stat r))
                      (DailyStats table))).
    { apply filter_In. split; [exact Hin | apply String.eqb_refl]. }
    destruct (largest_count _ _ Hc) as [g [Hg Hmax]].
    apply filter_In in Hg. destruct Hg as [Hg Hgc].
    apply String.eqb_eq in Hgc.
    destruct (every_stat_is_ranked table g Hg) as [top [Htop Hstat]].
    exists top. split; [exact Htop|]. split; [now rewrite Hstat|].
    destruct (category_rank_counts_larger table top Htop) as [_ Htr].
    rewrite Htr, Hstat.
    replace (count_above (g_country g) (daily_count g) (DailyStats table))
      with 0%Z; [reflexivity|].
    symmetry. apply count_above_zero. intros g' Hg' Hc'.
    apply Hmax. apply filter_In. split; [exact Hg'|].
    apply String.eqb_eq. congruence.
Qed.

Lemma category_rank_range_witness :
  let row cat := mkComplaint 1 "2025-04-01" "USA" "Email" cat "Open" 24
                   (10 # 1) "CUST-3000" 0 in
  let table := [row "Billing"; row "Shipping"; row "Billing"] in
  let r := mkRankingRow
             (mkDailyStat "2025-04-01" "Shipping" "USA" 1 (10 # 1))
             2 (30 # 1) in
  (1 <= category_rank r
   <= Z.of_nat
        (List.length (stats_of_country "USA" (DailyStats table))))%Z.
Proof.
  cbv zeta.
  apply (category_rank_range
           [mkComplaint 1 "2025-04-01" "USA" "Email" "Billing" "Open" 24
              (10 # 1) "CUST-3000" 0;
            mkComplaint 1 "2025-04-01" "USA" "Email" "Shipping" "Open" 24
              (10 # 1) "CUST-3000" 0;
            mkComplaint 1 "2025-04-01" "USA" "Email" "Billing" "Open" 24
              (10 # 1) "CUST-3000" 0]
           (mkRankingRow
              (mkDailyStat "2025-04-01" "Shipping" "USA" 1 (10 # 1))
              2 (30 # 1))).
  vm_compute. auto.
Defined.

(** ** Stage 2 against Stage 1 *)

Lemma ranked_stats_perm (table : list complaint) :
  Permutation (map stat (RankedCategories table)) (DailyStats table).
Proof.
  unfold RankedCategories, with_cumulative.
  change stat with (fun r => fst (unranked r)).
  rewrite <- (map_map unranked fst).
  rewrite (Permutation_map fst (with_rank_perm _)), running_sum_stats.
  apply sort_by_perm.
Qed.

(** ** The order of the result *)

Lemma StronglySorted_app {A : Type} (R : A -> A -> Prop) (l1 l2 : list A) :
  StronglySorted R l1 -> StronglySorted R l2 ->
  (forall x y, In x l1 -> In y l2 -> R x y) ->
  StronglySorted R (l1 ++ l2).
Proof.
  induction 1 as [|a l1 Hs IH Hall]; intros H2 Hcross; [exact H2|].
  cbn [app]. constructor.
  - apply IH; [exact H2|]. intros x y Hx. apply Hcross. now right.
  - apply Forall_app. split; [exact Hall|].
    apply Forall_forall. intros y Hy. apply Hcross; [now left | exact Hy].
Qed.

Lemma StronglySorted_members {A : Type} (R R' : A -> A -> Prop)
    (l : list A) :
  (forall a b, In a l -> In b l -> R a b -> R' a b) ->
  StronglySorted R l -> StronglySorted R' l.
Proof.
  intros Himp Hs. induction Hs as [|a l Hs IH Hall]; constructor.
  - apply IH. intros x y Hx Hy. apply Himp; now right.
  - rewrite Forall_forall in *. intros b Hb.
    apply Himp; [now left | now right | now apply Hall].
Qed.

Lemma StronglySorted_firstn {A : Type} (R : A -> A -> Prop) (n : nat)
    (l : list A) :
  StronglySorted R l -> StronglySorted R (firstn n l).
Proof.
  intros Hs. revert n.
  induction Hs as [|a l Hs IH Hall]; intros [|n]; cbn [firstn];
    try constructor.
  - apply IH.
  - rewrite Forall_forall in *. intros b Hb. apply Hall.
    rewrite <- (firstn_skipn n l). apply in_or_app. now left.
Qed.

Lemma rank_partition_sorted (rows : list (daily_stat * Q)) (c : string) :
  StronglySorted result_order (rank_partition rows c).
Proof.
  apply (StronglySorted_members
           (fun a b => count_ge (unranked a) (unranked b) = true)).
  - intros a b Ha Hb Hab. right.
    apply rank_partition_spec in Ha, Hb.
    destruct Ha as [Ha _], Hb as [Hb _]. split; [congruence|].
    unfold count_ge, unranked in Hab. cbn [fst] in Hab.
    now apply Z.leb_le in Hab.
  - apply (StronglySorted_map (fun x y => count_ge x y = true) unranked).
    unfold rank_partition. rewrite rank_rows_unranked.
    apply sort_by_sorted; [apply count_ge_total | apply count_ge_trans].
Qed.

Lemma with_rank_sorted (rows : list (daily_stat * Q)) :
  StronglySorted result_order (with_rank rows).
Proof.
  unfold with_rank.
  assert (Hkeys : strictly_ascending (partition_keys rows)).
  { apply sorted_strictly, NoDup_nodup. }
  unfold strictly_ascending in Hkeys.
  induction Hkeys as [|c keys Hs IH Hall]; cbn [flat_map]; [constructor|].
  apply StronglySorted_app; [apply rank_partition_sorted | exact IH|].
  intros x y Hx Hy. left.
  apply rank_partition_spec in Hx. destruct Hx as [Hx _].
  apply in_flat_map in Hy. destruct Hy as [c' [Hc' Hy]].
  apply rank_partition_spec in Hy. destruct Hy as [Hy _].
  rewrite Hx, Hy. rewrite Forall_forall in Hall. now apply Hall.
Qed.

(** X18.  Stage 2 has the rows of Stage 1, each exactly once, so as many
    rows as there are (date, category, country) groups, and it comes out
    country by country in ascending order of the country, each country's
    rows by descending count.  The call returns the first hundred rows in
    that order, and all of them when there are no more than a hundred. *)
Theorem ranking_returns_each_group_once (table : list complaint)
    (w : world) :
  Permutation (map stat (RankedCategories table)) (DailyStats table)
  /\ List.length (RankedCategories table) = List.length (DailyStats table)
  /\ StronglySorted result_order (RankedCategories table)
  /\ exists df,
       fst (get_complex_sql_metrics (mkDatabase (Some table)) w)
       = Returned df
       /\ df = firstn 100 (RankedCategories table)
       /\ StronglySorted result_order df
       /\ List.length df = Nat.min 100 (List.length (DailyStats table))
       /\ ((List.length (DailyStats table) <= 100)%nat ->
           df = RankedCategories table).
Proof.
  pose proof (ranked_stats_perm table) as Hperm.
  assert (Hlen : List.length (RankedCategories table)
                 = List.length (DailyStats table)).
  { rewrite <- (Permutation_length Hperm). now rewrite length_map. }
  assert (Hsorted : StronglySorted result_order (RankedCategories table))
    by apply with_rank_sorted.
  split; [exact Hperm|]. split; [exact Hlen|]. split; [exact Hsorted|].
  eexists. rewrite get_complex_sql_metrics_run.
  cbn [complex_sql_metrics complaints fst].
  split; [reflexivity|]. split; [reflexivity|]. split; [|split].
  - now apply StronglySorted_firstn.
  - now rewrite length_firstn, Hlen.
  - intros Hsmall. apply firstn_all2. now rewrite Hlen.
Qed.

(** ** The last cumulative amount *)

Lemma running_sum_app (l1 l2 : list daily_stat) (acc : Q) :
  running_sum acc (l1 ++ l2)
  = (running_sum acc l1
     ++ running_sum (fold_left sql_add (map daily_amount l1) acc) l2)%list.
Proof.
  revert acc. induction l1 as [|g l1 IH]; intros acc; [reflexivity|].
  cbn [app running_sum map fold_left]. now rewrite IH.
Qed.

Lemma sum_from_ge (gs : list daily_stat) :
  Forall (fun g => (0 <= daily_amount g)%Q) gs ->
  forall acc : Q,
  (0 <= acc)%Q -> (binary64 acc == acc)%Q ->
  (acc <= fold_left sql_add (map daily_amount gs) acc)%Q.
Proof.
  induction 1 as [|h gs Hh _ IH]; intros acc Hacc Hrep;
    cbn [map fold_left]; [apply Qle_refl|].
  eapply Qle_trans; [apply (sql_add_ge acc (daily_amount h)); assumption|].
  apply IH; [now apply sql_add_nonneg | now apply sql_add_binary64].
Qed.

Lemma running_sum_upper (gs : list daily_stat) :
  Forall (fun g => (0 <= daily_amount g)%Q) gs ->
  forall (acc : Q) (g : daily_stat) (c : Q),
  (0 <= acc)%Q -> (binary64 acc == acc)%Q ->
  In (g, c) (running_sum acc gs) ->
  (c <= fold_left sql_add (map daily_amount gs) acc)%Q.
Proof.
  induction 1 as [|h gs Hh Hpos IH]; intros acc g c Hacc Hrep Hin;
    [contradiction|].
  assert (Hacc' : (0 <= sql_add acc (daily_amount h))%Q)
    by now apply sql_add_nonneg.
  assert (Hrep' : (binary64 (sql_add acc (daily_amount h))
                   == sql_add acc (daily_amount h))%Q)
    by now apply sql_add_binary64.
  cbn [running_sum] in Hin. cbn [map fold_left].
  destruct Hin as [Heq|Hin].
  - injection Heq as _ <-. now apply sum_from_ge.
  - exact (IH _ g c Hacc' Hrep' Hin).
Qed.

Lemma DailyStats_nonempty (table : list complaint) (r0 : complaint) :
  In r0 table -> DailyStats table <> [].
Proof.
  intros Hr Hnil. destruct (DailyStats_ok table) as (_ & _ & Hcover).
  specialize (Hcover r0 Hr). rewrite Hnil in Hcover. exact Hcover.
Qed.

(** X19.  The cumulative amount ends at the sum of all daily amounts,
    added up in binary64 in the order of Stage 1: when no amount in the
    store is negative, no Stage-2 row has a cumulative amount above that
    sum, and if the table has a row at all, some Stage-2 row (the last of
    the window) has exactly that sum. *)
Theorem cumulative_amount_ends_at_the_last_sum (table : list complaint) :
  Forall (fun r => (0 <= amount r)%Q) table ->
  let last := sql_sum (map daily_amount (DailyStats table)) in
  (forall r, In r (RankedCategories table) ->
             (cumulative_amount r <= last)%Q)
  /\ (forall r0, In r0 table ->
        exists r,
          In r (RankedCategories table) /\ cumulative_amount r = last).
Proof.
  intros Htable last. subst last.
  pose proof (DailyStats_nonneg table Htable) as Hpos.
  assert (Hzero : (binary64 0 == 0)%Q) by reflexivity.
  split.
  - intros r Hr. apply ranked_row_in_window in Hr.
    unfold with_cumulative in Hr. rewrite window_is_DailyStats in Hr.
    exact (running_sum_upper _ Hpos _ _ _ (Qle_refl 0) Hzero Hr).
  - intros r0 Hr0.
    destruct (exists_last (DailyStats_nonempty table r0 Hr0))
      as (init & g & Hw).
    destruct (with_rank_complete (with_cumulative (DailyStats table))
                (g, sql_sum (map daily_amount (init ++ [g]))))
      as [r [Hr [_ Hcum]]].
    { unfold with_cumulative.
      rewrite window_is_DailyStats, Hw, running_sum_app.
      apply in_or_app. right. cbn [running_sum]. left.
      unfold sql_sum. rewrite map_app, fold_left_app. reflexivity. }
    exists r. split; [exact Hr|].
    rewrite Hcum, Hw. reflexivity.
Qed.

Lemma cumulative_amount_ends_at_the_last_sum_witness :
  let table :=
    [mkComplaint 1 "2025-01-02" "USA" "Email" "Billing" "Open" 24
       (3 # 10) "CUST-4000" 0;
     mkComplaint 2 "2025-01-01" "UK" "Phone" "Shipping" "Closed" 36
       (1 # 10) "CUST-4001" 1;
     mkComplaint 3 "2025-01-01" "USA" "Chat" "Billing" "Open" 12
       (2 # 10) "CUST-4002" 0] in
  let last := sql_sum (map daily_amount (DailyStats table)) in
  (forall r, In r (RankedCategories table) ->
             (cumulative_amount r <= last)%Q)
  /\ (forall r0, In r0 table ->
        exists r,
          In r (RankedCategories table) /\ cumulative_amount r = last).
Proof.
  cbv zeta.
  apply (cumulative_amount_ends_at_the_last_sum
           [mkComplaint 1 "2025-01-02" "USA" "Email" "Billing" "Open" 24
              (3 # 10) "CUST-4000" 0;
            mkComplaint 2 "2025-01-01" "UK" "Phone" "Shipping" "Closed" 36
              (1 # 10) "CUST-4001" 1;
            mkComplaint 3 "2025-01-01" "USA" "Chat" "Billing" "Open" 12
              (2 # 10) "CUST-4002" 0]).
  repeat constructor; discriminate.
Defined.

(** * Properties of the data generator *)

(** ** Dates of 2025 *)

Lemma all_dates_in_default_range :
  forallb date_in_default_range (seq 0 365) = true.
Proof. vm_compute. reflexivity. Qed.

Lemma date_after_in_2025 (k : Z) :
  (0 <= k < 365)%Z ->
  exists s,
    date_after k = Some s
    /\ String.leb "2025-01-01" s = true
    /\ String.leb s "2025-12-31" = true.
Proof.
  intros Hk.
  pose proof all_dates_in_default_range as Hall.
  rewrite forallb_forall in Hall.
  specialize (Hall (Z.to_nat k)).
  unfold date_in_default_range in Hall.
  rewrite Z2Nat.id in Hall by lia.
  destruct (date_after k) as [s|].
  - exists s. split; [reflexivity|]. apply andb_true_iff, Hall.
    apply in_seq. lia.
  - assert (false = true); [|discriminate]. apply Hall. apply in_seq. lia.
Qed.

(** ** One generated row *)

Lemma choice_in {A : Type} (l : list A) (i : nat) :
  (i < List.length l)%nat -> exists x, nth_error l i = Some x /\ In x l.
Proof.
  intros Hi. destruct (nth_error l i) as [x|] eqn:Hx.
  - exists x. split; [reflexivity|]. now apply nth_error_In in Hx.
  - apply nth_error_None in Hx. lia.
Qed.

Lemma generate_row_ok (id : Z) (d : draw) :
  valid_draw d ->
  exists r,
    generate_row id d = Some r
    /\ complaint_id r = id
    /\ generated_row_ok r.
Proof.
  intros (Hday & Hco & Hch & Hca & Hst & Hsla & Ham & _ & Hesc).
  destruct (date_after_in_2025 _ Hday) as (day & Hd & Hlo & Hhi).
  destruct (choice_in _ _ Hco) as (co & Hco' & Hcoin).
  destruct (choice_in _ _ Hch) as (ch & Hch' & Hchin).
  destruct (choice_in _ _ Hca) as (ca & Hca' & Hcain).
  destruct (choice_in _ _ Hst) as (st & Hst' & Hstin).
  destruct (choice_in [0%Z; 1%Z] _ Hesc) as (esc & Hesc' & Hescin).
  unfold generate_row. rewrite Hd, Hco', Hch', Hca', Hst', Hesc'.
  eexists. split; [reflexivity|]. split; [reflexivity|].
  unfold generated_row_ok.
  cbn [date country channel category status sla_hours amount is_escalated].
  repeat split; try assumption; try lia; try apply Ham.
  destruct Hescin as [<-|[<-|[]]]; [now left | now right].
Qed.

Lemma all_some_map {A B : Type} (f : A -> option B) (P : A -> B -> Prop)
    (l : list A) :
  (forall a, In a l -> exists b, f a = Some b /\ P a b) ->
  exists bs, all_some (map f l) = Some bs /\ Forall2 P l bs.
Proof.
  induction l as [|a l IH]; intros Hall.
  - exists []. split; [reflexivity | constructor].
  - destruct (Hall a (or_introl eq_refl)) as (b & Hb & HP).
    destruct (IH (fun a' Ha' => Hall a' (or_intror Ha')))
      as (bs & Hbs & HF).
    exists (b :: bs). cbn [map all_some]. rewrite Hb, Hbs.
    split; [reflexivity | now constructor].
Qed.

(** The rows of a run, with what the proofs below need of them. *)
(** With no row to write the generator stops at line 32: nothing is
    written. *)
Lemma generate_data_of_no_rows (source : nat -> draw) :
  generate_data 0 source = None.
Proof. reflexivity. Qed.

Lemma generate_data_some_rows (n : nat) (source : nat -> draw) :
  (1 <= n)%nat ->
  generate_data n source
  = match all_some
            (map (fun i => generate_row (Z.of_nat (S i)) (source i))
               (seq 0 n)) with
    | Some rows => Some (mkDatabase (Some rows))
    | None => None
    end.
Proof. intros Hn. destruct n as [|n]; [lia | reflexivity]. Qed.

Lemma generate_data_rows (n : nat) (source : nat -> draw) :
  (1 <= n)%nat ->
  (forall i, (i < n)%nat -> valid_draw (source i)) ->
  exists rows,
    generate_data n source = Some (mkDatabase (Some rows))
    /\ Forall2 (fun i r => complaint_id r = Z.of_nat (S i)
                           /\ generated_row_ok r) (seq 0 n) rows.
Proof.
  intros Hn Hvalid. rewrite (generate_data_some_rows n source Hn).
  destruct (all_some_map
              (fun i => generate_row (Z.of_nat (S i)) (source i))
              (fun i r => complaint_id r = Z.of_nat (S i)
                          /\ generated_row_ok r)
              (seq 0 n)) as (rows & Hrows & HF).
  { intros i Hi. apply in_seq in Hi.
    destruct (generate_row_ok (Z.of_nat (S i)) (source i)) as (r & Hr & H).
    - apply Hvalid. lia.
    - now exists r. }
  exists rows. now rewrite Hrows.
Qed.

Lemma Forall2_ids (l : list nat) (rows : list complaint) :
  Forall2 (fun i r => complaint_id r = Z.of_nat (S i)
                      /\ generated_row_ok r) l rows ->
  map complaint_id rows = map (fun i => Z.of_nat (S i)) l
  /\ Forall generated_row_ok rows.
Proof.
  induction 1 as [|i r l rows [Hid Hok] _ [IHid IHok]].
  - split; [reflexivity | constructor].
  - cbn [map]. rewrite Hid, IHid. split; [reflexivity | now constructor].
Qed.

Lemma NoDup_map_injective {A B : Type} (f : A -> B) (l : list A) :
  (forall a b, f a = f b -> a = b) -> NoDup l -> NoDup (map f l).
Proof.
  intros Hinj. induction 1 as [|a l Ha _ IH]; cbn [map]; constructor.
  - intros Hin. apply in_map_iff in Hin. destruct Hin as [b [Hb Hin]].
    apply Hinj in Hb. now subst.
  - exact IH.
Qed.

(** X20.  Whatever the generator draws within the ranges of its calls,
    [generate_data(n)] for at least one row writes a table of exactly [n]
    rows whose ids are 1 to [n] in order (so no id twice), whose dates are
    ISO dates of 2025, whose dimension values come from the four
    configured lists, whose SLA hours lie between 12 and 119, whose
    amounts lie between 10 and 500 and whose escalation flag is 0 or 1. *)
Theorem generated_table_is_well_formed (n : nat) (source : nat -> draw) :
  (1 <= n)%nat ->
  (forall i, (i < n)%nat -> valid_draw (source i)) ->
  exists rows,
    generate_data n source = Some (mkDatabase (Some rows))
    /\ List.length rows = n
    /\ map complaint_id rows = map (fun i => Z.of_nat (S i)) (seq 0 n)
    /\ NoDup (map complaint_id rows)
    /\ Forall generated_row_ok rows.
Proof.
  intros Hn Hvalid.
  destruct (generate_data_rows n source Hn Hvalid) as (rows & Hgen & HF).
  destruct (Forall2_ids _ _ HF) as [Hids Hok].
  exists rows. split; [exact Hgen|]. split; [|split; [exact Hids|split]].
  - apply Forall2_length in HF. now rewrite <- HF, length_seq.
  - rewrite Hids. apply NoDup_map_injective; [|apply seq_NoDup].
    intros i j Hij. lia.
  - exact Hok.
Qed.

Lemma generated_table_is_well_formed_witness :
  exists rows,
    generate_data 3
      (fun i => mkDraw (Z.of_nat i * 100) i 0 1 2 50 (1234 # 100) 4321 1)
    = Some (mkDatabase (Some rows))
    /\ List.length rows = 3%nat
    /\ map complaint_id rows = map (fun i => Z.of_nat (S i)) (seq 0 3)
    /\ NoDup (map complaint_id rows)
    /\ Forall generated_row_ok rows.
Proof.
  apply (generated_table_is_well_formed 3
           (fun i => mkDraw (Z.of_nat i * 100) i 0 1 2 50 (1234 # 100)
                       4321 1)).
  - lia.
  - intros i Hi. unfold valid_draw. cbn.
    repeat split; try lia; discriminate.
Defined.

(** ** The generated store under the page *)

Lemma filter_all {A : Type} (p : A -> bool) (l : list A) :
  Forall (fun a => p a = true) l -> filter p l = l.
Proof.
  induction 1 as [|a l Ha _ IH]; cbn [filter]; [reflexivity|].
  now rewrite Ha, IH.
Qed.

(** X21.  The page opens on all the generated data: when the app reads the
    table a run of the generator wrote ([n] rows, at least one), the first
    frame, computed from the default date range 2025-01-01 to 2025-12-31
    with nothing selected, is the whole table in storage order, and the
    count card shows [n]. *)
Theorem first_frame_is_the_generated_table (n : nat)
    (source : nat -> draw) (w : world) :
  (1 <= n)%nat ->
  (forall i, (i < n)%nat -> valid_draw (source i)) ->
  exists db rows,
    generate_data n source = Some db
    /\ complaints db = Some rows
    /\ fst (filtered_df db initial_inputs w) = Returned rows
    /\ total_complaints rows = Some (format_int (Z.of_nat n)).
Proof.
  intros Hn Hvalid.
  destruct (generate_data_rows n source Hn Hvalid) as (rows & Hgen & HF).
  destruct (Forall2_ids _ _ HF) as [_ Hok].
  exists (mkDatabase (Some rows)), rows.
  split; [exact Hgen|]. split; [reflexivity|]. split.
  - unfold filtered_df, initial_inputs.
    cbn [input_date_range input_country input_channel input_category
           input_status].
    rewrite get_filtered_data_returns. f_equal. apply filter_all.
    eapply Forall_impl; [|exact Hok].
    intros r (Hlo & Hhi & _). unfold selected, in_range, allows.
    cbn [fst snd]. now rewrite Hlo, Hhi.
  - unfold total_complaints, len. do 3 f_equal.
    apply Forall2_length in HF. now rewrite <- HF, length_seq.
Qed.

Lemma first_frame_is_the_generated_table_witness :
  exists db rows,
    generate_data 3
      (fun i => mkDraw (Z.of_nat i * 100) i 0 1 2 50 (1234 # 100) 4321 1)
    = Some db
    /\ complaints db = Some rows
    /\ fst (filtered_df db initial_inputs fresh_world) = Returned rows
    /\ total_complaints rows = Some (format_int (Z.of_nat 3)).
Proof.
  apply (first_frame_is_the_generated_table 3
           (fun i => mkDraw (Z.of_nat i * 100) i 0 1 2 50 (1234 # 100)
                       4321 1) fresh_world).
  - lia.
  - intros i Hi. unfold valid_draw. cbn.
    repeat split; try lia; discriminate.
Defined.

(** X22.  On a table the generator wrote (of at least one row) the four
    selectize inputs offer only values of the generator's configuration
    lists: every offered country is one of the seven countries, and
    likewise for channels, categories and statuses. *)
Theorem generated_choices_come_from_the_lists (n : nat)
    (source : nat -> draw) (w : world) :
  (1 <= n)%nat ->
  (forall i, (i < n)%nat -> valid_draw (source i)) ->
  exists db choices,
    generate_data n source = Some db
    /\ fst (init_filter_choices db w) = Returned choices
    /\ incl (country_choices choices) gen_countries
    /\ incl (channel_choices choices) gen_channels
    /\ incl (category_choices choices) gen_categories
    /\ incl (status_choices choices) gen_statuses.
Proof.
  intros Hn Hvalid.
  destruct (generate_data_rows n source Hn Hvalid) as (rows & Hgen & HF).
  destruct (Forall2_ids _ _ HF) as [_ Hok].
  rewrite Forall_forall in Hok.
  exists (mkDatabase (Some rows)). eexists.
  split; [exact Hgen|]. rewrite init_filter_choices_run.
  cbn [select_distinct_dimensions complaints fst].
  split; [reflexivity|].
  cbn [country_choices channel_choices category_choices status_choices].
  repeat split; intros v Hv;
    apply (proj1 (choices_members _ _ _ _ (fun r => eq_refl))) in Hv;
    destruct Hv as [r [Hr <-]]; apply (Hok r Hr).
Qed.

Lemma generated_choices_come_from_the_lists_witness :
  exists db choices,
    generate_data 3
      (fun i => mkDraw (Z.of_nat i * 100) i 0 1 2 50 (1234 # 100) 4321 1)
    = Some db
    /\ fst (init_filter_choices db fresh_world) = Returned choices
    /\ incl (country_choices choices) gen_countries
    /\ incl (channel_choices choices) gen_channels
    /\ incl (category_choices choices) gen_categories
    /\ incl (status_choices choices) gen_statuses.
Proof.
  apply (generated_choices_come_from_the_lists 3
           (fun i => mkDraw (Z.of_nat i * 100) i 0 1 2 50 (1234 # 100)
                       4321 1) fresh_world).
  - lia.
  - intros i Hi. unfold valid_draw. cbn.
    repeat split; try lia; discriminate.
Defined.

(** * When the store accesses fail *)

